(** * The plan execution state machine of workstream, embedded in Rocq

    The development follows [internal/execute/sm]: the finalisation machine
    ([finalStates]) and the execution machine ([States]) with its helpers
    [runPreChecks], [runContChecks], [runChecks], [execSeq] and [runAction].
    The workflow tree of package [workflow] is modelled by records; the
    collaborators the package only sees through interfaces (plugin registry,
    storage writer, retry loop, worker pool, state machine runner) are
    modelled by their contracts and by oracles gathered in [Env]. *)

From Stdlib Require Import ZArith String List Bool Lia DecimalString.
From stdpp Require Import base option list strings relations.

Local Open Scope string_scope.
Local Open Scope list_scope.
Local Open Scope Z_scope.

(** ** Go values shared by all packages *)

Module Go.

(** A value of interface type [any]: [None] is the nil interface, otherwise
    a dynamic type (as printed by the verb [%T]) and an opaque payload. *)
Record dyn := Dyn { dtype : string; dval : string }.
Definition any := option dyn.

(** [reflect.TypeOf]: [None] for the nil interface. *)
Definition TypeOf (a : any) : option string := dtype <$> a.

(** What [fmt]'s verb [%T] prints. *)
Definition fmtT (a : any) : string :=
  match a with
  | None => "<nil>"
  | Some d => dtype d
  end.

(** Values of interface type [error] that the package builds or receives.
    [wrapError msg inner] is the result of [fmt.Errorf] with a [%w] verb:
    [msg] is the formatted text before the wrapped error. [nil] errors are
    [None] in [option error]. *)
Inductive error :=
| ErrInternalFailure
| ErrPermanent
| ctxError
| errorString (msg : string)
| wrapError (msg : string) (inner : error).

(** [errors.Is err target] for a sentinel [target]. *)
Fixpoint errors_Is (target : error) (err : error) : bool :=
  match err with
  | wrapError _ inner => errors_Is target inner
  | ErrInternalFailure =>
      match target with ErrInternalFailure => true | _ => false end
  | ErrPermanent =>
      match target with ErrPermanent => true | _ => false end
  | ctxError => match target with ctxError => true | _ => false end
  | errorString _ => false
  end.

(** The formatted text of an error, up to the text of the sentinels. *)
Fixpoint message (err : error) : string :=
  match err with
  | wrapError msg inner => msg +:+ message inner
  | errorString msg => msg
  | ErrInternalFailure => "internal failure"
  | ErrPermanent => "permanent error"
  | ctxError => "context canceled"
  end.

(** [strings.Contains]. *)
Fixpoint Contains (s sub : string) : bool :=
  if String.prefix sub s then true
  else match s with
       | EmptyString => false
       | String _ rest => Contains rest sub
       end.

(** [strconv.FormatInt(i, 10)]. *)
Definition FormatInt (i : Z) : string := NilZero.string_of_int (Z.to_int i).

End Go.
Export Go.

(** ** Package workflow: the plan tree *)

Module workflow.

(** [type Status int]. *)
Definition Status := Z.
Definition NotStarted : Status := 0.
Definition Started : Status := 100.
Definition Running : Status := 200.
Definition Completed : Status := 300.
Definition Failed : Status := 400.
Definition Stopped : Status := 500.

(** [Status.String], as the generated file of the repository has it. The
    file was generated for an earlier numbering of the constants: the names
    it prints are not those of the constants above. *)
Definition Status_String (i : Status) : string :=
  if i =? 0 then "NotStarted"
  else if i =? 100 then "Running"
  else if i =? 200 then "Completed"
  else if i =? 300 then "Failed"
  else if i =? 400 then "Stopped"
  else "Status(" +:+ FormatInt i +:+ ")".

(** [type FailureReason int]. *)
Definition FailureReason := Z.
Definition FRUnknown : FailureReason := 0.
Definition FRPreCheck : FailureReason := 100.
Definition FRBlock : FailureReason := 200.
Definition FRPostCheck : FailureReason := 300.
Definition FRContCheck : FailureReason := 400.
Definition FRStopped : FailureReason := 500.

(** [type ObjectType int]. *)
Definition ObjectType := Z.
Definition OTUnknown : ObjectType := 0.
Definition OTPlan : ObjectType := 1.
Definition OTPreCheck : ObjectType := 2.
Definition OTPostCheck : ObjectType := 3.
Definition OTContCheck : ObjectType := 4.
Definition OTBlock : ObjectType := 5.
Definition OTSequence : ObjectType := 6.
Definition OTAction : ObjectType := 7.

(** Wall-clock instants, as ticks of the clock the machine reads. The zero
    [time.Time{}] is [0]. *)
Definition Time := nat.

(** [State] (named [Internal] in the revision of the execution machine):
    the run-time state every object of the tree carries. *)
Record State := mkState { Status_ : Status; Start_ : Time; End_ : Time }.

Definition zeroState : State := mkState NotStarted 0%nat 0%nat.

Record Attempt := mkAttempt {
  Resp : any;
  AErr : option error;
  AStart : Time;
  AEnd : Time
}.

Record Action := mkAction {
  AName : string;
  Plugin : string;
  ATimeout : Z;
  Retries : Z;
  Req : any;
  Attempts : list Attempt;
  AState : State
}.

(** [PreChecks], [ContChecks] and [PostChecks]: one record, as the
    finalisation machine sees them ([*workflow.Checks]); [Delay] is only
    meaningful for continuous checks. *)
Record Checks := mkChecks {
  Actions : list Action;
  CTimeout : Z;
  Delay : Z;
  CState : State
}.

Record Sequence := mkSequence {
  SName : string;
  SActions : list Action;
  SState : State
}.

Record Block := mkBlock {
  BName : string;
  BPreChecks : option Checks;
  BPostChecks : option Checks;
  BContChecks : option Checks;
  Sequences : list Sequence;
  Concurrency : Z;
  ToleratedFailures : Z;
  BState : State
}.

Record Plan := mkPlan {
  Name : string;
  PreChecks : option Checks;
  ContChecks : option Checks;
  PostChecks : option Checks;
  Blocks : list Block;
  PState : State;
  Reason : FailureReason
}.

(** Field assignments through the pointers of the tree. *)
Definition setStatus (s : Status) (st : State) : State :=
  mkState s (Start_ st) (End_ st).
Definition setStart (t : Time) (st : State) : State :=
  mkState (Status_ st) t (End_ st).
Definition setEnd (t : Time) (st : State) : State :=
  mkState (Status_ st) (Start_ st) t.

Definition Action_withState (f : State -> State) (a : Action) : Action :=
  mkAction (AName a) (Plugin a) (ATimeout a) (Retries a) (Req a)
           (Attempts a) (f (AState a)).
Definition Action_withAttempts (l : list Attempt) (a : Action) : Action :=
  mkAction (AName a) (Plugin a) (ATimeout a) (Retries a) (Req a)
           l (AState a).

Definition Checks_withActions (l : list Action) (c : Checks) : Checks :=
  mkChecks l (CTimeout c) (Delay c) (CState c).

Definition Sequence_withState (f : State -> State) (s : Sequence) : Sequence :=
  mkSequence (SName s) (SActions s) (f (SState s)).
Definition Sequence_withActions (l : list Action) (s : Sequence) : Sequence :=
  mkSequence (SName s) l (SState s).

Definition Block_withState (f : State -> State) (b : Block) : Block :=
  mkBlock (BName b) (BPreChecks b) (BPostChecks b) (BContChecks b)
          (Sequences b) (Concurrency b) (ToleratedFailures b) (f (BState b)).
Definition Block_withPreChecks (c : option Checks) (b : Block) : Block :=
  mkBlock (BName b) c (BPostChecks b) (BContChecks b)
          (Sequences b) (Concurrency b) (ToleratedFailures b) (BState b).
Definition Block_withPostChecks (c : option Checks) (b : Block) : Block :=
  mkBlock (BName b) (BPreChecks b) c (BContChecks b)
          (Sequences b) (Concurrency b) (ToleratedFailures b) (BState b).
Definition Block_withContChecks (c : option Checks) (b : Block) : Block :=
  mkBlock (BName b) (BPreChecks b) (BPostChecks b) c
          (Sequences b) (Concurrency b) (ToleratedFailures b) (BState b).
Definition Block_withSequences (l : list Sequence) (b : Block) : Block :=
  mkBlock (BName b) (BPreChecks b) (BPostChecks b) (BContChecks b)
          l (Concurrency b) (ToleratedFailures b) (BState b).

Definition Plan_withState (f : State -> State) (p : Plan) : Plan :=
  mkPlan (Name p) (PreChecks p) (ContChecks p) (PostChecks p) (Blocks p)
         (f (PState p)) (Reason p).
Definition Plan_withReason (r : FailureReason) (p : Plan) : Plan :=
  mkPlan (Name p) (PreChecks p) (ContChecks p) (PostChecks p) (Blocks p)
         (PState p) r.
Definition Plan_withPreChecks (c : option Checks) (p : Plan) : Plan :=
  mkPlan (Name p) c (ContChecks p) (PostChecks p) (Blocks p)
         (PState p) (Reason p).
Definition Plan_withContChecks (c : option Checks) (p : Plan) : Plan :=
  mkPlan (Name p) (PreChecks p) c (PostChecks p) (Blocks p)
         (PState p) (Reason p).
Definition Plan_withPostChecks (c : option Checks) (p : Plan) : Plan :=
  mkPlan (Name p) (PreChecks p) (ContChecks p) c (Blocks p)
         (PState p) (Reason p).
Definition Plan_withBlocks (l : list Block) (p : Plan) : Plan :=
  mkPlan (Name p) (PreChecks p) (ContChecks p) (PostChecks p) l
         (PState p) (Reason p).

End workflow.
Export workflow.

(** ** The finalisation machine ([finalStates]) *)

Module final.

(** The states of the machine: the methods of [finalStates]. *)
Inductive fstate := f_start | f_planChecks | f_blocks | f_end.

(** [statemachine.Request[Data]], restricted to what the finalisation
    machine reads and writes: the plan behind [req.Data.Plan], [req.Err]
    and [req.Next]. *)
Record Request := mkRequest {
  plan : Plan;
  Err : option error;
  Next : option fstate
}.

Definition setNext (n : option fstate) (req : Request) : Request :=
  mkRequest (plan req) (Err req) n.
Definition setErr (e : option error) (req : Request) : Request :=
  mkRequest (plan req) e (Next req).
Definition setPlan (p : Plan) (req : Request) : Request :=
  mkRequest p (Err req) (Next req).

Definition start (req : Request) : Request :=
  setNext (Some f_planChecks) req.

(** The loop of [examineChecks] from index [i] on. *)
Fixpoint examineChecks_from (i : nat) (checks : list (option Checks))
  : FailureReason * option error :=
  match checks with
  | [] => (FRUnknown, None)
  | None :: rest => examineChecks_from (S i) rest
  | Some check :: rest =>
      let '(t, r) :=
        match i with
        | 0%nat => ("PreChecks", FRPreCheck)
        | 1%nat => ("ContChecks", FRContCheck)
        | 2%nat => ("PostChecks", FRPostCheck)
        | _ => ("", FRUnknown)
        end in
      let s := Status_ (CState check) in
      if s =? Completed then examineChecks_from (S i) rest
      else if s =? Failed then (r, Some (errorString (t +:+ " failure")))
      else (r, Some (wrapError
                       ("plan End state reached with a " +:+ t +:+ " in "
                          +:+ Status_String s +:+ " state, which is invalid: ")
                       ErrInternalFailure))
  end.

Definition examineChecks (checks : list (option Checks))
  : FailureReason * option error :=
  examineChecks_from 0 checks.

Definition planChecks (req : Request) : Request :=
  let p := plan req in
  let '(r, err) := examineChecks [PreChecks p; ContChecks p; PostChecks p] in
  match err with
  | None => setNext (Some f_blocks) req
  | Some e =>
      let p := Plan_withState (setStatus Failed) p in
      let p := Plan_withReason r p in
      setNext (Some f_end) (setErr (Some e) (setPlan p req))
  end.

(** The loop of [blocks] over the remaining blocks. *)
Fixpoint blocks_loop (bs : list Block) (req : Request) : Request :=
  match bs with
  | [] => setNext (Some f_end) req
  | block :: rest =>
      let s := Status_ (BState block) in
      if s =? Completed then blocks_loop rest req
      else if s =? Failed then
        let p := Plan_withState (setStatus Failed) (plan req) in
        let p := Plan_withReason FRBlock p in
        setErr (Some (errorString "block failure")) (setPlan p req)
      else
        let p := Plan_withState (setStatus Failed) (plan req) in
        let p := Plan_withReason FRBlock p in
        setErr (Some (wrapError
                        ("block End state reached in " +:+ Status_String s
                           +:+ " state, which is invalid: ")
                        ErrInternalFailure))
               (setPlan p req)
  end.

Definition blocks (req : Request) : Request :=
  blocks_loop (Blocks (plan req)) req.

Definition end_ (req : Request) : Request :=
  setPlan (Plan_withState (setStatus Completed) (plan req)) req.

Definition exec (st : fstate) : Request -> Request :=
  match st with
  | f_start => start
  | f_planChecks => planChecks
  | f_blocks => blocks
  | f_end => end_
  end.

(** The runner of package [statemachine], by its contract: while [Next] is
    set, it clears [Next], calls the state and stops as soon as a state
    leaves [Err] set; the outcome is the last request, whose [Err] is the
    error the runner returns. [None] when [fuel] states were not enough. *)
Fixpoint Run (fuel : nat) (req : Request) : option Request :=
  match Next req with
  | None => Some req
  | Some st =>
      match fuel with
      | O => None
      | S fuel' =>
          let req' := exec st (setNext None req) in
          match Err req' with
          | Some _ => Some req'
          | None => Run fuel' req'
          end
      end
  end.

(** Finalising a plan: the machine entered at [start]. *)
Definition finalize (p : Plan) : option Request :=
  Run 4 (mkRequest p None (Some f_start)).

End final.

(** ** Package plugins *)

Module plugins.

(** The interface [Plugin], restricted to the methods the machine calls.
    [Execute req n] is what the [n]-th invocation of any plugin of the
    process returns when it is this plugin, called with [req]. *)
Record Plugin := mkPlugin {
  PluginName : string;
  Response : any;
  Execute : any -> nat -> any * option error
}.

End plugins.

(** ** The execution machine ([States]) *)

Module sm.

(** *** Collaborators *)

(** What the machine cannot decide by itself: the registry, the outcome of
    every storage write, cancellation of the request context, the pick of a
    [select] with two ready cases, the pace of the worker pool and the
    moment a continuous check of a running supervisor fails. *)
Record Env := mkEnv {
  (** [s.registry.Plugin(name)]; [None] is the nil plugin. *)
  registry : string -> option plugins.Plugin;
  (** The error of the [n]-th storage write. *)
  storeErr : nat -> option error;
  (** Whether the request context is done the [n]-th time the retry loop
      looks at it. *)
  ctxDone : nat -> bool;
  (** [select] with both channels ready, at the [n]-th poll: [true] takes
      the first case. *)
  pick : nat -> bool;
  (** [seqSeen i j]: when the loop of [ExecuteSequences] is about to
      submit sequence [i], the submitted sequence [j] has finished and its
      failure, if any, is counted. *)
  seqSeen : nat -> nat -> bool;
  (** [trip ch = Some (t, e)]: the supervisor that publishes on channel
      [ch], unless it is cancelled before, meets its first failing tick at
      instant [t], with error [e]. *)
  trip : nat -> option (nat * error)
}.

(** *** Channels, contexts and the state of the process *)

(** A [chan error]: buffered values, capacity, closed or not. *)
Record chan := mkChan {
  buf : list (option error);
  cap : nat;
  closed : bool
}.

(** A supervisor goroutine: the context it watches and the channel it
    publishes on. *)
Record supervisor := mkSup { supCtx : nat; supCh : nat }.

(** What happened on the channels, latest first. *)
Inductive chanEvent :=
| evSend (ch : nat) (v : option error)
| evRecv (ch : nat) (v : option error)
| evClose (ch : nat).

Record Sys := mkSys {
  (** readings of [now()] so far: the clock *)
  clock : nat;
  (** storage writes so far *)
  writes : nat;
  (** plugin invocations so far *)
  calls : nat;
  (** looks at the request context so far *)
  looks : nat;
  (** polls of the result channels so far *)
  polls : nat;
  (** the channels made so far, by address *)
  chans : list chan;
  (** the cancellable contexts made so far: cancelled or not *)
  ctxs : list bool;
  (** the supervisors started so far *)
  spawned : list supervisor;
  (** the operations on channels so far, latest first *)
  chlog : list chanEvent
}.

Definition Sys0 : Sys := mkSys 0 0 0 0 0 [] [] [] [].

Definition setClock (n : nat) (s : Sys) : Sys :=
  mkSys n (writes s) (calls s) (looks s) (polls s) (chans s) (ctxs s)
        (spawned s) (chlog s).
Definition setWrites (n : nat) (s : Sys) : Sys :=
  mkSys (clock s) n (calls s) (looks s) (polls s) (chans s) (ctxs s)
        (spawned s) (chlog s).
Definition setCalls (n : nat) (s : Sys) : Sys :=
  mkSys (clock s) (writes s) n (looks s) (polls s) (chans s) (ctxs s)
        (spawned s) (chlog s).
Definition setLooks (n : nat) (s : Sys) : Sys :=
  mkSys (clock s) (writes s) (calls s) n (polls s) (chans s) (ctxs s)
        (spawned s) (chlog s).
Definition setPolls (n : nat) (s : Sys) : Sys :=
  mkSys (clock s) (writes s) (calls s) (looks s) n (chans s) (ctxs s)
        (spawned s) (chlog s).
Definition setChans (l : list chan) (s : Sys) : Sys :=
  mkSys (clock s) (writes s) (calls s) (looks s) (polls s) l (ctxs s)
        (spawned s) (chlog s).
Definition setCtxs (l : list bool) (s : Sys) : Sys :=
  mkSys (clock s) (writes s) (calls s) (looks s) (polls s) (chans s) l
        (spawned s) (chlog s).
Definition setSpawned (l : list supervisor) (s : Sys) : Sys :=
  mkSys (clock s) (writes s) (calls s) (looks s) (polls s) (chans s)
        (ctxs s) l (chlog s).
Definition logEvent (e : chanEvent) (s : Sys) : Sys :=
  mkSys (clock s) (writes s) (calls s) (looks s) (polls s) (chans s)
        (ctxs s) (spawned s) (e :: chlog s).

(** How a piece of the machine ends: normally, by a run-time panic, by
    [log.Fatalf] (the process exits), blocked for ever on a channel, or
    with the bound of a loop exhausted. *)
Inductive result (A : Type) :=
| Ok (a : A)
| Panic (msg : string)
| Fatal (msg : string)
| Blocked
| Diverge.
Arguments Ok {A} a.
Arguments Panic {A} msg.
Arguments Fatal {A} msg.
Arguments Blocked {A}.
Arguments Diverge {A}.

(** Computations over the state of the process. *)
Definition M (A : Type) : Type := Sys -> result (A * Sys).

Definition ret {A} (a : A) : M A := fun s => Ok (a, s).
Definition bind {A B} (m : M A) (k : A -> M B) : M B :=
  fun s =>
    match m s with
    | Ok (a, s') => k a s'
    | Panic msg => Panic msg
    | Fatal msg => Fatal msg
    | Blocked => Blocked
    | Diverge => Diverge
    end.
Definition panic {A} (msg : string) : M A := fun _ => Panic msg.
Definition fatal {A} (msg : string) : M A := fun _ => Fatal msg.
Definition block_forever {A} : M A := fun _ => Blocked.
Definition get : M Sys := fun s => Ok (s, s).
Definition put (s : Sys) : M unit := fun _ => Ok (tt, s).

Declare Scope sm_scope.
Delimit Scope sm_scope with sm.
Notation "'let*' p ':=' m 'in' k" := (bind m (fun p => k))
  (at level 10, p pattern, m at level 100, k at level 200,
   only parsing) : sm_scope.
Notation "m ';;;' k" := (bind m (fun _ => k))
  (at level 100, right associativity) : sm_scope.
Local Open Scope sm_scope.

(** [s.now()]. *)
Definition now : M Time :=
  fun s => Ok (clock s, setClock (S (clock s)) s).

(** *** The data passed between states *)

(** The states of the machine: the methods of [States] a request can name
    in [Next]. *)
Inductive state :=
| sStart | sPlanPreChecks | sPlanStartContChecks | sExecuteBlock
| sBlockPreChecks | sBlockStartContChecks | sExecuteSequences
| sBlockPostChecks | sBlockEnd | sPlanPostChecks.

(** The struct [block]: [block_] is the pointer to the [workflow.Block],
    that is, its position in [Plan.Blocks]; [contCancel] is the cancel
    function ([None] is the nil function, [Some c] cancels context [c]);
    [contCheckResult] is the address of the channel ([None] is the nil
    channel). *)
Record block := mkBlockH {
  block_ : nat;
  contCancel : option nat;
  contCheckResult : option nat
}.

(** The struct [Data]; [dContCancel] and [dContCheckResult] are its fields
    [contCancel] and [contCheckResult]. [Plan] is the plan behind the
    pointer. *)
Record Data := mkData {
  Plan : workflow.Plan;
  blocks : list block;
  dContCancel : option nat;
  dContCheckResult : option nat
}.

(** [statemachine.Request[Data]]. The context [Ctx] is left to [Env]. *)
Record Request := mkRequest {
  Data_ : Data;
  Err : option error;
  Next : option state
}.

Definition setNext (n : option state) (req : Request) : Request :=
  mkRequest (Data_ req) (Err req) n.
Definition setData (d : Data) (req : Request) : Request :=
  mkRequest d (Err req) (Next req).
Definition setPlan (p : workflow.Plan) (req : Request) : Request :=
  setData (mkData p (blocks (Data_ req)) (dContCancel (Data_ req))
                  (dContCheckResult (Data_ req))) req.
Definition setBlocks (l : list block) (req : Request) : Request :=
  setData (mkData (Plan (Data_ req)) l (dContCancel (Data_ req))
                  (dContCheckResult (Data_ req))) req.
Definition setDContCancel (f : option nat) (req : Request) : Request :=
  setData (mkData (Plan (Data_ req)) (blocks (Data_ req)) f
                  (dContCheckResult (Data_ req))) req.
Definition setDContCheckResult (ch : option nat) (req : Request) : Request :=
  setData (mkData (Plan (Data_ req)) (blocks (Data_ req))
                  (dContCancel (Data_ req)) ch) req.

(** An assignment through the pointer [h.block]. *)
Definition updBlock (i : nat) (f : Block -> Block) (req : Request)
  : Request :=
  let p := Plan (Data_ req) in
  setPlan (Plan_withBlocks (alter f i (Blocks p)) p) req.

(** *** Channel values *)

(** A receive that does not wait: the oldest buffered value, or the zero
    value of a closed channel; [None] when the receive would block. *)
Definition take (c : chan) : option (option error * chan) :=
  match buf c with
  | v :: rest => Some (v, mkChan rest (cap c) (closed c))
  | [] => if closed c then Some (None, c) else None
  end.

(** What a supervisor that returns does to its channel: the error of the
    failing tick, if any, is sent, and the channel is closed. *)
Definition deliver (v : option error) (c : chan) : chan :=
  mkChan (buf c ++ match v with Some e => [Some e] | None => [] end)
         (cap c) true.

Definition nilDeref : string :=
  "invalid memory address or nil pointer dereference".

Section WithEnv.

Variable env : Env.

(** A write through any of the storage writers. *)
Definition storeWrite : M (option error) :=
  fun s => Ok (storeErr env (writes s), setWrites (S (writes s)) s).

(** *** runAction *)

Definition isType (a b : any) : bool :=
  bool_decide (TypeOf a = TypeOf b).

(** The function literal [runAction] hands to the retry loop. *)
Definition attemptOp (p : plugins.Plugin) (action : Action)
  : M (option error * Action) :=
  if Z.of_nat (length (Attempts action)) >? Retries action then
    ret (Some ErrPermanent, action)
  else
    let* start := now in
    let* sys := get in
    let '(resp, err) := plugins.Execute p (Req action) (calls sys) in
    put (setCalls (S (calls sys)) sys) ;;;
    let attempt := mkAttempt resp err start 0%nat in
    let attempt :=
      match AErr attempt with
      | None =>
          let expect := plugins.Response p in
          if negb (isType (Resp attempt) expect) then
            let attempt :=
              mkAttempt None (AErr attempt) (AStart attempt)
                        (AEnd attempt) in
            mkAttempt (Resp attempt)
              (Some (wrapError
                       ("plugin(" +:+ plugins.PluginName p
                          +:+ ") returned a type " +:+ fmtT (Resp attempt)
                          +:+ " but expected " +:+ fmtT expect +:+ ": ")
                       ErrPermanent))
              (AStart attempt) (AEnd attempt)
          else attempt
      | Some _ => attempt
      end in
    let action :=
      Action_withAttempts (Attempts action ++ [attempt]) action in
    storeWrite ;;;
    ret (AErr attempt, action).

(** [Backoff.Retry] of package [exponential], by its contract: the
    operation is called again until it returns nil or an error that is
    [ErrPermanent], or the context is done. The loop has no bound of its
    own; [fuel] bounds the number of rounds. *)
Fixpoint Retry (fuel : nat) (op : Action -> M (option error * Action))
         (action : Action) : M (option error * Action) :=
  match fuel with
  | O => fun _ => Diverge
  | S fuel' =>
      let* sys := get in
      put (setLooks (S (looks sys)) sys) ;;;
      if ctxDone env (looks sys) then ret (Some ctxError, action)
      else
        let* (err, action) := op action in
        match err with
        | None => ret (None, action)
        | Some e =>
            if errors_Is ErrPermanent e then ret (Some e, action)
            else Retry fuel' op action
        end
  end.

(** Rounds after which the guard of [attemptOp] has stopped the loop. *)
Definition rounds (action : Action) : nat :=
  S (Z.to_nat (Retries action + 1 - Z.of_nat (length (Attempts action)))).

(** [runAction]. The loop runs with the bound [rounds], which is never
    exhausted; the deferred assignment of [End] and the deferred write come
    last. A plugin that is not registered is a nil interface, and the call
    of its method panics. *)
Definition runAction (action : Action) : M (option error * Action) :=
  let* start := now in
  let action := Action_withState (setStart start) action in
  let action := Action_withState (setStatus Running) action in
  storeWrite ;;;
  match registry env (Plugin action) with
  | None => panic nilDeref
  | Some p =>
      let* (err, action) := Retry (rounds action) (attemptOp p) action in
      let action :=
        match err with
        | Some _ => Action_withState (setStatus Failed) action
        | None => Action_withState (setStatus Completed) action
        end in
      let* stop := now in
      let action := Action_withState (setEnd stop) action in
      storeWrite ;;;
      ret (err, action)
  end.

(** *** runChecks *)

(** First loop of [runChecks]: every action is marked [Running] and
    written. *)
Fixpoint markRunning (actions : list Action) : M (list Action) :=
  match actions with
  | [] => ret []
  | action :: rest =>
      let action := Action_withState (setStatus Running) action in
      let* start := now in
      let action := Action_withState (setStart start) action in
      let* werr := storeWrite in
      match werr with
      | Some _ => fatal "failed to write Action"
      | None =>
          let* rest := markRunning rest in
          ret (action :: rest)
      end
  end.

(** Second loop of [runChecks] with [g.Wait]: the actions run, here one
    after the other in the order of the list; the error is the first
    non-nil one. *)
Fixpoint runAll (actions : list Action) : M (option error * list Action) :=
  match actions with
  | [] => ret (None, [])
  | action :: rest =>
      let* (err, action) := runAction action in
      let* (errs, rest) := runAll rest in
      ret (match err with Some e => Some e | None => errs end,
           action :: rest)
  end.

Definition runChecks (actions : list Action)
  : M (option error * list Action) :=
  let* actions := markRunning actions in
  runAll actions.

(** *** execSeq *)

(** The loop of [execSeq] over the actions not yet run. *)
Fixpoint execActions (actions : list Action)
  : M (option error * list Action) :=
  match actions with
  | [] => ret (None, [])
  | action :: rest =>
      let* (err, action) := runAction action in
      match err with
      | Some e => ret (Some e, action :: rest)
      | None =>
          let* (err, rest) := execActions rest in
          ret (err, action :: rest)
      end
  end.

Definition execSeq (seq : Sequence) : M (option error * Sequence) :=
  let seq := Sequence_withState (setStatus Running) seq in
  storeWrite ;;;
  let* (err, actions) := execActions (SActions seq) in
  let seq := Sequence_withActions actions seq in
  let seq :=
    match err with
    | Some _ => Sequence_withState (setStatus Failed) seq
    | None => Sequence_withState (setStatus Completed) seq
    end in
  storeWrite ;;;
  ret (err, seq).

(** *** Channels and supervisors of the process *)

(** [make(chan error, n)]. *)
Definition make (n : nat) : M nat :=
  fun s =>
    Ok (length (chans s), setChans (chans s ++ [mkChan [] n false]) s).

Definition lookupChan (s : Sys) (ch : option nat) : option (nat * chan) :=
  match ch with
  | None => None
  | Some a => (fun c => (a, c)) <$> chans s !! a
  end.

(** [ch <- v]. *)
Definition chSend (ch : option nat) (v : option error) : M unit :=
  fun s =>
    match lookupChan s ch with
    | None => Blocked
    | Some (a, c) =>
        if closed c then Panic "send on closed channel"
        else if (length (buf c) <? cap c)%nat then
          Ok (tt, logEvent (evSend a v)
                    (setChans (<[a := mkChan (buf c ++ [v]) (cap c) false]>
                                 (chans s)) s))
        else Blocked
    end.

(** [close(ch)]. *)
Definition chClose (ch : option nat) : M unit :=
  fun s =>
    match lookupChan s ch with
    | None => Panic "close of nil channel"
    | Some (a, c) =>
        if closed c then Panic "close of closed channel"
        else
          Ok (tt, logEvent (evClose a)
                    (setChans (<[a := mkChan (buf c) (cap c) true]>
                                 (chans s)) s))
    end.

Definition cancelled (s : Sys) (c : nat) : bool :=
  default false (ctxs s !! c).

(** Whether a supervisor has returned by now, and with what: [Some (Some
    e)] after a failing tick, [Some None] after its context was
    cancelled, [None] while it is still looping. *)
Definition verdict (s : Sys) (sup : supervisor) : option (option error) :=
  match trip env (supCh sup) with
  | Some (t, e) =>
      if (t <=? clock s)%nat then Some (Some e)
      else if cancelled s (supCtx sup) then Some None else None
  | None => if cancelled s (supCtx sup) then Some None else None
  end.

(** The supervisors that have returned by now have published on their
    channels. *)
Definition settle1 (s : Sys) (sup : supervisor) : Sys :=
  match chans s !! supCh sup with
  | Some c =>
      if closed c then s
      else
        match verdict s sup with
        | Some v =>
            let s := setChans (<[supCh sup := deliver v c]> (chans s)) s in
            let s := match v with
                     | Some e => logEvent (evSend (supCh sup) (Some e)) s
                     | None => s
                     end in
            logEvent (evClose (supCh sup)) s
        | None => s
        end
  | None => s
  end.

Definition settle (s : Sys) : Sys := fold_left settle1 (spawned s) s.

(** [ctx, cancel := context.WithCancel(...)]: the new context. *)
Definition WithCancel : M nat :=
  fun s => Ok (length (ctxs s), setCtxs (ctxs s ++ [false]) s).

(** A call of a [context.CancelFunc]. *)
Definition callCancel (f : option nat) : M unit :=
  match f with
  | None => panic nilDeref
  | Some c =>
      fun s =>
        let s := settle s in
        Ok (tt, setCtxs (<[c := true]> (ctxs s)) s)
  end.

(** [go func() { s.runContChecks(ctx, checks, ch, writer) }()]. *)
Definition goSupervise (c : nat) (ch : option nat) : M unit :=
  fun s =>
    match ch with
    | Some a => Ok (tt, setSpawned (spawned s ++ [mkSup c a]) s)
    | None => Ok (tt, s)
    end.

Definition recvNow (ch : option nat) (s : Sys)
  : option (option error * Sys) :=
  match lookupChan s ch with
  | None => None
  | Some (a, c) =>
      match take c with
      | Some (v, c') =>
          Some (v, logEvent (evRecv a v)
                     (setChans (<[a := c']> (chans s)) s))
      | None => None
      end
  end.

(** [<-ch]: the receive waits for a value or for the close; a channel
    whose supervisor is still looping yields the error of its first
    failing tick, when there is one. *)
Definition chRecv (ch : option nat) : M (option error) :=
  fun s =>
    let s := settle s in
    match recvNow ch s with
    | Some r => Ok r
    | None =>
        match lookupChan s ch with
        | Some (a, _) =>
            if bool_decide (a ∈ supCh <$> spawned s) then
              match trip env a with
              | Some (t, _) =>
                  match recvNow ch (settle (setClock (max t (clock s)) s))
                  with
                  | Some r => Ok r
                  | None => Blocked
                  end
              | None => Blocked
              end
            else Blocked
        | None => Blocked
        end
    end.

Definition isReady (s : Sys) (ch : option nat) : bool :=
  match lookupChan s ch with
  | Some (_, c) => bool_decide (is_Some (take c))
  | None => false
  end.

(** One case of a [select] that is ready. *)
Definition selected (ot : ObjectType) (ch : option nat)
  : M (ObjectType * option error) :=
  fun s =>
    match recvNow ch s with
    | Some (v, s') => Ok ((ot, v), s')
    | None => Ok ((OTUnknown, None), s)
    end.

(** [Data.contChecks]. *)
Definition contChecks (d : Data) : M (ObjectType * option error) :=
  fun s =>
    let s := settle s in
    let n := polls s in
    let s := setPolls (S n) s in
    match blocks d with
    | [] =>
        if isReady s (dContCheckResult d)
        then selected OTPlan (dContCheckResult d) s
        else Ok ((OTUnknown, None), s)
    | h :: _ =>
        let rp := isReady s (dContCheckResult d) in
        let rb := isReady s (contCheckResult h) in
        if rp && rb then
          if pick env n then selected OTPlan (dContCheckResult d) s
          else selected OTBlock (contCheckResult h) s
        else if rp then selected OTPlan (dContCheckResult d) s
        else if rb then selected OTBlock (contCheckResult h) s
        else Ok ((OTUnknown, None), s)
    end.

(** *** runPreChecks *)

(** The two groups run here one after the other; the error of [g.Wait]
    is the first non-nil one. The checks come back as the runs left
    them. *)
Definition runPreChecks (preChecks contChecks : option Checks)
  : M (bool * option error * option Checks * option Checks) :=
  match preChecks, contChecks with
  | None, None => ret (false, None, None, None)
  | _, _ =>
      let* (preErr, preChecks) :=
        match preChecks with
        | Some pc =>
            let* (err, actions) := runChecks (Actions pc) in
            ret (err, Some (Checks_withActions actions pc))
        | None => ret (None, None)
        end in
      let preCheckFail := bool_decide (is_Some preErr) in
      let* (contErr, contChecks) :=
        match contChecks with
        | Some cc =>
            let* (err, actions) := runChecks (Actions cc) in
            ret (err, Some (Checks_withActions actions cc))
        | None => ret (None, None)
        end in
      match (match preErr with Some e => Some e | None => contErr end) with
      | Some e =>
          if preCheckFail then ret (true, Some e, preChecks, contChecks)
          else ret (false, Some e, preChecks, contChecks)
      | None => ret (false, None, preChecks, contChecks)
      end
  end.

(** *** runContChecks *)

Definition resetActions (actions : list Action) : list Action :=
  map (fun action =>
         let action :=
           Action_withState (fun _ => mkState NotStarted 0%nat 0%nat)
                            action in
         Action_withAttempts [] action)
      actions.

(** The loop of [runContChecks], [fuel] rounds of it at most. At round
    [n] the [select] takes the case [<-ctx.Done()] when [done n] holds
    and the case of the timer otherwise. *)
Fixpoint contLoop (fuel : nat) (done : nat -> bool) (n : nat)
         (checks : Checks) (resultCh : option nat) : M Checks :=
  match fuel with
  | O => fun _ => Diverge
  | S fuel' =>
      if done n then ret checks
      else
        let checks :=
          Checks_withActions (resetActions (Actions checks)) checks in
        let* werr := storeWrite in
        match werr with
        | Some _ => fatal "failed to write ContChecks"
        | None =>
            let* (err, actions) := runChecks (Actions checks) in
            let checks := Checks_withActions actions checks in
            match err with
            | Some e =>
                chSend resultCh (Some e) ;;;
                ret checks
            | None =>
                let* werr := storeWrite in
                match werr with
                | Some _ => fatal "failed to write ContChecks"
                | None => contLoop fuel' done (S n) checks resultCh
                end
            end
        end
  end.

(** [runContChecks]; the deferred [close(resultCh)] runs when the loop
    returns. *)
Definition runContChecks (fuel : nat) (done : nat -> bool)
           (checks : Checks) (resultCh : option nat) : M Checks :=
  let* checks := contLoop fuel done 0 checks resultCh in
  chClose resultCh ;;;
  ret checks.

(** *** The states *)

(** [h := req.Data.blocks[0]] and the block behind [h.block]. *)
Definition head (req : Request) : M (block * Block) :=
  match blocks (Data_ req) with
  | [] => panic "index out of range [0] with length 0"
  | h :: _ =>
      match Blocks (Plan (Data_ req)) !! block_ h with
      | Some b => ret (h, b)
      | None => panic nilDeref
      end
  end.

(** The loop of [Start]: one handle per block, each with a channel of
    its own and no cancel function. *)
Fixpoint makeHandles (i : nat) (bs : list Block) (acc : list block)
  : M (list block) :=
  match bs with
  | [] => ret acc
  | _ :: rest =>
      let* ch := make 1 in
      makeHandles (S i) rest (acc ++ [mkBlockH i None (Some ch)])
  end.

Definition Start (req : Request) : M Request :=
  let* hs := makeHandles 0 (Blocks (Plan (Data_ req)))
                         (blocks (Data_ req)) in
  let req := setBlocks hs req in
  let* ch := make 1 in
  let req := setDContCheckResult (Some ch) req in
  let p := Plan_withState (setStatus Started) (Plan (Data_ req)) in
  let* t := now in
  let p := Plan_withState (setStart t) p in
  let req := setPlan p req in
  let* werr := storeWrite in
  match werr with
  | Some _ => fatal "failed to write Plan"
  | None => ret (setNext (Some sPlanPreChecks) req)
  end.

(** [PlanPreChecks]: on an error the request comes back with no next
    state. *)
Definition PlanPreChecks (req : Request) : M Request :=
  let p := Plan (Data_ req) in
  let* (_, err, pre, cont) := runPreChecks (PreChecks p) (ContChecks p) in
  let req := setPlan (Plan_withContChecks cont (Plan_withPreChecks pre p))
                     req in
  match err with
  | Some _ => ret req
  | None => ret (setNext (Some sPlanStartContChecks) req)
  end.

(** [PlanStartContChecks]: the cancel function goes into the request that
    is returned. *)
Definition PlanStartContChecks (req : Request) : M Request :=
  match ContChecks (Plan (Data_ req)) with
  | Some _ =>
      let* ctx := WithCancel in
      let req := setDContCancel (Some ctx) req in
      goSupervise ctx (dContCheckResult (Data_ req)) ;;;
      ret (setNext (Some sExecuteBlock) req)
  | None => ret (setNext (Some sExecuteBlock) req)
  end.

Definition ExecuteBlock (req : Request) : M Request :=
  match blocks (Data_ req) with
  | [] => ret (setNext (Some sPlanPostChecks) req)
  | _ :: _ =>
      let* (h, _) := head req in
      let req :=
        updBlock (block_ h) (Block_withState (setStatus Running)) req in
      let* werr := storeWrite in
      match werr with
      | Some _ => ret req
      | None => ret (setNext (Some sBlockPreChecks) req)
      end
  end.

Definition BlockPreChecks (req : Request) : M Request :=
  let* (h, b) := head req in
  match BContChecks b with
  | Some _ =>
      let* (_, err, pre, cont) :=
        runPreChecks (BPreChecks b) (BContChecks b) in
      let req :=
        updBlock (block_ h)
                 (fun b => Block_withContChecks
                             cont (Block_withPreChecks pre b)) req in
      match err with
      | Some _ =>
          ret (updBlock (block_ h) (Block_withState (setStatus Failed))
                        req)
      | None => ret (setNext (Some sBlockStartContChecks) req)
      end
  | None => ret (setNext (Some sBlockStartContChecks) req)
  end.

(** The cancel function is assigned to [h], the copy of
    [req.Data.blocks[0]] the state works on; the slice keeps the handle
    it had. *)
Definition BlockStartContChecks (req : Request) : M Request :=
  let* (h, b) := head req in
  match BContChecks b with
  | Some _ =>
      let* ctx := WithCancel in
      let h := mkBlockH (block_ h) (Some ctx) (contCheckResult h) in
      goSupervise ctx (contCheckResult h) ;;;
      ret (setNext (Some sExecuteSequences) req)
  | None => ret (setNext (Some sExecuteSequences) req)
  end.

(** The value of [failures] the loop reads before submission [i]:
    the failed sequences among those the pool has finished by then. *)
Fixpoint seenFailures (i j : nat) (fails : list bool) : Z :=
  match fails with
  | [] => 0
  | f :: rest =>
      (if f && seqSeen env i j then 1 else 0) + seenFailures i (S j) rest
  end.

(** The loop of [ExecuteSequences] from sequence [i] on; [fails] tells
    which of the sequences submitted so far fail. A submitted sequence
    is run by the pool before [pool.Close] returns. *)
Fixpoint submitLoop (bi : nat) (i : nat) (todo : list Sequence)
         (fails : list bool) (req : Request) : M Request :=
  match todo with
  | [] => ret (setNext (Some sBlockPostChecks) req)
  | seq :: rest =>
      let* (_, b) := head req in
      let failures := seenFailures i 0 fails in
      if (ToleratedFailures b >=? 0) && (failures >? ToleratedFailures b)
      then
        ret (updBlock bi (Block_withState (setStatus Failed)) req)
      else
        let* (_, cerr) := contChecks (Data_ req) in
        match cerr with
        | Some _ =>
            ret (updBlock bi (Block_withState (setStatus Failed)) req)
        | None =>
            let* (err, seq) := execSeq seq in
            let req :=
              updBlock bi (fun b => Block_withSequences
                                      (<[i := seq]> (Sequences b)) b)
                       req in
            submitLoop bi (S i) rest
                       (fails ++ [bool_decide (is_Some err)]) req
        end
  end.

(** [ExecuteSequences]; [pooled.New] refuses a size below 1. *)
Definition ExecuteSequences (req : Request) : M Request :=
  let* (h, b) := head req in
  if Concurrency b <? 1 then panic "bug: failed to create pool"
  else submitLoop (block_ h) 0 (Sequences b) [] req.

(** [BlockPostChecks]: [h.block.PostChecks.Actions] is evaluated with no
    test of [PostChecks]. *)
Definition BlockPostChecks (req : Request) : M Request :=
  let* (h, b) := head req in
  let* stop :=
    match BContChecks b with
    | Some _ =>
        callCancel (contCancel h) ;;;
        let* err := chRecv (contCheckResult h) in
        ret (bool_decide (is_Some err))
    | None => ret false
    end in
  if (stop : bool) then
    ret (updBlock (block_ h) (Block_withState (setStatus Failed)) req)
  else
    match BPostChecks b with
    | None => panic nilDeref
    | Some pc =>
        let* (err, actions) := runChecks (Actions pc) in
        let req :=
          updBlock (block_ h)
                   (Block_withPostChecks
                      (Some (Checks_withActions actions pc))) req in
        match err with
        | Some _ =>
            ret (updBlock (block_ h) (Block_withState (setStatus Failed))
                          req)
        | None => ret (setNext (Some sBlockEnd) req)
        end
    end.

(** [BlockEnd]: the cancel function and the channel are those of the handle
    in the slice. *)
Definition BlockEnd (req : Request) : M Request :=
  let* (h, _) := head req in
  callCancel (contCancel h) ;;;
  let* err := chRecv (contCheckResult h) in
  let req :=
    match err with
    | None =>
        updBlock (block_ h) (Block_withState (setStatus Completed)) req
    | Some _ =>
        updBlock (block_ h) (Block_withState (setStatus Failed)) req
    end in
  let* werr := storeWrite in
  match werr with
  | Some _ => ret req
  | None =>
      let req := setBlocks (tail (blocks (Data_ req))) req in
      ret (setNext (Some sExecuteBlock) req)
  end.

(** [PlanPostChecks]: every path returns the request with no next state. *)
Definition PlanPostChecks (req : Request) : M Request :=
  let* stop :=
    match ContChecks (Plan (Data_ req)) with
    | Some _ =>
        callCancel (dContCancel (Data_ req)) ;;;
        let* err := chRecv (dContCheckResult (Data_ req)) in
        ret (bool_decide (is_Some err))
    | None => ret false
    end in
  if (stop : bool) then ret req
  else
    match PostChecks (Plan (Data_ req)) with
    | None => panic nilDeref
    | Some pc =>
        let* (_, actions) := runChecks (Actions pc) in
        ret (setPlan (Plan_withPostChecks
                        (Some (Checks_withActions actions pc))
                        (Plan (Data_ req))) req)
    end.

Definition exec (st : state) : Request -> M Request :=
  match st with
  | sStart => Start
  | sPlanPreChecks => PlanPreChecks
  | sPlanStartContChecks => PlanStartContChecks
  | sExecuteBlock => ExecuteBlock
  | sBlockPreChecks => BlockPreChecks
  | sBlockStartContChecks => BlockStartContChecks
  | sExecuteSequences => ExecuteSequences
  | sBlockPostChecks => BlockPostChecks
  | sBlockEnd => BlockEnd
  | sPlanPostChecks => PlanPostChecks
  end.

(** The runner of package [statemachine], by its contract (see
    [final.Run]), for at most [fuel] states. *)
Fixpoint Run (fuel : nat) (req : Request) : M Request :=
  match Next req with
  | None => ret req
  | Some st =>
      match fuel with
      | O => fun _ => Diverge
      | S fuel' =>
          let* req := exec st (setNext None req) in
          match Err req with
          | Some _ => ret req
          | None => Run fuel' req
          end
      end
  end.

End WithEnv.

End sm.

(** * Properties of the finalisation machine *)

Module final_spec.
Import final.

(** A check that is present and not [Completed]: its status. *)
Definition badCheck (c : option Checks) : option Status :=
  match c with
  | Some check =>
      if Status_ (CState check) =? Completed then None
      else Some (Status_ (CState check))
  | None => None
  end.

(** The first of [PreChecks], [ContChecks], [PostChecks] that is present
    and not [Completed]: the failure reason and the name that go with its
    place, and its status. *)
Definition firstBadCheck (p : Plan)
  : option (FailureReason * string * Status) :=
  match badCheck (PreChecks p) with
  | Some s => Some (FRPreCheck, "PreChecks", s)
  | None =>
      match badCheck (ContChecks p) with
      | Some s => Some (FRContCheck, "ContChecks", s)
      | None =>
          match badCheck (PostChecks p) with
          | Some s => Some (FRPostCheck, "PostChecks", s)
          | None => None
          end
      end
  end.

(** The status of the first block that is not [Completed]. *)
Fixpoint firstBadBlock (bs : list Block) : option Status :=
  match bs with
  | [] => None
  | b :: rest =>
      if Status_ (BState b) =? Completed then firstBadBlock rest
      else Some (Status_ (BState b))
  end.

Definition checkErr (t : string) (s : Status) : error :=
  if s =? Failed then errorString (t +:+ " failure")
  else wrapError ("plan End state reached with a " +:+ t +:+ " in "
                    +:+ Status_String s +:+ " state, which is invalid: ")
                 ErrInternalFailure.

Definition blockErr (s : Status) : error :=
  if s =? Failed then errorString "block failure"
  else wrapError ("block End state reached in " +:+ Status_String s
                    +:+ " state, which is invalid: ")
                 ErrInternalFailure.

Definition failWith (r : FailureReason) (p : Plan) : Plan :=
  Plan_withReason r (Plan_withState (setStatus Failed) p).

(** What finalising a plan comes to. *)
Definition outcome (p : Plan) : Request :=
  match firstBadCheck p with
  | Some (r, t, s) => mkRequest (failWith r p) (Some (checkErr t s))
                                (Some f_end)
  | None =>
      match firstBadBlock (Blocks p) with
      | Some s => mkRequest (failWith FRBlock p) (Some (blockErr s)) None
      | None =>
          mkRequest (Plan_withState (setStatus Completed) p) None None
      end
  end.

(** A plan one of whose blocks failed in the normal way. *)
Definition failedBlockPlan : Plan :=
  mkPlan "plan" None None None
         [mkBlock "block" None None None [] 1 0
                  (mkState Failed 0%nat 0%nat)]
         (mkState Running 0%nat 0%nat) FRUnknown.

(** A plan whose pre-checks failed in the normal way. *)
Definition failedCheckPlan : Plan :=
  mkPlan "plan" (Some (mkChecks [] 0 0 (mkState Failed 0%nat 0%nat)))
         None None
         [mkBlock "block" None None None [] 1 0
                  (mkState NotStarted 0%nat 0%nat)]
         (mkState Running 0%nat 0%nat) FRUnknown.

(** A plan that completed. *)
Definition completedPlan : Plan :=
  mkPlan "plan" (Some (mkChecks [] 0 0 (mkState Completed 0%nat 0%nat)))
         None None
         [mkBlock "block" None None None [] 1 0
                  (mkState Completed 0%nat 0%nat)]
         (mkState Running 0%nat 0%nat) FRUnknown.

End final_spec.

(** * Notions used to state the properties of the execution machine *)

Module sm_spec.
Import sm.

(** The attempt [attemptOp] records for what the plugin returned: the
    response is checked against the prototype of the plugin. *)
Definition attemptOf (p : plugins.Plugin) (start : Time)
  (r : any * option error) : Attempt :=
  match snd r with
  | None =>
      if isType (fst r) (plugins.Response p)
      then mkAttempt (fst r) None start 0%nat
      else mkAttempt None
             (Some (wrapError
                      ("plugin(" +:+ plugins.PluginName p
                         +:+ ") returned a type <nil> but expected "
                         +:+ fmtT (plugins.Response p) +:+ ": ")
                      ErrPermanent)) start 0%nat
  | Some e => mkAttempt (fst r) (Some e) start 0%nat
  end.

(** The invariant of the attempts of an action. *)
Definition withinBudget (a : Action) : Prop :=
  Z.of_nat (length (Attempts a)) <= Retries a + 1.

(** One call of the function literal of [runAction] takes the action from
    [a] to [a']; the retry loop goes through the actions [rtc (opStep env p)]
    reaches. *)
Definition opStep (env : Env) (p : plugins.Plugin) (a a' : Action) : Prop :=
  exists s e s', attemptOp env p a s = Ok ((e, a'), s').

(** Two states of the process with the same channels, contexts and
    supervisors. *)
Definition sameShared (s s' : Sys) : Prop :=
  chans s' = chans s /\ ctxs s' = ctxs s /\ spawned s' = spawned s /\
  chlog s' = chlog s /\ polls s' = polls s.

(** A piece of the machine that neither blocks nor exhausts a loop, and
    whose result, when it returns, satisfies [P]. *)
Definition unstuck {A : Type} (r : result A) (P : A -> Prop) : Prop :=
  match r with
  | Ok a => P a
  | Panic _ | Fatal _ => True
  | Blocked | Diverge => False
  end.

(** The actions of a list, pairwise the same but for attempts and state. *)
Definition sameActions (l l' : list Action) : Prop :=
  Forall2 (fun a a' => Retries a' = Retries a /\ Plugin a' = Plugin a /\
                       Req a' = Req a /\ AName a' = AName a) l l'.

(** The channels, contexts and supervisors are the same and no plugin
    invocation is forgotten. *)
Definition framed (s : Sys) (s' : Sys) : Prop :=
  sameShared s s' /\ (calls s <= calls s')%nat.

(** How many times a log closes channel [a], and publishes on it. *)
Fixpoint closes (a : nat) (log : list chanEvent) : nat :=
  match log with
  | [] => 0
  | evClose b :: rest => (if Nat.eqb a b then 1 else 0) + closes a rest
  | _ :: rest => closes a rest
  end.

Fixpoint publishes (a : nat) (log : list chanEvent) : nat :=
  match log with
  | [] => 0
  | evSend b _ :: rest => (if Nat.eqb a b then 1 else 0) + publishes a rest
  | _ :: rest => publishes a rest
  end.

(** The events of a supervisor that returns with [v], latest first. *)
Definition published (a : nat) (v : option error) : list chanEvent :=
  evClose a :: match v with Some e => [evSend a (Some e)] | None => [] end.

(** The state of the process after the send of [v] on channel [a], whose
    value was [c]. *)
Definition afterSend (a : nat) (c : chan) (v : option error) (s : Sys) : Sys :=
  logEvent (evSend a v)
     (setChans (<[a := mkChan (buf c ++ [v]) (cap c) false]> (chans s)) s).

Definition afterClose (a : nat) (c : chan) (s : Sys) : Sys :=
  logEvent (evClose a)
           (setChans (<[a := mkChan (buf c) (cap c) true]> (chans s)) s).

(** The values the examples run on. An environment without storage errors,
    cancellation or failing supervisors, around a registry. *)
Definition quietEnv (reg : string -> option plugins.Plugin) : Env :=
  mkEnv reg (fun _ => None) (fun _ => false) (fun _ => true)
        (fun _ _ => true) (fun _ => None).

Definition only (p : plugins.Plugin) (name : string)
  : option plugins.Plugin :=
  if String.eqb name (plugins.PluginName p) then Some p else None.

(** A plugin that declares responses of type [plugins.Resp] and returns a
    value of type [plugins.Other], with a nil error. *)
Definition otherPlugin : plugins.Plugin :=
  plugins.mkPlugin "hello" (Some (Dyn "plugins.Resp" ""))
    (fun _ _ => (Some (Dyn "plugins.Other" "junk"), None)).

Definition otherEnv : Env := quietEnv (only otherPlugin).

Definition helloAction (retries : Z) : Action :=
  mkAction "action" "hello" 30 retries None [] zeroState.

(** The plugin of the tests of the package: it fails when the request says
    ["error"] and answers with its declared type otherwise. *)
Definition testPlugin : plugins.Plugin :=
  plugins.mkPlugin "test" (Some (Dyn "plugins.Resp" ""))
    (fun req _ =>
       match req with
       | Some (Dyn _ "error") => (None, Some (errorString "error"))
       | _ => (Some (Dyn "plugins.Resp" "ok"), None)
       end).

Definition testEnv : Env := quietEnv (only testPlugin).

Definition testAction (arg : string) (retries : Z) : Action :=
  mkAction "action" "test" 10 retries (Some (Dyn "plugins.Req" arg)) []
           zeroState.

Definition testChecks (arg : string) : Checks :=
  mkChecks [testAction arg 0] 0 0 zeroState.

(** A process with one channel, as [make(chan error, 1)] leaves it. *)
Definition oneChannel : Sys := setChans [mkChan [] 1 false] Sys0.

(** The status of the block behind the pointer [i]. *)
Definition blockStatus (i : nat) (req : Request) : option Status :=
  (fun b => Status_ (BState b)) <$> Blocks (Plan (Data_ req)) !! i.

Definition sequenceStatuses (i : nat) (req : Request) : list Status :=
  match Blocks (Plan (Data_ req)) !! i with
  | Some b => (fun q => Status_ (SState q)) <$> Sequences b
  | None => []
  end.

Definition planOf (bs : list Block) : workflow.Plan :=
  mkPlan "plan" None None None bs (mkState Started 0%nat 0%nat) FRUnknown.

(** A request on one block, with the handle as a test of the package builds
    it: a cancel function and a result channel, or neither. *)
Definition requestOn (p : workflow.Plan) (h : block) : Request :=
  mkRequest (mkData p [h] None None) None None.

(** A process with one context and one channel, closed with no value or
    holding [v]. *)
Definition closedChannel (v : option error) : Sys :=
  setCtxs [false]
    (setChans [mkChan match v with Some e => [Some e] | None => [] end 1 true]
              Sys0).

(** A running block with pre-checks and no continuous checks. *)
Definition preCheckedBlock : Block :=
  mkBlock "block" (Some (testChecks "ok")) None None [] 1 0
          (mkState Running 0%nat 0%nat).

Definition testSequence (arg : string) : Sequence :=
  mkSequence "seq" [testAction arg 0] zeroState.

(** The block of the test "Exceed tolerated failures by after success 1":
    one tolerated failure, concurrency 1, sequences fail, succeed, fail. *)
Definition toleratedBlock : Block :=
  mkBlock "block" None None None
          [testSequence "error"; testSequence "success";
           testSequence "error"]
          1 1 (mkState Running 0%nat 0%nat).

(** A running block, and a plan, with continuous checks and no
    post-checks. *)
Definition contCheckedBlock : Block :=
  mkBlock "block" None None (Some (testChecks "ok")) [] 1 0
          (mkState Running 0%nat 0%nat).

Definition contCheckedPlan : workflow.Plan :=
  mkPlan "plan" None (Some (testChecks "ok")) None []
         (mkState Started 0%nat 0%nat) FRUnknown.

Definition planRequest (p : workflow.Plan) : Request :=
  mkRequest (mkData p [] (Some 0%nat) (Some 0%nat)) None None.

(** *** The runs of the machine *)

(** The request the machine is entered with. *)
Definition startRequest (p : workflow.Plan) : Request :=
  mkRequest (mkData p [] None None) None (Some sStart).

(** The runner takes the machine from one request to the next while [Err]
    is nil and [Next] names a state. *)
Inductive reaches (env : Env) : Request * Sys -> Request * Sys -> Prop :=
| reaches_here (x : Request * Sys) : reaches env x x
| reaches_step (req : Request) (s : Sys) (st : state) (req1 : Request)
               (s1 : Sys) (x : Request * Sys) :
    Err req = None ->
    Next req = Some st ->
    exec env st (setNext None req) s = Ok (req1, s1) ->
    reaches env (req1, s1) x ->
    reaches env (req, s) x.

(** The first [n] states of a run. *)
Fixpoint steps (env : Env) (n : nat) (req : Request) : M Request :=
  match n with
  | O => ret req
  | S n' =>
      match Err req, Next req with
      | None, Some st =>
          bind (exec env st (setNext None req)) (steps env n')
      | _, _ => ret req
      end
  end.

(** The handles [Start] makes for [n] blocks when [L] channels exist. *)
Definition handles (L n : nat) : list block :=
  (fun i => mkBlockH i None (Some (L + i)%nat)) <$> seq 0 n.

(** A channel as [make(chan error, 1)] left it, on which no supervisor
    publishes. *)
Definition idle (a : nat) (s : Sys) : Prop :=
  chans s !! a = Some (mkChan [] 1 false) /\ a ∉ supCh <$> spawned s.

(** What holds of the handles from [Start] on: they are the handles [Start]
    made, none has a cancel function, and the channel of a block without
    continuous checks is idle. *)
Definition handlesKept (req : Request) (s : Sys) : Prop :=
  exists L,
    blocks (Data_ req) =
      handles L (length (Blocks (Plan (Data_ req)))) /\
    dContCheckResult (Data_ req) =
      Some (L + length (Blocks (Plan (Data_ req))))%nat /\
    forall i b,
      Blocks (Plan (Data_ req)) !! i = Some b ->
      BContChecks b = None -> idle (L + i) s.

(** A plan of one block with post-checks and no continuous checks. *)
Definition plainPlan : workflow.Plan :=
  planOf [mkBlock "block" None (Some (testChecks "ok")) None
                  [testSequence "ok"] 1 0 zeroState].

(** [keeps s s']: every idle channel of [s] is idle in [s']. *)
Definition keeps (s s' : Sys) : Prop := forall a, idle a s -> idle a s'.

(** [sameHandles req r]: the handles, the channel of the plan and the
    blocks without continuous checks are those of [req]. *)
Definition sameHandles (req r : Request) : Prop :=
  blocks (Data_ r) = blocks (Data_ req) /\
  dContCheckResult (Data_ r) = dContCheckResult (Data_ req) /\
  length (Blocks (Plan (Data_ r))) = length (Blocks (Plan (Data_ req))) /\
  forall i b',
    Blocks (Plan (Data_ r)) !! i = Some b' -> BContChecks b' = None ->
    exists b, Blocks (Plan (Data_ req)) !! i = Some b /\ BContChecks b = None.

(** [whenOk r P]: the result of [r], when it returns, satisfies [P]. *)
Definition whenOk {A : Type} (r : result A) (P : A -> Prop) : Prop :=
  forall a, r = Ok a -> P a.

(** What a state other than [Start] keeps. *)
Definition stateKeeps (req : Request) (s : Sys) (x : Request * Sys) : Prop :=
  handlesKept (fst x) (snd x) /\ Next (fst x) <> Some sStart.

(** From the entry of the machine on: before [Start] there are no handles
    and no supervisors; after it the handles are kept. *)
Definition onTrack (x : Request * Sys) : Prop :=
  (Next (fst x) = Some sStart /\ blocks (Data_ (fst x)) = [] /\
   spawned (snd x) = []) \/
  (Next (fst x) <> Some sStart /\ handlesKept (fst x) (snd x)).

(** Where the run of [plainPlan] stands after eight states: about to enter
    [BlockEnd]. *)
Definition atBlockEnd : Request * Sys :=
  Eval vm_compute in
    match steps testEnv 8 (startRequest plainPlan) Sys0 with
    | Ok x => x
    | _ => (startRequest plainPlan, Sys0)
    end.

End sm_spec.

(** * Notions used to state further properties *)

Module more_spec.
Import sm sm_spec.

(** An action in a terminal status. *)
Definition terminal (a : Action) : Prop :=
  Status_ (AState a) = Completed \/ Status_ (AState a) = Failed.

Definition completed (a : Action) : Prop := Status_ (AState a) = Completed.

(** [a'] is [a] but for its state. *)
Definition sameButState (a a' : Action) : Prop :=
  Retries a' = Retries a /\ Plugin a' = Plugin a /\ Req a' = Req a /\
  AName a' = AName a /\ Attempts a' = Attempts a.

(** [a'] is what a run of [a] left: the same action, in a terminal status,
    within its budget if [a] was. *)
Definition ranFrom (a a' : Action) : Prop :=
  Retries a' = Retries a /\ Plugin a' = Plugin a /\ Req a' = Req a /\
  AName a' = AName a /\ terminal a' /\
  (withinBudget a -> withinBudget a').

(** The actions of a check set that is present are all [Completed]. *)
Definition allCompleted (c : option Checks) : Prop :=
  forall k, c = Some k -> Forall completed (Actions k).

(** A plugin whose error is permanent. *)
Definition stubbornPlugin : plugins.Plugin :=
  plugins.mkPlugin "stubborn" None
    (fun _ _ => (None, Some (wrapError "no way: " ErrPermanent))).

Definition stubbornEnv : Env := quietEnv (only stubbornPlugin).

Definition stubbornAction (retries : Z) : Action :=
  mkAction "action" "stubborn" 30 retries None [] zeroState.

(** An action whose plugin is not registered. *)
Definition strayAction : Action :=
  mkAction "action" "stray" 30 0 None [] zeroState.

(** An environment whose third storage write fails. *)
Definition thirdWriteFails : Env :=
  mkEnv (only testPlugin)
        (fun n => if Nat.eqb n 2 then Some (errorString "disk") else None)
        (fun _ => false) (fun _ => true) (fun _ _ => true) (fun _ => None).

(** No continuous check can be heard of: the channel of the plan and the
    channel of the current block, where there is one, are as [make] left
    them and no supervisor publishes on them. *)
Definition quiet (d : Data) (s : Sys) : Prop :=
  (forall a, dContCheckResult d = Some a -> idle a s) /\
  (forall h hs a, blocks d = h :: hs -> contCheckResult h = Some a ->
                  idle a s).

(** A sequence that was run to its end. *)
Definition ended (q : Sequence) : Prop :=
  Status_ (SState q) = Completed \/ Status_ (SState q) = Failed.

(** A block whose sequences may all fail. *)
Definition unlimitedBlock : Block :=
  mkBlock "block" None None None
          [testSequence "error"; testSequence "error"; testSequence "ok"]
          1 (-1) (mkState Running 0%nat 0%nat).

End more_spec.

(** * The transitions of the execution machine *)

Module table_spec.
Import sm sm_spec.

(** [onReturn r P]: when [r] is a return, the result satisfies [P]. *)
Definition onReturn {A : Type} (r : result A) (P : A -> Prop) : Prop :=
  match r with
  | Ok a => P a
  | _ => True
  end.

(** The states a state of [States] can name in [Next]. *)
Definition successors (st : state) : list state :=
  match st with
  | sStart => [sPlanPreChecks]
  | sPlanPreChecks => [sPlanStartContChecks]
  | sPlanStartContChecks => [sExecuteBlock]
  | sExecuteBlock => [sPlanPostChecks; sBlockPreChecks]
  | sBlockPreChecks => [sBlockStartContChecks]
  | sBlockStartContChecks => [sExecuteSequences]
  | sExecuteSequences => [sBlockPostChecks]
  | sBlockPostChecks => [sBlockEnd]
  | sBlockEnd => [sExecuteBlock]
  | sPlanPostChecks => []
  end.

(** What a state makes of the request [req] it is entered with: [Err] is
    as it was, [Next] is as it was or names one of [targets], and the plan
    keeps its name and the number of its blocks. *)
Definition moved (targets : list state) (req r : Request) : Prop :=
  Err r = Err req /\
  (Next r = Next req \/ exists n, Next r = Some n /\ n ∈ targets) /\
  Name (Plan (Data_ r)) = Name (Plan (Data_ req)) /\
  length (Blocks (Plan (Data_ r))) = length (Blocks (Plan (Data_ req))).

(** A plan without blocks, with continuous checks and post-checks. *)
Definition watchedPlan : workflow.Plan :=
  mkPlan "plan" None (Some (testChecks "ok")) (Some (testChecks "ok")) []
         zeroState FRUnknown.

(** Where the run of [watchedPlan] stands after four states: about to
    enter [PlanPostChecks]. *)
Definition atPlanPostChecks : Request * Sys :=
  Eval vm_compute in
    match steps testEnv 4 (startRequest watchedPlan) Sys0 with
    | Ok x => x
    | _ => (startRequest watchedPlan, Sys0)
    end.

End table_spec.

(** * Package workflow: validation of a submitted plan

    The tree as a user hands it to [Validate]: every object is behind a
    pointer that may be nil, [Internal] is a pointer that must still be
    nil, and the descriptions are present. *)

Module validation.

(** [time.Second], in nanoseconds. *)
Definition Second : Z := 1000000000.

(** What validation asks of a plugin: [ValidateReq]. *)
Definition Plugin_ := any -> option error.

(** A registry: [None] is the nil plugin. *)
Definition registry := string -> option Plugin_.

Record Action := mkAction {
  AName : string;
  ADescr : string;
  Plugin : string;
  Timeout : Z;
  Retries : Z;
  Req : any;
  (** [None] is the nil slice. *)
  Attempts : option (list workflow.Attempt);
  AInternal : option workflow.State;
  (** The unexported [register]: [None] is the nil interface. *)
  register : option registry
}.

(** [PreChecks], [PostChecks] and [ContChecks]: three structs with the same
    fields, but for the [Delay] of [ContChecks]. *)
Record Checks := mkChecks {
  Actions : list (option Action);
  CTimeout : Z;
  Delay : Z;
  CInternal : option workflow.State
}.

Record Sequence := mkSequence {
  SName : string;
  SDescr : string;
  SActions : list (option Action);
  SInternal : option workflow.State
}.

Record Block := mkBlock {
  BName : string;
  BDescr : string;
  BPreChecks : option Checks;
  BPostChecks : option Checks;
  BContChecks : option Checks;
  Sequences : list (option Sequence);
  Concurrency : Z;
  ToleratedFailures : Z;
  BInternal : option workflow.State
}.

Record PlanInternal := mkPlanInternal {
  SubmitTime : workflow.Time;
  Reason : workflow.FailureReason;
  Internal : option workflow.State
}.

Record Plan := mkPlan {
  Name : string;
  Descr : string;
  PreChecks : option Checks;
  ContChecks : option Checks;
  PostChecks : option Checks;
  Blocks : list (option Block);
  Internals : option PlanInternal
}.

(** A value of interface type [validator]: a pointer of one of the seven
    types, nil or not. The nil interface itself is [None] in
    [option validator]. *)
Inductive validator :=
| vPlan (p : option Plan)
| vPreChecks (c : option Checks)
| vPostChecks (c : option Checks)
| vContChecks (c : option Checks)
| vBlock (b : option Block)
| vSequence (s : option Sequence)
| vAction (a : option Action).

(** ** The queue *)

Section Queue.

Variable T : Type.
(** [var zero T]. *)
Variable zero : T.

(** [queue[T]]; the mutex guards against other goroutines, of which
    [Validate] has none. *)
Record queue := mkQueue { items : list T }.

Definition push (q : queue) (new : list T) : queue :=
  mkQueue (items q ++ new).

Definition pop (q : queue) : T * queue :=
  match items q with
  | [] => (zero, q)
  | item :: rest => (item, mkQueue rest)
  end.

End Queue.

Arguments mkQueue {T} items.
Arguments items {T} q.
Arguments push {T} q new.
Arguments pop {T} zero q.

Section WithCollaborators.

(** [strings.TrimSpace(s) == ""]. *)
Variable blank : string -> bool.
(** What the verb [%q] prints for a string. *)
Variable quote : string -> string.
(** [plugins.Registry]. *)
Variable Registry : registry.

Definition errInternal : error :=
  errorString "internal settings should not be set by the user".

(** ** The methods [validate] *)

Definition Plan_validate (p : option Plan) : list validator * option error :=
  match p with
  | None => ([], Some (errorString "plan is nil"))
  | Some p =>
      if blank (Name p) then ([], Some (errorString "name is required"))
      else if blank (Descr p)
      then ([], Some (errorString "description is required"))
      else if (length (Blocks p) =? 0)%nat
      then ([], Some (errorString "at least one block is required"))
      else if bool_decide (is_Some (Internals p))
      then ([], Some errInternal)
      else
        ([vPreChecks (PreChecks p); vPostChecks (PostChecks p);
          vContChecks (ContChecks p)] ++ (vBlock <$> Blocks p), None)
  end.

(** [PreChecks.validate], [PostChecks.validate] and [ContChecks.validate]
    have the same body. *)
Definition Checks_validate (c : option Checks)
  : list validator * option error :=
  match c with
  | None => ([], None)
  | Some c =>
      if (length (Actions c) =? 0)%nat
      then ([], Some (errorString "at least one action is required"))
      else if bool_decide (is_Some (CInternal c))
      then ([], Some errInternal)
      else (vAction <$> Actions c, None)
  end.

Definition Block_validate (b : option Block)
  : list validator * option error :=
  match b with
  | None => ([], Some (errorString "cannot have a nil Block"))
  | Some b =>
      if blank (BName b) then ([], Some (errorString "name is required"))
      else if blank (BDescr b)
      then ([], Some (errorString "description is required"))
      else if Concurrency b <? 1
      then ([], Some (errorString "concurrency must be at least 1"))
      else if bool_decide (is_Some (BInternal b))
      then ([], Some errInternal)
      else if (length (Sequences b) =? 0)%nat
      then ([], Some (errorString "at least one sequence is required"))
      else
        ([vPreChecks (BPreChecks b); vPostChecks (BPostChecks b);
          vContChecks (BContChecks b)] ++ (vSequence <$> Sequences b), None)
  end.

Definition Sequence_validate (s : option Sequence)
  : list validator * option error :=
  match s with
  | None => ([], Some (errorString "cannot have a nil Sequence"))
  | Some s =>
      if blank (SName s) then ([], Some (errorString "name is required"))
      else if blank (SDescr s)
      then ([], Some (errorString "description is required"))
      else if bool_decide (is_Some (SInternal s))
      then ([], Some errInternal)
      else if (length (SActions s) =? 0)%nat
      then ([], Some (errorString "at least one Action is required"))
      else (vAction <$> SActions s, None)
  end.

Definition Action_withTimeout (t : Z) (a : Action) : Action :=
  mkAction (AName a) (ADescr a) (Plugin a) t (Retries a) (Req a)
           (Attempts a) (AInternal a) (register a).
Definition Action_withRetries (r : Z) (a : Action) : Action :=
  mkAction (AName a) (ADescr a) (Plugin a) (Timeout a) r (Req a)
           (Attempts a) (AInternal a) (register a).

(** [Action.validate] assigns to [Timeout] and [Retries] on its way: the
    action comes back as the call left it, with the error; the list of
    validators it returns is always nil. *)
Definition Action_validate (a : option Action)
  : option Action * option error :=
  match a with
  | None => (None, Some (errorString "cannot have a nil Action"))
  | Some a =>
      if bool_decide (is_Some (AInternal a)) then (Some a, Some errInternal)
      else
        let a :=
          if Timeout a =? 0 then Action_withTimeout (30 * Second) a
          else a in
        if Timeout a <? 5 * Second
        then (Some a, Some (errorString "timeout must be at least 5 seconds"))
        else if blank (AName a)
        then (Some a, Some (errorString "name is required"))
        else if blank (ADescr a)
        then (Some a, Some (errorString "description is required"))
        else if blank (Plugin a)
        then (Some a, Some (errorString "plugin is required"))
        else if bool_decide (is_Some (Attempts a))
        then (Some a,
              Some (errorString "attempts should not be set by the user"))
        else
          let a := if Retries a <? 0 then Action_withRetries 0 a else a in
          let plug :=
            match register a with
            | None => Registry (Plugin a)
            | Some r => r (Plugin a)
            end in
          match plug with
          | None =>
              (Some a,
               Some (errorString
                       ("plugin " +:+ quote (Plugin a) +:+ " not found")))
          | Some p =>
              match p (Req a) with
              | Some err =>
                  (Some a,
                   Some (wrapError ("plugin " +:+ quote (Plugin a) +:+ ": ")
                                   err))
              | None => (Some a, None)
              end
          end
  end.

(** [val.validate()] on a value of the interface. *)
Definition validate (v : validator) : list validator * option error :=
  match v with
  | vPlan p => Plan_validate p
  | vPreChecks c | vPostChecks c | vContChecks c => Checks_validate c
  | vBlock b => Block_validate b
  | vSequence s => Sequence_validate s
  | vAction a => ([], snd (Action_validate a))
  end.

(** ** Validate *)

(** The loop of [Validate], [fuel] rounds of it at most: [None] when they
    were not enough, otherwise the error returned. The assignments of
    [Action.validate] stay with the actions and are not followed here. *)
Fixpoint validateLoop (fuel : nat) (q : queue (option validator))
  : option (option error) :=
  match fuel with
  | O => None
  | S fuel' =>
      let '(val, q) := pop None q in
      match val with
      | None => Some None
      | Some v =>
          let '(vals, err) := validate v in
          match err with
          | Some e => Some (Some e)
          | None =>
              let q :=
                if negb (length vals =? 0)%nat then push q (Some <$> vals)
                else q in
              validateLoop fuel' q
          end
      end
  end.

Definition Validate (fuel : nat) (p : option Plan) : option (option error) :=
  match p with
  | None => Some (Some (errorString "cannot have a nil Plan"))
  | Some _ => validateLoop fuel (push (mkQueue []) [Some (vPlan p)])
  end.

End WithCollaborators.

End validation.

(** * Notions used to state the properties of validation *)

Module validation_spec.
Import validation.

Section WithCollaborators.

Variable blank : string -> bool.
Variable Registry : registry.

(** The plugin an action names, in the registry the action carries or in
    the global one. *)
Definition pluginOf (a : Action) : option Plugin_ :=
  match register a with
  | None => Registry (Plugin a)
  | Some r => r (Plugin a)
  end.

(** What a submitted plan must look like, object by object. *)
Definition wfAction (a : option Action) : Prop :=
  exists a', a = Some a' /\
    AInternal a' = None /\
    (Timeout a' = 0 \/ 5 * Second <= Timeout a') /\
    blank (AName a') = false /\ blank (ADescr a') = false /\
    blank (Plugin a') = false /\
    Attempts a' = None /\
    exists p, pluginOf a' = Some p /\ p (Req a') = None.

Definition wfChecks (c : option Checks) : Prop :=
  forall c', c = Some c' ->
    Actions c' <> [] /\ CInternal c' = None /\ Forall wfAction (Actions c').

Definition wfSequence (s : option Sequence) : Prop :=
  exists s', s = Some s' /\
    blank (SName s') = false /\ blank (SDescr s') = false /\
    SInternal s' = None /\ SActions s' <> [] /\
    Forall wfAction (SActions s').

Definition wfBlock (b : option Block) : Prop :=
  exists b', b = Some b' /\
    blank (BName b') = false /\ blank (BDescr b') = false /\
    1 <= Concurrency b' /\ BInternal b' = None /\ Sequences b' <> [] /\
    wfChecks (BPreChecks b') /\ wfChecks (BPostChecks b') /\
    wfChecks (BContChecks b') /\
    Forall wfSequence (Sequences b').

Definition wfPlan (p : option Plan) : Prop :=
  exists p', p = Some p' /\
    blank (Name p') = false /\ blank (Descr p') = false /\
    Blocks p' <> [] /\ Internals p' = None /\
    wfChecks (PreChecks p') /\ wfChecks (PostChecks p') /\
    wfChecks (ContChecks p') /\
    Forall wfBlock (Blocks p').

Definition wf (v : validator) : Prop :=
  match v with
  | vPlan p => wfPlan p
  | vPreChecks c | vPostChecks c | vContChecks c => wfChecks c
  | vBlock b => wfBlock b
  | vSequence s => wfSequence s
  | vAction a => wfAction a
  end.

End WithCollaborators.

(** The number of objects below a validator, itself included. *)
Definition wChecks (c : option Checks) : nat :=
  match c with
  | None => 1
  | Some c => S (length (Actions c))
  end.

Definition wSequence (s : option Sequence) : nat :=
  match s with
  | None => 1
  | Some s => S (length (SActions s))
  end.

Definition wBlock (b : option Block) : nat :=
  match b with
  | None => 1
  | Some b =>
      S (wChecks (BPreChecks b) + wChecks (BPostChecks b)
         + wChecks (BContChecks b)
         + list_sum (wSequence <$> Sequences b))
  end.

Definition wPlan (p : option Plan) : nat :=
  match p with
  | None => 1
  | Some p =>
      S (wChecks (PreChecks p) + wChecks (PostChecks p)
         + wChecks (ContChecks p)
         + list_sum (wBlock <$> Blocks p))
  end.

Definition weight (v : validator) : nat :=
  match v with
  | vPlan p => wPlan p
  | vPreChecks c | vPostChecks c | vContChecks c => wChecks c
  | vBlock b => wBlock b
  | vSequence s => wSequence s
  | vAction _ => 1
  end.

(** The number of objects below the validators of a queue. *)
Definition total (l : list validator) : nat := list_sum (weight <$> l).

(** [n] pops in a row: the values returned, in order, and the queue
    left. *)
Fixpoint drain {T : Type} (zero : T) (n : nat) (q : queue T)
  : list T * queue T :=
  match n with
  | O => ([], q)
  | S n' =>
      let '(x, q) := pop zero q in
      let '(xs, q) := drain zero n' q in
      (x :: xs, q)
  end.

(** A validator that passes its own [validate], whatever lies below. *)
Definition passes (blank : string -> bool) (quote : string -> string)
           (Registry : registry) (v : validator) : Prop :=
  snd (validate blank quote Registry v) = None.

(** The values the examples run on: blank is the empty string, one plugin
    is registered and accepts every request. *)
Definition isEmpty (s : string) : bool := String.eqb s "".

Definition quoted (s : string) : string := "'" +:+ s +:+ "'".

Definition oneRegistry : registry :=
  fun name => if String.eqb name "test" then Some (fun _ => None) else None.

Definition goodAction : Action :=
  mkAction "action" "does something" "test" 0 (-1) None None None None.

Definition goodSequence : Sequence :=
  mkSequence "seq" "a sequence" [Some goodAction] None.

Definition goodBlock : Block :=
  mkBlock "block" "a block" None None None [Some goodSequence] 1 0 None.

(** A block without a name, after a block that is in order. *)
Definition namelessBlock : Block :=
  mkBlock "" "a block" None None None [Some goodSequence] 1 0 None.

Definition goodPlan : Plan :=
  mkPlan "plan" "a plan" None None None [Some goodBlock] None.

(** Pre-checks that are in order themselves, around a nil action. *)
Definition hollowChecks : Checks := mkChecks [None] 0 0 None.

Definition lopsidedPlan : Plan :=
  mkPlan "plan" "a plan" (Some hollowChecks) None None
         [Some goodBlock; Some namelessBlock] None.

End validation_spec.

(** * The states of the check sets of a plan *)

Module checks_spec.
Import sm sm_spec.

(** The states of the three check sets of a plan, where present. *)
Definition checkStates (p : workflow.Plan) : list (option State) :=
  [CState <$> PreChecks p; CState <$> ContChecks p; CState <$> PostChecks p].

End checks_spec.

(** * The ticks of a supervisor *)

Module supervisor_spec.
Import sm sm_spec.

(** The checks after a tick whose actions came back as [acts]. *)
Definition ticked (acts : list Action) (checks : Checks) : Checks :=
  Checks_withActions acts
    (Checks_withActions (resetActions (Actions checks)) checks).

(** [ticks env done n checks s v checks' s']: from round [n] on, with the
    checks [checks] and the process in state [s], the ticks pass one after
    the other until the context is found done, and then [v] is nil, or
    until the checks of a tick return an error [e], and then [v] is that
    error; [checks'] and [s'] are the checks and the process at that
    moment, before anything is sent or closed. *)
Inductive ticks (env : Env) (done : nat -> bool)
  : nat -> Checks -> Sys -> option error -> Checks -> Sys -> Prop :=
| ticks_done (n : nat) (checks : Checks) (s : Sys) :
    done n = true ->
    ticks env done n checks s None checks s
| ticks_fail (n : nat) (checks : Checks) (s : Sys) (e : error)
             (acts : list Action) (s2 : Sys) :
    done n = false ->
    storeErr env (writes s) = None ->
    runChecks env (resetActions (Actions checks))
              (setWrites (S (writes s)) s) = Ok ((Some e, acts), s2) ->
    ticks env done n checks s (Some e) (ticked acts checks) s2
| ticks_pass (n : nat) (checks : Checks) (s : Sys) (acts : list Action)
             (s2 : Sys) (v : option error) (checks' : Checks) (s' : Sys) :
    done n = false ->
    storeErr env (writes s) = None ->
    runChecks env (resetActions (Actions checks))
              (setWrites (S (writes s)) s) = Ok ((None, acts), s2) ->
    storeErr env (writes s2) = None ->
    ticks env done (S n) (ticked acts checks)
          (setWrites (S (writes s2)) s2) v checks' s' ->
    ticks env done n checks s v checks' s'.

(** The process after a supervisor has handed over [v] on channel [a],
    whose value was [c]: the error, if any, is sent, and the channel is
    closed. *)
Definition handedOver (a : nat) (c : chan) (v : option error) (s : Sys)
  : Sys :=
  match v with
  | None => afterClose a c s
  | Some e =>
      afterClose a (mkChan (buf c ++ [Some e]) (cap c) false)
                 (afterSend a c (Some e) s)
  end.

(** How many values [v] puts on a channel. *)
Definition sent (v : option error) : nat :=
  match v with
  | Some _ => 1
  | None => 0
  end.

(** The first tick of checks that fail, on [oneChannel]: what [runChecks]
    returns. *)
Definition failingTick : option error * list Action * Sys :=
  Eval vm_compute in
    match runChecks testEnv (resetActions (Actions (testChecks "error")))
                    (setWrites 1 oneChannel) with
    | Ok x => x
    | _ => (None, [], Sys0)
    end.

End supervisor_spec.

(** * The status of the current block *)

Module block_spec.
Import sm sm_spec.

(** The states of a block, from [BlockPreChecks] to [BlockEnd]. *)
Definition blockStates : list state :=
  [sBlockPreChecks; sBlockStartContChecks; sExecuteSequences;
   sBlockPostChecks; sBlockEnd].

(** The status of the block behind the first handle. *)
Definition headStatus (req : Request) : option Status :=
  match blocks (Data_ req) with
  | h :: _ => blockStatus (block_ h) req
  | [] => None
  end.

End block_spec.

(** * The reason a plan enters the finalisation machine with *)

Module defaults.
Import workflow.

(** [Plan.defaults] (package workflow):
    [p.Internals = &PlanInternal{Internal: &Internal{ID: uuid.New(),
    Status: NotStarted}}]. The internals are new: the status is
    [NotStarted], the times and the reason are the zero values. On the
    record the two machines read they are the fields [PState] and
    [Reason]; the identifier is not part of the record. *)
Definition Plan_defaults (p : Plan) : Plan :=
  mkPlan (Name p) (PreChecks p) (ContChecks p) (PostChecks p) (Blocks p)
         (mkState NotStarted 0%nat 0%nat) FRUnknown.

End defaults.

Module delivered_spec.
Import sm sm_spec table_spec defaults.

(** Where the run of [watchedPlan], submitted, ends: the request the
    execution machine hands over after its five states. *)
Definition delivered : Request * Sys :=
  Eval vm_compute in
    match steps testEnv 6 (startRequest (Plan_defaults watchedPlan)) Sys0 with
    | Ok x => x
    | _ => (startRequest watchedPlan, Sys0)
    end.

End delivered_spec.

(** * Proofs *)

(** ** The finalisation machine *)

Section FinalProofs.
Import final final_spec.

Lemma examineChecks_spec (p : Plan) :
  examineChecks [PreChecks p; ContChecks p; PostChecks p] =
  match firstBadCheck p with
  | Some (r, t, s) => (r, Some (checkErr t s))
  | None => (FRUnknown, None)
  end.
Proof.
  unfold examineChecks, firstBadCheck, badCheck, checkErr.
  destruct (PreChecks p) as [c0|], (ContChecks p) as [c1|],
    (PostChecks p) as [c2|]; cbn [examineChecks_from];
    repeat match goal with
           | |- context [?a =? ?b] => destruct (a =? b)
           end; reflexivity.
Qed.

Lemma blocks_loop_spec (bs : list Block) (req : Request) :
  blocks_loop bs req =
  match firstBadBlock bs with
  | Some s =>
      setErr (Some (blockErr s)) (setPlan (failWith FRBlock (plan req)) req)
  | None => setNext (Some f_end) req
  end.
Proof.
  induction bs as [|b bs IH]; [reflexivity|].
  cbn [blocks_loop firstBadBlock]. unfold blockErr.
  destruct (Status_ (BState b) =? Completed); [exact IH|].
  destruct (Status_ (BState b) =? Failed); reflexivity.
Qed.

Lemma planChecks_spec (p : Plan) (e : option error) (n : option fstate) :
  planChecks (mkRequest p e n) =
  match firstBadCheck p with
  | Some (r, t, s) =>
      mkRequest (failWith r p) (Some (checkErr t s)) (Some f_end)
  | None => mkRequest p e (Some f_blocks)
  end.
Proof.
  unfold planChecks. cbn [plan]. rewrite examineChecks_spec.
  destruct (firstBadCheck p) as [[[r t] s]|]; reflexivity.
Qed.

Lemma blocks_spec (p : Plan) (e : option error) (n : option fstate) :
  blocks (mkRequest p e n) =
  match firstBadBlock (Blocks p) with
  | Some s => mkRequest (failWith FRBlock p) (Some (blockErr s)) n
  | None => mkRequest p e (Some f_end)
  end.
Proof.
  unfold blocks. cbn [plan]. rewrite blocks_loop_spec.
  destruct (firstBadBlock (Blocks p)); reflexivity.
Qed.

(** Finalising always ends, in the request [outcome] describes. *)
Lemma finalize_outcome (p : Plan) : finalize p = Some (outcome p).
Proof.
  unfold finalize, outcome.
  cbn [Run Next exec]. unfold start, setNext. cbn [plan Err Next].
  rewrite planChecks_spec.
  destruct (firstBadCheck p) as [[[r t] s]|]; [reflexivity|].
  cbn [Err Next plan exec]. rewrite blocks_spec.
  destruct (firstBadBlock (Blocks p)); reflexivity.
Qed.

Lemma checkErr_internal (t : string) (s : Status) :
  errors_Is ErrInternalFailure (checkErr t s) = negb (s =? Failed).
Proof. unfold checkErr. destruct (s =? Failed); reflexivity. Qed.

Lemma blockErr_internal (s : Status) :
  errors_Is ErrInternalFailure (blockErr s) = negb (s =? Failed).
Proof. unfold blockErr. destruct (s =? Failed); reflexivity. Qed.

Lemma badCheck_neq (c : option Checks) (s : Status) :
  badCheck c = Some s -> s <> Completed.
Proof.
  unfold badCheck. destruct c as [c|]; [|discriminate].
  destruct (Z.eqb_spec (Status_ (CState c)) Completed) as [E|E];
    [discriminate|].
  intros [= <-]. exact E.
Qed.

Lemma firstBadCheck_reason (p : Plan) r t s :
  firstBadCheck p = Some (r, t, s) ->
  (r = FRPreCheck \/ r = FRContCheck \/ r = FRPostCheck) /\ s <> Completed.
Proof.
  unfold firstBadCheck.
  destruct (badCheck (PreChecks p)) eqn:E0;
    [|destruct (badCheck (ContChecks p)) eqn:E1;
      [|destruct (badCheck (PostChecks p)) eqn:E2; [|discriminate]]];
    intros [= <- <- <-]; eauto using badCheck_neq.
Qed.

Lemma firstBadBlock_neq (bs : list Block) s :
  firstBadBlock bs = Some s -> s <> Completed.
Proof.
  induction bs as [|b bs IH]; cbn; [discriminate|].
  destruct (Z.eqb_spec (Status_ (BState b)) Completed); [exact IH|].
  intros [= <-]. assumption.
Qed.

Lemma firstBadBlock_None (bs : list Block) :
  firstBadBlock bs = None <->
  Forall (fun b => Status_ (BState b) = Completed) bs.
Proof.
  induction bs as [|b bs IH]; cbn.
  - split; [constructor|reflexivity].
  - destruct (Z.eqb_spec (Status_ (BState b)) Completed) as [E|E].
    + rewrite IH. split; [intros; constructor; assumption|].
      intros H. inversion H; assumption.
    + split; [discriminate|]. intros H. inversion H. contradiction.
Qed.

(** With the reason [FRUnknown] on entry, the reason is [FRUnknown] in the
    end exactly when the plan is [Completed]. *)
Lemma outcome_reason_iff (p : Plan) :
  Reason p = FRUnknown ->
  (Reason (plan (outcome p)) = FRUnknown <->
   Status_ (PState (plan (outcome p))) = Completed).
Proof.
  intros Hfresh. unfold outcome.
  destruct (firstBadCheck p) as [[[fr t] s]|] eqn:Ec.
  - cbn. destruct (firstBadCheck_reason _ _ _ _ Ec) as [[-> | [-> | ->]] _];
      split; discriminate.
  - destruct (firstBadBlock (Blocks p)) as [s|]; cbn.
    + split; discriminate.
    + split; [reflexivity|]. intros _. exact Hfresh.
Qed.

(** [end] writes the status only: a plan that ends [Completed] has the
    reason it entered with. *)
Lemma outcome_keeps_reason (p : Plan) :
  Status_ (PState (plan (outcome p))) = Completed ->
  Reason (plan (outcome p)) = Reason p.
Proof.
  unfold outcome.
  destruct (firstBadCheck p) as [[[fr t] s]|]; [cbn; discriminate|].
  destruct (firstBadBlock (Blocks p)) as [s|]; cbn;
    [discriminate|reflexivity].
Qed.

End FinalProofs.

Section FinalClaims.
Import final final_spec.

(** C1, as amended. The error of the finalisation machine is nil exactly
    when every plan check that is present and every block is [Completed].
    When the first check or block that is not [Completed] is [Failed], the
    machine records the failure in the plan's status and reason and also
    leaves a non-nil error, which does not wrap [ErrInternalFailure]; the
    error wraps [ErrInternalFailure] exactly when that first status is
    neither [Completed] nor [Failed]. *)
Theorem finalize_error_characterised (p : Plan) :
  exists r, finalize p = Some r /\
    match firstBadCheck p, firstBadBlock (Blocks p) with
    | None, None =>
        Err r = None /\ Status_ (PState (plan r)) = Completed
    | Some (_, _, s), _ | None, Some s =>
        Status_ (PState (plan r)) = Failed /\
        Reason (plan r) <> FRUnknown /\
        exists e, Err r = Some e /\
                  errors_Is ErrInternalFailure e = negb (s =? Failed)
    end.
Proof.
  exists (outcome p). split; [apply finalize_outcome|].
  unfold outcome.
  destruct (firstBadCheck p) as [[[fr t] s]|] eqn:Ec.
  - cbn. split; [reflexivity|]. split.
    + destruct (firstBadCheck_reason _ _ _ _ Ec) as [[-> | [-> | ->]] _];
        discriminate.
    + eexists. split; [reflexivity|]. apply checkErr_internal.
  - destruct (firstBadBlock (Blocks p)) as [s|]; cbn.
    + split; [reflexivity|]. split; [discriminate|].
      eexists. split; [reflexivity|]. apply blockErr_internal.
    + split; reflexivity.
Qed.

(** C1, as stated, fails: a plan whose block is [Failed], and a plan whose
    pre-checks are [Failed], both leave the machine with a non-nil error
    that is no invariant violation. *)
Lemma failed_plan_returns_error :
  (exists r, finalize failedBlockPlan = Some r /\
             Status_ (PState (plan r)) = Failed /\
             Reason (plan r) = FRBlock /\
             Err r = Some (errorString "block failure")) /\
  (exists r, finalize failedCheckPlan = Some r /\
             Status_ (PState (plan r)) = Failed /\
             Reason (plan r) = FRPreCheck /\
             Err r = Some (errorString "PreChecks failure")) /\
  ~ (exists r, finalize failedBlockPlan = Some r /\ Err r = None).
Proof.
  split; [|split].
  - eexists. repeat split; reflexivity.
  - eexists. repeat split; reflexivity.
  - intros [r [H E]]. vm_compute in H. injection H as <-. discriminate E.
Qed.

(** C7. The machine looks at [PreChecks], [ContChecks], [PostChecks] in
    that order, skipping nil ones: the first that is not [Completed] makes
    the plan [Failed] with the reason of its place, and the error wraps
    [ErrInternalFailure] when its status is not [Failed] either; when all
    checks and blocks are [Completed] the plan ends [Completed] with reason
    [FRUnknown]; in the end the reason is [FRUnknown] exactly when the plan
    is [Completed]. The plan enters with the reason [FRUnknown]: it has it
    from [Plan.defaults], and no state of the execution machine writes it
    ([entering_reason]); [end] writes the status only. *)
Theorem finalize_status_and_reason (p : Plan) (Hfresh : Reason p = FRUnknown) :
  exists r, finalize p = Some r /\
    (forall fr t s, firstBadCheck p = Some (fr, t, s) ->
       Status_ (PState (plan r)) = Failed /\ Reason (plan r) = fr /\
       exists e, Err r = Some e /\
                 errors_Is ErrInternalFailure e = negb (s =? Failed)) /\
    (firstBadCheck p = None ->
     Forall (fun b => Status_ (BState b) = Completed) (Blocks p) ->
     Status_ (PState (plan r)) = Completed /\ Reason (plan r) = FRUnknown) /\
    (Reason (plan r) = FRUnknown <-> Status_ (PState (plan r)) = Completed).
Proof.
  exists (outcome p). split; [apply finalize_outcome|].
  split; [|split]; [| |exact (outcome_reason_iff p Hfresh)].
  - unfold outcome. intros fr t s Ec. rewrite Ec. cbn. repeat split.
    eexists. split; [reflexivity|]. apply checkErr_internal.
  - unfold outcome. intros Ec Hb. rewrite Ec.
    apply firstBadBlock_None in Hb. rewrite Hb. cbn. split; [reflexivity|].
    exact Hfresh.
Qed.

End FinalClaims.

(** ** runAction *)

Section RunActionProofs.
Import sm sm_spec.
Variable env : Env.

Lemma attemptOp_guard (p : plugins.Plugin) (a : Action) (s : Sys) :
  Z.of_nat (length (Attempts a)) > Retries a ->
  attemptOp env p a s = Ok ((Some ErrPermanent, a), s).
Proof.
  intros H. unfold attemptOp.
  destruct (Z.gtb_spec (Z.of_nat (length (Attempts a))) (Retries a));
    [reflexivity|lia].
Qed.

Lemma attemptOp_run (p : plugins.Plugin) (a : Action) (s : Sys) :
  Z.of_nat (length (Attempts a)) <= Retries a ->
  let att := attemptOf p (clock s) (plugins.Execute p (Req a) (calls s)) in
  attemptOp env p a s =
  Ok ((AErr att, Action_withAttempts (Attempts a ++ [att]) a),
      setWrites (S (writes s))
                (setCalls (S (calls s)) (setClock (S (clock s)) s))).
Proof.
  intros H att. unfold attemptOp.
  destruct (Z.gtb_spec (Z.of_nat (length (Attempts a))) (Retries a)); [lia|].
  unfold bind, now, get, put, storeWrite, ret. cbn.
  subst att. unfold attemptOf.
  destruct (plugins.Execute p (Req a) (calls s)) as [resp [e|]]; cbn.
  - reflexivity.
  - destruct (isType resp (plugins.Response p)); reflexivity.
Qed.

Lemma sameShared_refl s : sameShared s s.
Proof. repeat split. Qed.

Lemma sameShared_trans s1 s2 s3 :
  sameShared s1 s2 -> sameShared s2 s3 -> sameShared s1 s3.
Proof. unfold sameShared. intuition congruence. Qed.

Lemma opStep_budget p a a' :
  opStep env p a a' -> withinBudget a ->
  withinBudget a' /\ Retries a' = Retries a.
Proof.
  intros (s & e & s' & H) Hb. unfold withinBudget in *.
  destruct (Z_gt_le_dec (Z.of_nat (length (Attempts a))) (Retries a)) as [G|G].
  - rewrite attemptOp_guard in H by exact G. injection H as _ <- _. auto.
  - rewrite attemptOp_run in H by exact G. injection H as _ <- _. cbn.
    rewrite length_app. cbn. split; [lia|reflexivity].
Qed.

Lemma opStep_length p a a' :
  opStep env p a a' -> (length (Attempts a) <= length (Attempts a'))%nat.
Proof.
  intros (s & e & s' & H).
  destruct (Z_gt_le_dec (Z.of_nat (length (Attempts a))) (Retries a)) as [G|G].
  - rewrite attemptOp_guard in H by exact G. injection H as _ <- _. lia.
  - rewrite attemptOp_run in H by exact G. injection H as _ <- _. cbn.
    rewrite length_app. lia.
Qed.

Lemma visits_length p a a' :
  rtc (opStep env p) a a' -> (length (Attempts a) <= length (Attempts a'))%nat.
Proof.
  induction 1 as [|a b c H _ IH]; [lia|].
  apply opStep_length in H. lia.
Qed.

Lemma visits_budget p a a' :
  rtc (opStep env p) a a' -> withinBudget a ->
  withinBudget a' /\ Retries a' = Retries a.
Proof.
  induction 1 as [|a b c H _ IH]; [auto|].
  intros Hb. destruct (opStep_budget _ _ _ H Hb) as [Hb' E].
  destruct (IH Hb') as [? E']. split; [assumption|congruence].
Qed.

Lemma Retry_spec (p : plugins.Plugin) (fuel : nat) :
  forall (a : Action) (s : Sys),
    (rounds a <= fuel)%nat ->
    exists e a' s',
      Retry env fuel (attemptOp env p) a s = Ok ((e, a'), s') /\
      rtc (opStep env p) a a' /\ sameShared s s' /\
      (calls s' - calls s = length (Attempts a') - length (Attempts a))%nat /\
      (calls s <= calls s')%nat.
Proof.
  induction fuel as [|fuel IH]; intros a s Hf; unfold rounds in *; [lia|].
  cbn [Retry]. unfold bind, get, put, ret. cbn.
  destruct (ctxDone env (looks s)).
  { do 3 eexists. split; [reflexivity|]. split; [constructor|].
    split; [repeat split|]. cbn. lia. }
  destruct (Z_gt_le_dec (Z.of_nat (length (Attempts a))) (Retries a)) as [G|G].
  - rewrite attemptOp_guard by exact G. cbn.
    do 3 eexists. split; [reflexivity|]. split; [constructor|].
    split; [repeat split|]. cbn. lia.
  - pose proof (attemptOp_run p a (setLooks (S (looks s)) s) G) as Hrun.
    cbn zeta in Hrun. rewrite Hrun. cbn [clock calls setLooks].
    set (att := attemptOf p (clock s)
                          (plugins.Execute p (Req a) (calls s))) in *.
    set (a1 := Action_withAttempts (Attempts a ++ [att]) a) in *.
    assert (Hstep : opStep env p a a1) by (do 3 eexists; exact Hrun).
    destruct (AErr att) as [e|].
    + destruct (errors_Is ErrPermanent e).
      * do 3 eexists. split; [reflexivity|].
        split; [eapply rtc_once; exact Hstep|].
        split; [repeat split|]. cbn. rewrite length_app. cbn. lia.
      * edestruct (IH a1) as (e' & a' & s' & HR & Hrtc & Hsh & Hc & Hle).
        2:{ rewrite HR. do 3 eexists. split; [reflexivity|].
            split; [eapply rtc_l; eassumption|].
            split; [eapply sameShared_trans; [|exact Hsh]; repeat split|].
            cbn in Hc, Hle. subst a1. cbn in Hc.
            rewrite length_app in Hc. cbn in Hc.
            assert (length (Attempts a) + 1 <= length (Attempts a'))%nat.
            { apply visits_length in Hrtc. cbn in Hrtc.
              rewrite length_app in Hrtc. cbn in Hrtc. lia. }
            lia. }
        subst a1. cbn [Retries Attempts Action_withAttempts].
        rewrite length_app. cbn [length]. lia.
    + do 3 eexists. split; [reflexivity|].
      split; [eapply rtc_once; exact Hstep|].
      split; [repeat split|]. cbn. rewrite length_app. cbn. lia.
Qed.

Lemma opStep_retries p a a' : opStep env p a a' -> Retries a' = Retries a.
Proof.
  intros (s & e & s' & H).
  destruct (Z_gt_le_dec (Z.of_nat (length (Attempts a))) (Retries a)) as [G|G].
  - rewrite attemptOp_guard in H by exact G. injection H as _ <- _. reflexivity.
  - rewrite attemptOp_run in H by exact G. injection H as _ <- _. reflexivity.
Qed.

Lemma opStep_fields p a a' :
  opStep env p a a' ->
  Plugin a' = Plugin a /\ Req a' = Req a /\ AState a' = AState a /\
  AName a' = AName a.
Proof.
  intros (s & e & s' & H).
  destruct (Z_gt_le_dec (Z.of_nat (length (Attempts a))) (Retries a)) as [G|G].
  - rewrite attemptOp_guard in H by exact G. injection H as _ <- _. auto.
  - rewrite attemptOp_run in H by exact G. injection H as _ <- _. auto.
Qed.

Lemma visits_fields p a a' :
  rtc (opStep env p) a a' ->
  Plugin a' = Plugin a /\ Req a' = Req a /\ AState a' = AState a /\
  AName a' = AName a /\ Retries a' = Retries a.
Proof.
  induction 1 as [|a b c H _ IH]; [auto 6|].
  destruct (opStep_fields _ _ _ H) as (? & ? & ? & ?).
  apply opStep_retries in H.
  destruct IH as (? & ? & ? & ? & ?). repeat split; congruence.
Qed.

(** What [runAction] comes to: a panic when the plugin is not registered,
    and otherwise a result, never an exhausted loop. *)
Lemma runAction_spec (a : Action) (s : Sys) :
  match registry env (Plugin a) with
  | None => runAction env a s = Panic nilDeref
  | Some p =>
      exists e a' s',
        runAction env a s = Ok ((e, a'), s') /\
        Retries a' = Retries a /\ Plugin a' = Plugin a /\
        Req a' = Req a /\ AName a' = AName a /\
        (withinBudget a -> withinBudget a') /\
        (length (Attempts a) <= length (Attempts a'))%nat /\
        Status_ (AState a') =
          match e with Some _ => Failed | None => Completed end /\
        sameShared s s' /\
        (calls s' - calls s =
           length (Attempts a') - length (Attempts a))%nat /\
        (calls s <= calls s')%nat
  end.
Proof.
  unfold runAction, bind, now, storeWrite, panic, ret. cbv beta.
  change (Plugin (Action_withState (setStatus Running)
                    (Action_withState (setStart (clock s)) a)))
    with (Plugin a).
  destruct (registry env (Plugin a)) as [p|]; [|reflexivity].
  match goal with
  | |- context [Retry env (rounds ?x) ?op ?x ?y] =>
      destruct (Retry_spec p (rounds x) x y (le_n _))
        as (e & a1 & s1 & HR & Hv & Hsh & Hc & Hle)
  end.
  rewrite HR.
  pose proof (visits_fields _ _ _ Hv) as (Hp & Hq & _ & Hn & Hr).
  pose proof (visits_length _ _ _ Hv) as Hlen.
  destruct Hsh as (H1 & H2 & H3 & H4 & H5).
  cbn [Retries Plugin Req AName Attempts Action_withState calls chans ctxs
       spawned chlog polls setWrites setClock] in *.
  exists e. eexists. eexists. split; [reflexivity|].
  split; [destruct e; cbn; congruence|].
  split; [destruct e; cbn; congruence|].
  split; [destruct e; cbn; congruence|].
  split; [destruct e; cbn; congruence|].
  split.
  { intros Hb. destruct (visits_budget _ _ _ Hv Hb) as [Hb' _].
    unfold withinBudget in *. destruct e; exact Hb'. }
  split; [destruct e; exact Hlen|].
  split; [destruct e; reflexivity|].
  split; [repeat split; cbn; assumption|].
  split; [destruct e; cbn; cbn in Hc; exact Hc|].
  cbn in Hle. exact Hle.
Qed.

End RunActionProofs.

Section RunActionClaims.
Import sm sm_spec.

(** A validated action that has not run yet is within its budget. *)
Lemma fresh_withinBudget (a : Action) :
  Attempts a = [] -> 0 <= Retries a -> withinBudget a.
Proof. unfold withinBudget. intros -> H. cbn. lia. Qed.

(** What the code does for a response of the wrong type, whatever the
    retries left: one attempt, recorded with a permanent error and a nil
    response, no second invocation, the action [Failed]. *)
Lemma wrong_type_is_permanent (env : Env) (p : plugins.Plugin) (a : Action)
      (s : Sys) (resp : any) :
  registry env (Plugin a) = Some p ->
  Z.of_nat (length (Attempts a)) <= Retries a ->
  ctxDone env (looks s) = false ->
  plugins.Execute p (Req a) (calls s) = (resp, None) ->
  TypeOf resp <> TypeOf (plugins.Response p) ->
  exists e a' s',
    runAction env a s = Ok ((Some e, a'), s') /\
    errors_Is ErrPermanent e = true /\
    Attempts a' = Attempts a ++ [mkAttempt None (Some e) (S (clock s)) 0%nat] /\
    Status_ (AState a') = Failed /\
    calls s' = S (calls s).
Proof.
  intros Hreg Hlen Hctx Hex Hty.
  unfold runAction, bind, now, storeWrite, ret. cbv beta.
  change (Plugin (Action_withState (setStatus Running)
                    (Action_withState (setStart (clock s)) a)))
    with (Plugin a).
  rewrite Hreg. unfold rounds. cbn [Retry]. unfold bind, get, put, ret.
  cbn [looks setWrites setClock fst snd]. rewrite Hctx.
  rewrite attemptOp_run by exact Hlen.
  cbn [Req Action_withState calls clock setLooks setWrites setClock].
  rewrite Hex. unfold attemptOf, isType. cbn [fst snd].
  rewrite bool_decide_eq_false_2 by exact Hty.
  cbn. do 3 eexists. repeat split; reflexivity.
Qed.

(** C5, at the failing input. The plugin declares [plugins.Resp] and
    returns a [plugins.Other] with a nil error. Whatever the retries of the
    action, [runAction] records one attempt with a permanent error, makes no
    second invocation and fails the action; but the response was already
    set to nil when the message was formatted, so the message names
    [<nil>] and the expected type, not the type the plugin returned. *)
Theorem wrong_type_error_names_nil (n : nat) :
  exists e a' s',
    runAction otherEnv (helloAction (Z.of_nat n)) Sys0
      = Ok ((Some e, a'), s') /\
    Attempts a' = [mkAttempt None (Some e) 1%nat 0%nat] /\
    e = wrapError
          "plugin(hello) returned a type <nil> but expected plugins.Resp: "
          ErrPermanent /\
    Contains (message e) "plugins.Other" = false /\
    Contains (message e) "plugins.Resp" = true /\
    errors_Is ErrPermanent e = true /\
    Status_ (AState a') = Failed /\ calls s' = 1%nat.
Proof.
  do 3 eexists. split.
  - unfold runAction, bind, now, storeWrite, ret. cbn.
    unfold bind. rewrite attemptOp_run by (cbn; lia). cbn. reflexivity.
  - repeat split; reflexivity.
Qed.

(** C6. For an action within its budget, as every validated action is when
    it enters [runAction]: every action the retry loop goes through and the
    action [runAction] leaves have at most [Retries + 1] attempts, and
    [runAction] always comes to an end; once the attempts exceed [Retries]
    a call of the function literal returns [ErrPermanent] and touches
    neither the plugin nor the action; a call that changes the action
    appends the one attempt made of what the plugin returned. *)
Theorem attempts_within_budget (env : Env) (a : Action)
        (Hb : withinBudget a) :
  (forall p a', rtc (opStep env p) a a' -> withinBudget a') /\
  (forall s, match runAction env a s with
             | Ok ((_, a'), _) => withinBudget a' /\ Retries a' = Retries a
             | Panic _ => registry env (Plugin a) = None
             | _ => False
             end) /\
  (forall p a1 s,
      rtc (opStep env p) a a1 ->
      Z.of_nat (length (Attempts a1)) > Retries a1 ->
      attemptOp env p a1 s = Ok ((Some ErrPermanent, a1), s)) /\
  (forall p a1 s e a2 s',
      rtc (opStep env p) a a1 ->
      attemptOp env p a1 s = Ok ((e, a2), s') ->
      (a2 = a1 /\ s' = s) \/
      (Attempts a2 =
         Attempts a1 ++
           [attemptOf p (clock s) (plugins.Execute p (Req a1) (calls s))] /\
       calls s' = S (calls s))).
Proof.
  split; [|split; [|split]].
  - intros p a' Hv. exact (proj1 (visits_budget env p a a' Hv Hb)).
  - intros s. pose proof (runAction_spec env a s) as H.
    destruct (registry env (Plugin a)) as [p|].
    + destruct H as (e & a' & s' & -> & Hr & _ & _ & _ & Hw & _).
      split; [exact (Hw Hb)|exact Hr].
    + rewrite H. reflexivity.
  - intros p a1 s _ G. apply attemptOp_guard. exact G.
  - intros p a1 s e a2 s' _ H.
    destruct (Z_gt_le_dec (Z.of_nat (length (Attempts a1))) (Retries a1))
      as [G|G].
    + rewrite attemptOp_guard in H by exact G. injection H as _ <- <-.
      left. split; reflexivity.
    + rewrite attemptOp_run in H by exact G. injection H as _ <- <-.
      right. split; reflexivity.
Qed.

Lemma attempts_within_budget_witness :
  withinBudget (testAction "error" 2) /\
  forall s, match runAction testEnv (testAction "error" 2) s with
            | Ok ((_, a'), _) =>
                withinBudget a' /\ Retries a' = Retries (testAction "error" 2)
            | Panic _ => registry testEnv (Plugin (testAction "error" 2)) = None
            | _ => False
            end.
Proof.
  assert (H : withinBudget (testAction "error" 2)).
  { unfold withinBudget. cbn. lia. }
  split; [exact H|].
  exact (proj1 (proj2 (attempts_within_budget testEnv _ H))).
Defined.

End RunActionClaims.

(** ** What the helpers leave untouched *)

Section FrameProofs.
Import sm sm_spec.
Variable env : Env.

Lemma unstuck_bind {A B} (m : M A) (k : A -> M B) (s : Sys)
      (P : A * Sys -> Prop) (Q : B * Sys -> Prop) :
  unstuck (m s) P ->
  (forall a s', P (a, s') -> unstuck (k a s') Q) ->
  unstuck (bind m k s) Q.
Proof.
  unfold bind. destruct (m s) as [[a s']| | | |]; cbn; auto.
Qed.

Lemma unstuck_weaken {A} (r : result A) (P Q : A -> Prop) :
  unstuck r P -> (forall a, P a -> Q a) -> unstuck r Q.
Proof. destruct r; cbn; auto. Qed.

Lemma framed_refl s : framed s s.
Proof. repeat split; lia. Qed.

Lemma framed_trans s1 s2 s3 : framed s1 s2 -> framed s2 s3 -> framed s1 s3.
Proof.
  intros (H1 & ?) (H2 & ?). split; [eapply sameShared_trans; eassumption|lia].
Qed.

Lemma now_framed s :
  unstuck (now s) (fun r => framed s (snd r) /\ fst r = clock s).
Proof. cbn. repeat split; try reflexivity; cbn; lia. Qed.

Lemma storeWrite_framed s :
  unstuck (storeWrite env s)
          (fun r => framed s (snd r) /\ fst r = storeErr env (writes s)).
Proof. cbn. repeat split; try reflexivity; cbn; lia. Qed.

Lemma runAction_framed (a : Action) (s : Sys) :
  unstuck (runAction env a s)
    (fun r => framed s (snd r) /\
              Retries (snd (fst r)) = Retries a /\
              Plugin (snd (fst r)) = Plugin a /\
              Req (snd (fst r)) = Req a /\ AName (snd (fst r)) = AName a /\
              Status_ (AState (snd (fst r))) =
                match fst (fst r) with
                | Some _ => Failed
                | None => Completed
                end).
Proof.
  pose proof (runAction_spec env a s) as H.
  destruct (registry env (Plugin a)) as [p|]; [|rewrite H; exact I].
  destruct H
    as (e & a' & s' & -> & Hr & Hp & Hq & Hn & _ & _ & Hs & Hsh & _ & Hle).
  cbn. repeat split; try assumption; apply Hsh.
Qed.

Lemma markRunning_framed (l : list Action) :
  forall s, unstuck (markRunning env l s)
              (fun r => framed s (snd r) /\ sameActions l (fst r) /\
                        Forall (fun a => Status_ (AState a) = Running) (fst r)).
Proof.
  induction l as [|a l IH]; intros s; cbn [markRunning].
  - cbn. split; [apply framed_refl|]. split; constructor.
  - unfold bind, now, storeWrite, fatal, ret. cbn [fst snd].
    destruct (storeErr env _); [exact I|].
    match goal with |- context [markRunning env l ?x] => specialize (IH x) end.
    destruct (markRunning env l _) as [[l' s']| | | |]; cbn in *; auto.
    destruct IH as (Hf & Hs & Hall). split; [|split].
    + eapply framed_trans; [|exact Hf]. repeat split; try reflexivity; cbn; lia.
    + constructor; [cbn; auto|exact Hs].
    + constructor; [reflexivity|exact Hall].
Qed.

Lemma runAll_framed (l : list Action) :
  forall s, unstuck (runAll env l s)
              (fun r => framed s (snd r) /\ sameActions l (snd (fst r))).
Proof.
  induction l as [|a l IH]; intros s; cbn [runAll].
  - cbn. split; [apply framed_refl|constructor].
  - unfold bind, ret.
    pose proof (runAction_framed a s) as Ha.
    destruct (runAction env a s) as [[[e a'] s1]| | | |]; cbn in Ha; auto.
    specialize (IH s1).
    destruct (runAll env l s1) as [[[es l'] s2]| | | |]; cbn in *; auto.
    destruct Ha as (Hf1 & ? & ? & ? & ? & _). destruct IH as (Hf2 & Hs).
    split; [eapply framed_trans; eassumption|].
    constructor; auto.
Qed.

Lemma sameActions_trans l1 l2 l3 :
  sameActions l1 l2 -> sameActions l2 l3 -> sameActions l1 l3.
Proof.
  unfold sameActions. intros H. revert l3.
  induction H as [|a b l1 l2 Hab _ IH]; intros l3 H3; inversion H3; subst;
    constructor; [|apply IH; assumption].
  intuition congruence.
Qed.

Lemma runChecks_framed (l : list Action) (s : Sys) :
  unstuck (runChecks env l s)
          (fun r => framed s (snd r) /\ sameActions l (snd (fst r))).
Proof.
  unfold runChecks.
  eapply unstuck_bind; [apply markRunning_framed|].
  intros l1 s1 (Hf1 & Hs1 & _). cbn [fst snd] in *.
  eapply unstuck_weaken; [apply runAll_framed|].
  intros [[e l2] s2] (Hf2 & Hs2). cbn [fst snd] in *.
  split; [eapply framed_trans; eassumption|].
  eapply sameActions_trans; eassumption.
Qed.

End FrameProofs.

(** ** runContChecks *)

Section ContChecksProofs.
Import sm sm_spec supervisor_spec.
Variable env : Env.

Lemma chSend_open (a : nat) (c : chan) (v : option error) (s : Sys) :
  chans s !! a = Some c -> closed c = false ->
  (length (buf c) < cap c)%nat ->
  chSend (Some a) v s = Ok (tt, afterSend a c v s).
Proof.
  intros Hc Ho Hr. unfold chSend, lookupChan. rewrite Hc.
  cbn [fmap option_fmap option_map]. rewrite Ho.
  destruct (Nat.ltb_spec (length (buf c)) (cap c)); [reflexivity|lia].
Qed.

Lemma chClose_open (a : nat) (c : chan) (s : Sys) :
  chans s !! a = Some c -> closed c = false ->
  chClose (Some a) s = Ok (tt, afterClose a c s).
Proof.
  intros Hc Ho. unfold chClose, lookupChan. rewrite Hc.
  cbn [fmap option_fmap option_map]. rewrite Ho. reflexivity.
Qed.

(** One round of the loop: the context is done. *)
Lemma contLoop_done fuel done n checks ch s :
  done n = true ->
  contLoop env (S fuel) done n checks ch s = Ok (checks, s).
Proof. intros H. cbn [contLoop]. rewrite H. reflexivity. Qed.

(** One round of the loop: the checks of the tick fail. *)
Lemma contLoop_fail fuel done n checks a c s e acts s2 :
  done n = false ->
  storeErr env (writes s) = None ->
  runChecks env (resetActions (Actions checks)) (setWrites (S (writes s)) s)
    = Ok ((Some e, acts), s2) ->
  chans s !! a = Some c -> closed c = false ->
  (length (buf c) < cap c)%nat ->
  contLoop env (S fuel) done n checks (Some a) s =
  Ok (Checks_withActions acts
        (Checks_withActions (resetActions (Actions checks)) checks),
      afterSend a c (Some e) s2).
Proof.
  intros Hd Hw Hr Hc Ho Hl. cbn [contLoop]. rewrite Hd.
  unfold bind, storeWrite, fatal, ret. rewrite Hw.
  cbn [Actions Checks_withActions]. rewrite Hr.
  pose proof (runChecks_framed env (resetActions (Actions checks))
                (setWrites (S (writes s)) s)) as Hf.
  rewrite Hr in Hf. cbn in Hf. destruct Hf as [[[Hch _] _] _].
  rewrite chSend_open with (c := c); [reflexivity| |assumption|assumption].
  rewrite Hch. exact Hc.
Qed.

(** One round of the loop: the checks of the tick pass. *)
Lemma contLoop_pass fuel done n checks ch s acts s2 :
  done n = false ->
  storeErr env (writes s) = None ->
  runChecks env (resetActions (Actions checks)) (setWrites (S (writes s)) s)
    = Ok ((None, acts), s2) ->
  storeErr env (writes s2) = None ->
  contLoop env (S fuel) done n checks ch s =
  contLoop env fuel done (S n)
           (Checks_withActions acts
              (Checks_withActions (resetActions (Actions checks)) checks))
           ch (setWrites (S (writes s2)) s2).
Proof.
  intros Hd Hw Hr Hw2. cbn [contLoop]. rewrite Hd.
  unfold bind, storeWrite, fatal, ret. rewrite Hw.
  cbn [Actions Checks_withActions]. rewrite Hr. rewrite Hw2. reflexivity.
Qed.

(** The loop publishes at most once, and returns right after. *)
Lemma contLoop_shape (a : nat) (c : chan) (fuel : nat) :
  forall done n checks s,
    chans s !! a = Some c -> closed c = false ->
    (length (buf c) < cap c)%nat ->
    match contLoop env fuel done n checks (Some a) s with
    | Ok (_, s') =>
        sameShared s s' \/
        exists e s2, sameShared s s2 /\ s' = afterSend a c (Some e) s2
    | Blocked => False
    | _ => True
    end.
Proof.
  induction fuel as [|fuel IH]; intros done n checks s Hc Ho Hl; [exact I|].
  cbn [contLoop]. destruct (done n); [left; apply sameShared_refl|].
  unfold bind, storeWrite, fatal, ret.
  destruct (storeErr env (writes s)); [exact I|].
  cbn [Actions Checks_withActions].
  pose proof (runChecks_framed env (resetActions (Actions checks))
                (setWrites (S (writes s)) s)) as Hf.
  destruct (runChecks env _ _) as [[[e acts] s2]| | | |]; cbn in Hf;
    try exact I; try contradiction.
  destruct Hf as [[Hsh _] _].
  assert (Hsh' : sameShared s s2) by exact Hsh.
  destruct e as [e|].
  - rewrite chSend_open with (c := c);
      [|destruct Hsh as [-> _]; exact Hc|assumption|assumption].
    right. exists e, s2. split; [exact Hsh'|reflexivity].
  - destruct (storeErr env (writes s2)); [exact I|].
    match goal with
    | |- context [contLoop env fuel done (S n) ?ck (Some a) ?x] =>
        specialize (IH done (S n) ck x)
    end.
    assert (Hsh2 : sameShared s (setWrites (S (writes s2)) s2)) by exact Hsh.
    destruct (contLoop env fuel done (S n) _ (Some a) _) as [[ck s3]| | | |];
      try exact I.
    + destruct IH as [H|(e & s4 & H & ->)];
        [rewrite (proj1 Hsh2); assumption|assumption|assumption| |].
      * left. eapply sameShared_trans; eassumption.
      * right. exists e, s4. split; [|reflexivity].
        eapply sameShared_trans; eassumption.
    + apply IH; [rewrite (proj1 Hsh2); assumption|assumption|assumption].
Qed.

(** With the context done at some round within the bound, the loop ends. *)
Lemma contLoop_ends (a : nat) (c : chan) (fuel : nat) :
  forall done n k checks s,
    chans s !! a = Some c -> closed c = false ->
    (length (buf c) < cap c)%nat ->
    done (n + k)%nat = true -> (k < fuel)%nat ->
    contLoop env fuel done n checks (Some a) s <> Diverge.
Proof.
  induction fuel as [|fuel IH]; intros done n k checks s Hc Ho Hl Hd Hk;
    [lia|].
  cbn [contLoop]. destruct (done n) eqn:Hn; [discriminate|].
  destruct k as [|k]; [rewrite Nat.add_0_r in Hd; congruence|].
  unfold bind, storeWrite, fatal, ret.
  destruct (storeErr env (writes s)); [discriminate|].
  cbn [Actions Checks_withActions].
  pose proof (runChecks_framed env (resetActions (Actions checks))
                (setWrites (S (writes s)) s)) as Hf.
  destruct (runChecks env _ _) as [[[e acts] s2]| | | |]; cbn in Hf;
    try discriminate; try contradiction.
  destruct Hf as [[Hsh _] _].
  destruct e as [e|].
  - rewrite chSend_open with (c := c);
      [discriminate|rewrite (proj1 Hsh); exact Hc|assumption|assumption].
  - destruct (storeErr env (writes s2)); [discriminate|].
    apply IH with (k := k); try assumption; [|rewrite <- Hd; f_equal; lia|lia].
    cbn. rewrite (proj1 Hsh). exact Hc.
Qed.

Lemma runContChecks_shape (a : nat) (c : chan) (s : Sys) :
  chans s !! a = Some c -> closed c = false ->
  (length (buf c) < cap c)%nat ->
  forall fuel done checks,
    match runContChecks env fuel done checks (Some a) s with
    | Ok (_, s') =>
        exists v, chlog s' = published a v ++ chlog s /\
                  chans s' = <[a := deliver v c]> (chans s) /\
                  closes a (chlog s') = S (closes a (chlog s)) /\
                  (publishes a (chlog s') <= S (publishes a (chlog s)))%nat
    | Blocked => False
    | _ => True
    end.
Proof.
  intros Hc Ho Hl fuel done checks. unfold runContChecks, bind, ret.
  pose proof (contLoop_shape a c fuel done 0%nat checks s Hc Ho Hl) as H.
  destruct (contLoop env fuel done 0 checks (Some a) s)
    as [[ck s1]| | | |]; try exact I; try contradiction.
  destruct H as [Hsh|(e & s2 & Hsh & ->)].
  - destruct Hsh as (E1 & _ & _ & E4 & _).
    rewrite chClose_open with (c := c); [|rewrite E1; exact Hc|exact Ho].
    exists None. unfold deliver, published, afterClose.
    cbn [chlog chans logEvent setChans closes publishes app].
    rewrite E1, E4, Nat.eqb_refl, app_nil_r.
    repeat split. lia.
  - destruct Hsh as (E1 & _ & _ & E4 & _).
    assert (Ha : (a < length (chans s2))%nat).
    { rewrite E1. eapply lookup_lt_Some. exact Hc. }
    rewrite chClose_open
      with (c := mkChan (buf c ++ [Some e]) (cap c) false);
      [|cbn; apply list_lookup_insert_eq; exact Ha|reflexivity].
    exists (Some e). unfold deliver, published, afterClose, afterSend.
    cbn [chlog chans logEvent setChans closes publishes app buf cap].
    rewrite list_insert_insert_eq, E1, E4, !Nat.eqb_refl.
    repeat split. lia.
Qed.

Lemma sameShared_setWrites n s : sameShared s (setWrites n s).
Proof. repeat split. Qed.

(** What the loop returns is what the ticks lead to. *)
Lemma contLoop_sound (a : nat) (c : chan) (fuel : nat) :
  forall done n checks s1 r s',
    chans s1 !! a = Some c -> closed c = false ->
    (length (buf c) < cap c)%nat ->
    contLoop env fuel done n checks (Some a) s1 = Ok (r, s') ->
    exists v s2,
      ticks env done n checks s1 v r s2 /\ sameShared s1 s2 /\
      s' = match v with
           | None => s2
           | Some e => afterSend a c (Some e) s2
           end.
Proof.
  induction fuel as [|fuel IH]; intros done n checks s1 r s' Hc Ho Hl;
    [discriminate|].
  cbn [contLoop]. destruct (done n) eqn:Hd.
  - intros [= <- <-]. exists None, s1.
    split; [apply ticks_done, Hd|]. split; [apply sameShared_refl|reflexivity].
  - unfold bind, storeWrite, fatal, ret.
    destruct (storeErr env (writes s1)) eqn:Hw; [discriminate|].
    cbn [Actions Checks_withActions].
    pose proof (runChecks_framed env (resetActions (Actions checks))
                  (setWrites (S (writes s1)) s1)) as Hf.
    destruct (runChecks env _ _) as [[[e acts] s2]| | | |] eqn:Hr;
      cbn in Hf; try discriminate.
    destruct Hf as [[Hsh _] _].
    assert (Hsh1 : sameShared s1 s2) by exact Hsh.
    destruct e as [e|].
    + rewrite chSend_open with (c := c);
        [|rewrite (proj1 Hsh1); exact Hc|assumption|assumption].
      intros [= <- <-]. exists (Some e), s2.
      split; [exact (ticks_fail env done n checks s1 e acts s2 Hd Hw Hr)|].
      split; [exact Hsh1|reflexivity].
    + destruct (storeErr env (writes s2)) eqn:Hw2; [discriminate|].
      intros Hrec. apply IH in Hrec;
        [|cbn; rewrite (proj1 Hsh1); exact Hc|assumption|assumption].
      destruct Hrec as (v & s3 & Ht & Hsh3 & ->).
      exists v, s3.
      split; [exact (ticks_pass env done n checks s1 acts s2 v r s3
                               Hd Hw Hr Hw2 Ht)|].
      split; [|reflexivity].
      eapply sameShared_trans; [exact Hsh1|exact Hsh3].
Qed.

(** What the ticks lead to is what the loop returns, given rounds
    enough. *)
Lemma contLoop_complete (a : nat) (c : chan) done n checks s1 v r s2 :
  ticks env done n checks s1 v r s2 ->
  chans s1 !! a = Some c -> closed c = false ->
  (length (buf c) < cap c)%nat ->
  sameShared s1 s2 /\
  exists fuel,
    contLoop env fuel done n checks (Some a) s1 =
    Ok (r, match v with
           | None => s2
           | Some e => afterSend a c (Some e) s2
           end).
Proof.
  induction 1 as [n checks s Hd|n checks s e acts s2 Hd Hw Hr
                 |n checks s acts s2 v checks' s' Hd Hw Hr Hw2 Ht IH];
    intros Hc Ho Hl.
  - split; [apply sameShared_refl|]. exists 1%nat. apply contLoop_done, Hd.
  - pose proof (runChecks_framed env (resetActions (Actions checks))
                  (setWrites (S (writes s)) s)) as Hf.
    rewrite Hr in Hf. cbn in Hf. destruct Hf as [[Hsh _] _].
    split; [exact Hsh|]. exists 1%nat.
    apply contLoop_fail; assumption.
  - pose proof (runChecks_framed env (resetActions (Actions checks))
                  (setWrites (S (writes s)) s)) as Hf.
    rewrite Hr in Hf. cbn in Hf. destruct Hf as [[Hsh _] _].
    assert (Hsh1 : sameShared s s2) by exact Hsh.
    destruct IH as [Hsh3 [fuel Hfuel]];
      [cbn; rewrite (proj1 Hsh1); exact Hc|assumption|assumption|].
    split; [eapply sameShared_trans; [exact Hsh1|exact Hsh3]|].
    exists (S fuel).
    rewrite (contLoop_pass fuel done n checks (Some a) s acts s2 Hd Hw Hr Hw2).
    exact Hfuel.
Qed.

(** The close that follows the loop. *)
Lemma handedOver_spec (a : nat) (c : chan) (s s2 : Sys) (v : option error) :
  chans s !! a = Some c -> closed c = false -> sameShared s s2 ->
  chClose (Some a)
          match v with
          | None => s2
          | Some e => afterSend a c (Some e) s2
          end = Ok (tt, handedOver a c v s2) /\
  chlog (handedOver a c v s2) = published a v ++ chlog s /\
  chans (handedOver a c v s2) = <[a := deliver v c]> (chans s) /\
  closes a (chlog (handedOver a c v s2)) = S (closes a (chlog s)) /\
  publishes a (chlog (handedOver a c v s2))
  = (publishes a (chlog s) + sent v)%nat.
Proof.
  intros Hc Ho (E1 & _ & _ & E4 & _). destruct v as [e|].
  - assert (Ha : (a < length (chans s2))%nat).
    { rewrite E1. eapply lookup_lt_Some. exact Hc. }
    split.
    + apply chClose_open; [|reflexivity].
      cbn. apply list_lookup_insert_eq. exact Ha.
    + unfold handedOver, deliver, published, afterClose, afterSend, sent.
      cbn [chlog chans logEvent setChans closes publishes app buf cap].
      rewrite list_insert_insert_eq, E1, E4, !Nat.eqb_refl.
      repeat split. lia.
  - split.
    + apply chClose_open; [rewrite E1; exact Hc|exact Ho].
    + unfold handedOver, deliver, published, afterClose, sent.
      cbn [chlog chans logEvent setChans closes publishes app].
      rewrite E1, E4, Nat.eqb_refl, app_nil_r.
      repeat split. lia.
Qed.

End ContChecksProofs.

Section ContChecksClaims.
Import sm sm_spec supervisor_spec.

(** C8. The supervisor runs on a result channel that is open and has room,
    as [Start] makes it. It never blocks on the channel. Whenever
    [runContChecks] returns, the ticks have passed one after the other up
    to the first tick whose checks returned an error, or up to the round
    at which the context was found done; in the first case that error, and
    nothing else, has been sent on the channel, in the second nothing has
    been sent; in both the channel has then been closed, once. Conversely,
    when the ticks lead to a failing tick the supervisor returns having
    sent the error of that tick and closed the channel, and when they lead
    to a done context it returns having closed the channel with nothing
    sent. With the context done at some round the supervisor comes to an
    end. ([log.Fatalf] after a failed storage write ends the process, not
    the supervisor.) *)
Theorem supervisor_publishes_once (env : Env) (a : nat) (c : chan) (s : Sys)
        (Hc : chans s !! a = Some c) (Ho : closed c = false)
        (Hl : (length (buf c) < cap c)%nat) :
  (forall fuel done checks,
      runContChecks env fuel done checks (Some a) s <> Blocked) /\
  (forall fuel done checks r s',
      runContChecks env fuel done checks (Some a) s = Ok (r, s') ->
      exists v s2,
        ticks env done 0 checks s v r s2 /\
        s' = handedOver a c v s2 /\
        chlog s' = published a v ++ chlog s /\
        chans s' = <[a := deliver v c]> (chans s) /\
        closes a (chlog s') = S (closes a (chlog s)) /\
        publishes a (chlog s') = (publishes a (chlog s) + sent v)%nat) /\
  (forall done checks v r s2,
      ticks env done 0 checks s v r s2 ->
      exists fuel,
        runContChecks env fuel done checks (Some a) s
        = Ok (r, handedOver a c v s2) /\
        chlog (handedOver a c v s2) = published a v ++ chlog s /\
        chans (handedOver a c v s2) = <[a := deliver v c]> (chans s)) /\
  (forall fuel done n checks,
      done n = true -> (n < fuel)%nat ->
      runContChecks env fuel done checks (Some a) s <> Diverge).
Proof.
  split; [|split; [|split]].
  - intros fuel done checks E.
    pose proof (runContChecks_shape env a c s Hc Ho Hl fuel done checks) as H.
    rewrite E in H. exact H.
  - intros fuel done checks r s'. unfold runContChecks, bind, ret.
    destruct (contLoop env fuel done 0 checks (Some a) s)
      as [[ck s1]| | | |] eqn:E; try discriminate.
    destruct (contLoop_sound env a c fuel done 0%nat checks s ck s1
                             Hc Ho Hl E) as (v & s2 & Ht & Hsh & ->).
    destruct (handedOver_spec a c s s2 v Hc Ho Hsh)
      as (Hclose & H1 & H2 & H3 & H4).
    rewrite Hclose. intros [= <- <-].
    exists v, s2. repeat split; assumption.
  - intros done checks v r s2 Ht.
    destruct (contLoop_complete env a c done 0%nat checks s v r s2 Ht
                                Hc Ho Hl) as [Hsh [fuel Hfuel]].
    destruct (handedOver_spec a c s s2 v Hc Ho Hsh)
      as (Hclose & H1 & H2 & _).
    exists fuel. split; [|split; assumption].
    unfold runContChecks, bind, ret. rewrite Hfuel, Hclose. reflexivity.
  - intros fuel done n checks Hd Hn. unfold runContChecks, bind.
    pose proof (contLoop_ends env a c fuel done 0%nat n checks s Hc Ho Hl Hd Hn)
      as He.
    pose proof (contLoop_shape env a c fuel done 0%nat checks s Hc Ho Hl) as Hs.
    destruct (contLoop env fuel done 0 checks (Some a) s)
      as [[ck s1]| | | |]; try discriminate; try contradiction.
    destruct Hs as [Hsh|(e & s2 & Hsh & ->)].
    + rewrite chClose_open with (c := c);
        [discriminate|rewrite (proj1 Hsh); exact Hc|exact Ho].
    + rewrite chClose_open
        with (c := mkChan (buf c ++ [Some e]) (cap c) false);
        [discriminate| |reflexivity].
      cbn. apply list_lookup_insert_eq. rewrite (proj1 Hsh).
      eapply lookup_lt_Some. exact Hc.
Qed.

(** On [oneChannel], with checks that fail at the first tick and a context
    that is never done, the supervisor returns having sent the error of
    that tick and closed the channel; with a context done from the start
    it returns having closed the channel and sent nothing. *)
Lemma supervisor_publishes_once_witness :
  chans oneChannel !! 0%nat = Some (mkChan [] 1 false) /\
  (exists e fuel r s',
     fst (fst failingTick) = Some e /\
     runContChecks testEnv fuel (fun _ => false) (testChecks "error")
                   (Some 0%nat) oneChannel = Ok (r, s') /\
     chlog s' = [evClose 0; evSend 0 (Some e)] /\
     chans s' = [mkChan [Some e] 1 true]) /\
  (exists fuel r s',
     runContChecks testEnv fuel (fun _ => true) (testChecks "error")
                   (Some 0%nat) oneChannel = Ok (r, s') /\
     chlog s' = [evClose 0] /\
     chans s' = [mkChan [] 1 true]).
Proof.
  split; [reflexivity|].
  destruct (supervisor_publishes_once testEnv 0%nat (mkChan [] 1 false)
              oneChannel eq_refl eq_refl (le_n 1))
    as (_ & _ & Hcomp & _).
  split.
  - destruct (fst (fst failingTick)) as [e|] eqn:Ee; [|discriminate Ee].
    assert (Ht : ticks testEnv (fun _ => false) 0 (testChecks "error")
                       oneChannel (Some e)
                       (ticked (snd (fst failingTick)) (testChecks "error"))
                       (snd failingTick)).
    { apply ticks_fail; [reflexivity|reflexivity|].
      vm_compute in Ee. injection Ee as <-. vm_compute. reflexivity. }
    destruct (Hcomp _ _ _ _ _ Ht) as (fuel & H1 & H2 & H3).
    exists e, fuel. do 2 eexists. split; [reflexivity|].
    split; [exact H1|]. split; [exact H2|exact H3].
  - destruct (Hcomp (fun _ => true) (testChecks "error") None
                    (testChecks "error") oneChannel
                    (ticks_done testEnv _ 0 _ _ eq_refl))
      as (fuel & H1 & H2 & H3).
    exists fuel. do 2 eexists. split; [exact H1|].
    split; [exact H2|exact H3].
Defined.

End ContChecksClaims.

(** ** The states of a block and of the plan *)

Section StateProofs.
Import sm sm_spec.
Variable env : Env.

Lemma head_eq (req : Request) (h : block) (hs : list block) (b : Block)
      (s : Sys) :
  blocks (Data_ req) = h :: hs ->
  Blocks (Plan (Data_ req)) !! block_ h = Some b ->
  head req s = Ok ((h, b), s).
Proof. intros Hh Hb. unfold head. rewrite Hh, Hb. reflexivity. Qed.

Lemma blockStatus_updBlock (i : nat) (f : Block -> Block) (req : Request)
      (b : Block) :
  Blocks (Plan (Data_ req)) !! i = Some b ->
  blockStatus i (updBlock i f req) = Some (Status_ (BState (f b))).
Proof.
  intros Hb. unfold blockStatus, updBlock, setPlan, setData. cbn.
  rewrite list_lookup_alter_eq, Hb. reflexivity.
Qed.

End StateProofs.

Section StateClaims.
Import sm sm_spec.

(** What [BlockEnd] writes when the cancel and the receive return: the
    block is [Completed] when the value read is nil and [Failed] otherwise.
    A request with such a handle is built by hand: the handles of a run
    have no cancel function. *)
Lemma block_end_status (env : Env) (req : Request) (h : block)
        (hs : list block) (b : Block) (s s1 s2 : Sys) (v : option error)
        (Hh : blocks (Data_ req) = h :: hs)
        (Hb : Blocks (Plan (Data_ req)) !! block_ h = Some b)
        (Hcancel : callCancel env (contCancel h) s = Ok (tt, s1))
        (Hrecv : chRecv env (contCheckResult h) s1 = Ok (v, s2)) :
  exists r s3,
    BlockEnd env req s = Ok (r, s3) /\
    blockStatus (block_ h) r =
      Some (match v with None => Completed | Some _ => Failed end).
Proof.
  unfold BlockEnd, bind. rewrite (head_eq req h hs b s Hh Hb).
  rewrite Hcancel, Hrecv. unfold storeWrite, ret.
  destruct v as [e|]; destruct (storeErr env (writes s2));
    do 2 eexists; (split; [reflexivity|]);
    unfold blockStatus, setNext, setBlocks, setData; cbn [Data_ Plan];
    fold (blockStatus (block_ h)
            (updBlock (block_ h) (Block_withState (setStatus Failed)) req));
    fold (blockStatus (block_ h)
            (updBlock (block_ h) (Block_withState (setStatus Completed)) req));
    rewrite blockStatus_updBlock with (b := b) by exact Hb; reflexivity.
Qed.

(** C3, at the failing input and beyond. For a block without continuous
    checks [BlockPreChecks] goes on to [BlockStartContChecks] and leaves the
    request and the process as they were: no plugin is invoked and no action
    is touched, whether the block has pre-checks or not. *)
Theorem block_prechecks_need_contchecks (env : Env) (req : Request)
        (h : block) (hs : list block) (b : Block) (s : Sys)
        (Hh : blocks (Data_ req) = h :: hs)
        (Hb : Blocks (Plan (Data_ req)) !! block_ h = Some b)
        (Hcont : BContChecks b = None) :
  BlockPreChecks env req s =
  Ok (setNext (Some sBlockStartContChecks) req, s).
Proof.
  unfold BlockPreChecks, bind. rewrite (head_eq req h hs b s Hh Hb).
  rewrite Hcont. reflexivity.
Qed.

Lemma block_prechecks_need_contchecks_witness :
  BPreChecks preCheckedBlock = Some (testChecks "ok") /\
  BlockPreChecks testEnv
     (requestOn (planOf [preCheckedBlock]) (mkBlockH 0 None (Some 0%nat)))
     oneChannel =
  Ok (setNext (Some sBlockStartContChecks)
        (requestOn (planOf [preCheckedBlock]) (mkBlockH 0 None (Some 0%nat))),
      oneChannel).
Proof.
  split; [reflexivity|].
  exact (block_prechecks_need_contchecks testEnv
           (requestOn (planOf [preCheckedBlock]) (mkBlockH 0 None (Some 0%nat)))
           (mkBlockH 0 None (Some 0%nat)) [] preCheckedBlock oneChannel
           eq_refl eq_refl eq_refl).
Defined.

(** The sibling state of the plan runs pre-checks that come without
    continuous checks. *)
Lemma plan_prechecks_run_alone :
  match PlanPreChecks testEnv
          (mkRequest (mkData (mkPlan "plan" (Some (testChecks "ok")) None None
                                     [] (mkState Started 0%nat 0%nat)
                                     FRUnknown)
                             [] None None) None None)
          Sys0 with
  | Ok (r, s) =>
      calls s = 1%nat /\
      (fun c => (fun a => Status_ (AState a)) <$> Actions c)
        <$> PreChecks (Plan (Data_ r)) = Some [Completed]
  | _ => False
  end.
Proof. vm_compute. split; reflexivity. Qed.

(** C4, at the failing input. One tolerated failure, concurrency 1,
    sequences that fail, succeed and fail: whatever the pace of the pool,
    [ExecuteSequences] submits the three sequences, the plugin is invoked
    three times, and the state goes on to [BlockPostChecks] with the block
    still [Running]: the failures are compared with the tolerated ones
    before a submission only, never after the last one. *)
Theorem tolerated_failures_unchecked_after_last
        (pk : nat -> bool) (seen : nat -> nat -> bool)
        (tr : nat -> option (nat * error)) :
  match ExecuteSequences
          (mkEnv (only testPlugin) (fun _ => None) (fun _ => false) pk seen tr)
          (requestOn (planOf [toleratedBlock]) (mkBlockH 0 None None))
          Sys0 with
  | Ok (r, s) =>
      calls s = 3%nat /\
      sequenceStatuses 0 r = [Failed; Completed; Failed] /\
      blockStatus 0 r = Some Running /\
      Next r = Some sBlockPostChecks
  | _ => False
  end.
Proof.
  vm_compute.
  destruct (seen 1%nat 0%nat), (seen 2%nat 0%nat); vm_compute;
    repeat split; reflexivity.
Qed.

(** The check works before a submission: with two failures counted, the
    third sequence is not submitted and the block is [Failed]. *)
Lemma tolerated_failures_checked_before_submission :
  match ExecuteSequences testEnv
          (requestOn
             (planOf [Block_withSequences
                        [testSequence "error"; testSequence "error";
                         testSequence "success"] toleratedBlock])
             (mkBlockH 0 None None))
          Sys0 with
  | Ok (r, s) =>
      calls s = 2%nat /\
      sequenceStatuses 0 r = [Failed; Failed; NotStarted] /\
      blockStatus 0 r = Some Failed /\
      Next r = None
  | _ => False
  end.
Proof. vm_compute. repeat split; reflexivity. Qed.

(** C10, as amended. Neither [PlanPostChecks] nor [BlockPostChecks] guards
    its access to [PostChecks]: with [PostChecks] nil the state panics on
    the nil pointer whenever it gets past the continuous checks, that is,
    when there are none or when the cancel function is called and the value
    read from the result channel is nil. The state never skips the
    post-checks: when it returns, it has returned on the error read from the
    result channel. *)
Theorem postchecks_nil_dereferenced (env : Env) (req : Request) (s : Sys) :
  (PostChecks (Plan (Data_ req)) = None ->
   (ContChecks (Plan (Data_ req)) = None ->
    PlanPostChecks env req s = Panic nilDeref) /\
   (forall s1 s2,
       callCancel env (dContCancel (Data_ req)) s = Ok (tt, s1) ->
       chRecv env (dContCheckResult (Data_ req)) s1 = Ok (None, s2) ->
       PlanPostChecks env req s = Panic nilDeref) /\
   (forall r s',
       PlanPostChecks env req s = Ok (r, s') ->
       r = req /\ is_Some (ContChecks (Plan (Data_ req))))) /\
  (forall h hs b,
      blocks (Data_ req) = h :: hs ->
      Blocks (Plan (Data_ req)) !! block_ h = Some b ->
      BPostChecks b = None ->
      (BContChecks b = None ->
       BlockPostChecks env req s = Panic nilDeref) /\
      (forall s1 s2,
          callCancel env (contCancel h) s = Ok (tt, s1) ->
          chRecv env (contCheckResult h) s1 = Ok (None, s2) ->
          BlockPostChecks env req s = Panic nilDeref) /\
      (forall r s',
          BlockPostChecks env req s = Ok (r, s') ->
          r = updBlock (block_ h) (Block_withState (setStatus Failed)) req /\
          Next r = Next req /\
          is_Some (BContChecks b))).
Proof.
  split.
  - intros Hpost. unfold PlanPostChecks, bind, ret. rewrite Hpost.
    split; [|split].
    + intros ->. reflexivity.
    + intros s1 s2 Hc Hr.
      destruct (ContChecks (Plan (Data_ req))); [|reflexivity].
      rewrite Hc, Hr. reflexivity.
    + intros r s'. destruct (ContChecks (Plan (Data_ req))); [|discriminate].
      destruct (callCancel env _ s) as [[[] s1]| | | |]; try discriminate.
      destruct (chRecv env _ s1) as [[[e|] s2]| | | |]; try discriminate.
      cbn. intros [= <- <-]. split; [reflexivity|eexists; reflexivity].
  - intros h hs b Hh Hb Hpost. unfold BlockPostChecks, bind, ret.
    rewrite (head_eq req h hs b s Hh Hb). rewrite Hpost.
    split; [|split].
    + intros ->. reflexivity.
    + intros s1 s2 Hc Hr.
      destruct (BContChecks b); [|reflexivity].
      rewrite Hc, Hr. reflexivity.
    + intros r s'. destruct (BContChecks b); [|discriminate].
      destruct (callCancel env _ s) as [[[] s1]| | | |]; try discriminate.
      destruct (chRecv env _ s1) as [[[e|] s2]| | | |]; try discriminate.
      cbn. intros [= <- <-].
      split; [reflexivity|]. split; [reflexivity|eexists; reflexivity].
Qed.

Lemma postchecks_nil_dereferenced_witness :
  PostChecks (planOf []) = None /\
  PlanPostChecks testEnv (planRequest (planOf [])) Sys0 = Panic nilDeref.
Proof.
  split; [reflexivity|].
  exact (proj1 (proj1 (postchecks_nil_dereferenced
                         testEnv (planRequest (planOf [])) Sys0)
                      eq_refl) eq_refl).
Defined.

(** C10, as stated, fails: with continuous checks that have failed, a plan
    and a block without post-checks leave the post-check state by its early
    return, with no nil pointer dereferenced. *)
Lemma postchecks_not_reached_after_contcheck_failure :
  PostChecks contCheckedPlan = None /\
  match PlanPostChecks testEnv (planRequest contCheckedPlan)
                       (closedChannel (Some (errorString "error"))) with
  | Ok (r, _) => r = planRequest contCheckedPlan
  | _ => False
  end /\
  BPostChecks contCheckedBlock = None /\
  match BlockPostChecks testEnv
          (requestOn (planOf [contCheckedBlock])
                     (mkBlockH 0 (Some 0%nat) (Some 0%nat)))
          (closedChannel (Some (errorString "error"))) with
  | Ok (r, _) => blockStatus 0 r = Some Failed /\ Next r = None
  | _ => False
  end.
Proof.
  split; [reflexivity|]. split; [vm_compute; reflexivity|].
  split; [reflexivity|]. vm_compute. split; reflexivity.
Qed.
End StateClaims.

(** ** The runs of the machine *)

Section RunProofs.
Import sm sm_spec.
Variable env : Env.

Lemma steps_reaches (n : nat) :
  forall req s x, steps env n req s = Ok x -> reaches env (req, s) x.
Proof.
  induction n as [|n IH]; intros req s x; cbn [steps].
  - intros [= <-]. constructor.
  - destruct (Err req) eqn:He; [intros [= <-]; constructor|].
    destruct (Next req) as [st|] eqn:Hn; [|intros [= <-]; constructor].
    unfold bind.
    destruct (exec env st (setNext None req) s) as [[r s1]| | | |] eqn:Hx;
      try discriminate.
    intros H. eapply reaches_step; eauto.
Qed.

Lemma idle_framed a s s' : framed s s' -> idle a s -> idle a s'.
Proof.
  intros [(E1 & _ & E3 & _) _] [H1 H2]. split; [rewrite E1|rewrite E3];
    assumption.
Qed.

Lemma settle1_spawned sup s : spawned (settle1 env s sup) = spawned s.
Proof.
  unfold settle1. destruct (chans s !! supCh sup) as [c|]; [|reflexivity].
  destruct (closed c); [reflexivity|].
  destruct (verdict env s sup) as [[e|]|]; reflexivity.
Qed.

Lemma settle1_idle a sup s :
  supCh sup <> a -> idle a s -> idle a (settle1 env s sup).
Proof.
  intros E [H1 H2]. split; [|rewrite settle1_spawned; exact H2].
  unfold settle1.
  destruct (chans s !! supCh sup) as [c|] eqn:Hc; [|assumption].
  destruct (closed c); [assumption|].
  destruct (verdict env s sup) as [[e|]|]; cbn; try assumption;
    rewrite list_lookup_insert_ne by exact E; assumption.
Qed.

Lemma fold_settle_spawned l :
  forall s, spawned (fold_left (settle1 env) l s) = spawned s.
Proof.
  induction l as [|sup l IH]; intros s; cbn; [reflexivity|].
  rewrite IH. apply settle1_spawned.
Qed.

Lemma fold_settle_idle a l :
  forall s, Forall (fun sup => supCh sup <> a) l -> idle a s ->
            idle a (fold_left (settle1 env) l s).
Proof.
  induction l as [|sup l IH]; intros s Hl Hi; cbn; [exact Hi|].
  inversion Hl; subst. apply IH; [assumption|].
  apply settle1_idle; assumption.
Qed.

Lemma settle_spawned s : spawned (settle env s) = spawned s.
Proof. apply fold_settle_spawned. Qed.

Lemma settle_idle a s : idle a s -> idle a (settle env s).
Proof.
  intros Hi. apply fold_settle_idle; [|exact Hi].
  destruct Hi as [_ H2]. apply Forall_forall. intros sup Hin E.
  apply H2. apply list_elem_of_fmap. exists sup. split; [symmetry; exact E|].
  exact Hin.
Qed.

Lemma idle_not_ready a s : idle a s -> recvNow (Some a) s = None.
Proof.
  intros [H1 _]. unfold recvNow, lookupChan. rewrite H1. reflexivity.
Qed.

Lemma idle_setPolls a n s : idle a s -> idle a (setPolls n s).
Proof. intros H. exact H. Qed.

Lemma idle_setClock a n s : idle a s -> idle a (setClock n s).
Proof. intros H. exact H. Qed.

Lemma recvNow_idle a ch s v s' :
  recvNow ch s = Some (v, s') -> idle a s -> idle a s'.
Proof.
  intros Hr Hi. unfold recvNow, lookupChan in Hr.
  destruct ch as [a'|]; [|discriminate].
  destruct (chans s !! a') as [c|] eqn:Hc; [|discriminate]. cbn in Hr.
  destruct (take c) as [[v' c']|] eqn:Ht; [|discriminate].
  injection Hr as <- <-.
  assert (a' <> a) as E.
  { intros ->. destruct Hi as [H1 _]. rewrite H1 in Hc. injection Hc as <-.
    discriminate Ht. }
  destruct Hi as [H1 H2]. split; cbn; [|exact H2].
  rewrite list_lookup_insert_ne by exact E. exact H1.
Qed.

Lemma chRecv_idle a ch s v s' :
  chRecv env ch s = Ok (v, s') -> idle a s -> idle a s'.
Proof.
  unfold chRecv. intros Hr Hi. apply settle_idle in Hi.
  destruct (recvNow ch (settle env s)) as [[v1 s1]|] eqn:H1.
  - injection Hr as <- <-. eapply recvNow_idle; eassumption.
  - destruct (lookupChan (settle env s) ch) as [[a' c]|]; [|discriminate].
    destruct (bool_decide _); [|discriminate].
    destruct (trip env a') as [[t e]|]; [|discriminate].
    destruct (recvNow ch (settle env (setClock _ (settle env s))))
      as [[v2 s2]|] eqn:H2; [|discriminate].
    injection Hr as <- <-. eapply recvNow_idle; [exact H2|].
    apply settle_idle. exact Hi.
Qed.

Lemma chRecv_idle_blocked a s : idle a s -> chRecv env (Some a) s = Blocked.
Proof.
  intros Hi. unfold chRecv. pose proof (settle_idle a s Hi) as Hs.
  rewrite (idle_not_ready a _ Hs).
  destruct Hs as [H1 H2]. unfold lookupChan. rewrite H1. cbn.
  rewrite bool_decide_eq_false_2 by exact H2. reflexivity.
Qed.

Lemma callCancel_idle a f s s' :
  callCancel env f s = Ok (tt, s') -> idle a s -> idle a s'.
Proof.
  destruct f as [c|]; [|discriminate]. cbn. intros [= <-] Hi.
  apply settle_idle in Hi. exact Hi.
Qed.

Lemma selected_idle a ot ch s r s' :
  selected ot ch s = Ok (r, s') -> idle a s -> idle a s'.
Proof.
  unfold selected. destruct (recvNow ch s) as [[v s1]|] eqn:H.
  - intros [= <- <-]. eapply recvNow_idle; eassumption.
  - intros [= <- <-]. auto.
Qed.

Lemma contChecks_idle a d s r s' :
  contChecks env d s = Ok (r, s') -> idle a s -> idle a s'.
Proof.
  unfold contChecks. intros H Hi. apply settle_idle in Hi.
  apply (idle_setPolls a (S (polls (settle env s)))) in Hi.
  destruct (blocks d) as [|h hs].
  - destruct (isReady _ _); [eapply selected_idle; eassumption|].
    injection H as <- <-. exact Hi.
  - destruct (isReady _ (dContCheckResult d)), (isReady _ (contCheckResult h));
      cbn in H; try destruct (pick env _);
      try (eapply selected_idle; eassumption).
    injection H as <- <-. exact Hi.
Qed.

Lemma keeps_refl s : keeps s s.
Proof. intros a H. exact H. Qed.

Lemma keeps_trans s1 s2 s3 : keeps s1 s2 -> keeps s2 s3 -> keeps s1 s3.
Proof. intros H1 H2 a H. apply H2, H1, H. Qed.

Lemma framed_keeps s s' : framed s s' -> keeps s s'.
Proof. intros H a. apply idle_framed. exact H. Qed.

Lemma storeWrite_keeps s : keeps s (setWrites (S (writes s)) s).
Proof. intros a H. exact H. Qed.

Lemma sameHandles_refl req : sameHandles req req.
Proof. repeat split. intros i b H1 H2. exists b. auto. Qed.

Lemma sameHandles_trans r1 r2 r3 :
  sameHandles r1 r2 -> sameHandles r2 r3 -> sameHandles r1 r3.
Proof.
  intros (A1 & A2 & A3 & A4) (B1 & B2 & B3 & B4).
  repeat split; try congruence.
  intros i b' H1 H2. destruct (B4 i b' H1 H2) as (b & H3 & H4).
  exact (A4 i b H3 H4).
Qed.

Lemma sameHandles_setNext n req : sameHandles req (setNext n req).
Proof. repeat split. intros i b H1 H2. exists b. auto. Qed.

Lemma sameHandles_updBlock i f req :
  (forall b, BContChecks (f b) = None -> BContChecks b = None) ->
  sameHandles req (updBlock i f req).
Proof.
  intros Hf. unfold sameHandles, updBlock, setPlan, setData. cbn.
  repeat split; [apply length_alter|].
  intros j b' H1 H2. destruct (decide (i = j)) as [->|E].
  - rewrite list_lookup_alter_eq in H1.
    destruct (Blocks (Plan (Data_ req)) !! j) as [b|]; [|discriminate].
    injection H1 as <-. exists b. split; [reflexivity|]. apply Hf, H2.
  - rewrite list_lookup_alter_ne in H1 by exact E. exists b'. auto.
Qed.

Lemma sameHandles_setPlan p req :
  Blocks p = Blocks (Plan (Data_ req)) -> sameHandles req (setPlan p req).
Proof.
  intros E. unfold sameHandles, setPlan, setData. cbn. rewrite E.
  repeat split. eauto.
Qed.

Lemma handlesKept_step req s r s' :
  handlesKept req s -> sameHandles req r -> keeps s s' -> handlesKept r s'.
Proof.
  intros (L & H1 & H2 & H3) (A1 & A2 & A3 & A4) Hk. exists L.
  rewrite A1, A2, A3. split; [assumption|]. split; [assumption|].
  intros i b' Hb Hc. destruct (A4 i b' Hb Hc) as (b & Hb' & Hc').
  apply Hk. exact (H3 i b Hb' Hc').
Qed.

Lemma runPreChecks_framed pre cont s :
  unstuck (runPreChecks env pre cont s)
          (fun r => framed s (snd r) /\
                    (is_Some cont -> is_Some (snd (fst r)))).
Proof.
  unfold runPreChecks.
  assert (Hgen :
    unstuck
      (bind
         match pre with
         | Some pc =>
             bind (runChecks env (Actions pc))
                  (fun '(err, actions) =>
                     ret (err, Some (Checks_withActions actions pc)))
         | None => ret (None, None)
         end
         (fun '(preErr, preChecks) =>
            let preCheckFail := bool_decide (is_Some preErr) in
            bind
              match cont with
              | Some cc =>
                  bind (runChecks env (Actions cc))
                       (fun '(err, actions) =>
                          ret (err, Some (Checks_withActions actions cc)))
              | None => ret (None, None)
              end
              (fun '(contErr, contChecks) =>
                 match match preErr with
                       | Some e => Some e
                       | None => contErr
                       end with
                 | Some e =>
                     if preCheckFail
                     then ret (true, Some e, preChecks, contChecks)
                     else ret (false, Some e, preChecks, contChecks)
                 | None => ret (false, None, preChecks, contChecks)
                 end)) s)
      (fun r => framed s (snd r) /\
                (is_Some cont -> is_Some (snd (fst r))))).
  { eapply unstuck_bind with (P := fun r => framed s (snd r)).
    - destruct pre as [pc|]; [|cbn; apply framed_refl].
      eapply unstuck_bind; [apply runChecks_framed|].
      intros [e l] s1 [H _]. cbn. exact H.
    - intros [preErr pre'] s1 H1. cbn [snd] in H1.
      eapply unstuck_bind
        with (P := fun r => framed s1 (snd r) /\
                            (is_Some cont -> is_Some (snd (fst r)))).
      + destruct cont as [cc|].
        * eapply unstuck_bind; [apply runChecks_framed|].
          intros [e l] s2 [H _]. cbn. split; [exact H|]. intros _. eauto.
        * cbn. split; [apply framed_refl|]. intros [? [=]].
      + intros [contErr cont'] s2 [H2 H3]. cbn [fst snd] in *.
        assert (Hf : framed s s2) by (eapply framed_trans; eassumption).
        destruct preErr, contErr; cbn; split; assumption. }
  destruct pre, cont; exact Hgen.
Qed.

Lemma whenOk_bind {A B} (m : M A) (k : A -> M B) (s : Sys)
      (P : A * Sys -> Prop) (Q : B * Sys -> Prop) :
  whenOk (m s) P ->
  (forall a s', P (a, s') -> whenOk (k a s') Q) ->
  whenOk (bind m k s) Q.
Proof.
  unfold whenOk, bind. intros Hm Hk b.
  destruct (m s) as [[a s']| | | |]; try discriminate.
  apply Hk. apply Hm. reflexivity.
Qed.

Lemma unstuck_whenOk {A} (r : result A) (P : A -> Prop) :
  unstuck r P -> whenOk r P.
Proof. intros H a ->. exact H. Qed.

Lemma whenOk_ret {A} (a : A) (s : Sys) (P : A * Sys -> Prop) :
  P (a, s) -> whenOk (ret a s) P.
Proof. intros H x [= <-]. exact H. Qed.

Lemma whenOk_weaken {A} (r : result A) (P Q : A -> Prop) :
  whenOk r P -> (forall a, P a -> Q a) -> whenOk r Q.
Proof. intros H HPQ a E. apply HPQ, H, E. Qed.

Lemma execActions_framed (l : list Action) :
  forall s, unstuck (execActions env l s) (fun r => framed s (snd r)).
Proof.
  induction l as [|a l IH]; intros s; cbn [execActions].
  - cbn. apply framed_refl.
  - unfold bind, ret.
    pose proof (runAction_framed env a s) as Ha.
    destruct (runAction env a s) as [[[e a'] s1]| | | |]; cbn in Ha; auto.
    destruct Ha as [Hf1 _]. destruct e as [e|]; [exact Hf1|].
    specialize (IH s1).
    destruct (execActions env l s1) as [[[es l'] s2]| | | |]; cbn in *; auto.
    eapply framed_trans; eassumption.
Qed.

Lemma execSeq_framed (q : Sequence) (s : Sys) :
  unstuck (execSeq env q s) (fun r => framed s (snd r)).
Proof.
  unfold execSeq, bind, storeWrite, ret. cbn [SActions Sequence_withState].
  pose proof (execActions_framed (SActions q) (setWrites (S (writes s)) s))
    as H.
  destruct (execActions env _ _) as [[[e l] s1]| | | |]; cbn in H; auto.
Qed.

Lemma kept_by req s r s' :
  handlesKept req s -> sameHandles req r -> keeps s s' ->
  Next r <> Some sStart -> stateKeeps req s (r, s').
Proof.
  intros H1 H2 H3 H4. split; [|exact H4].
  eapply handlesKept_step; eassumption.
Qed.

Lemma PlanPreChecks_keeps req s :
  handlesKept req s -> Next req = None ->
  whenOk (PlanPreChecks env req s) (stateKeeps req s).
Proof.
  intros Hk Hn. unfold PlanPreChecks.
  eapply whenOk_bind;
    [apply unstuck_whenOk, runPreChecks_framed|].
  intros [[[pf err] pre] cont] s1 [Hf _]. cbn [snd] in Hf.
  assert (Hs : sameHandles req
                 (setPlan (Plan_withContChecks cont
                             (Plan_withPreChecks pre (Plan (Data_ req)))) req))
    by (apply sameHandles_setPlan; reflexivity).
  destruct err; apply whenOk_ret; apply kept_by; try assumption;
    try (apply framed_keeps; assumption); cbn; congruence.
Qed.

Lemma handles_head L n h hs :
  handles L n = h :: hs -> h = mkBlockH 0 None (Some (L + 0)%nat).
Proof.
  unfold handles. destruct n as [|n]; cbn; [discriminate|].
  intros [= <- _]. reflexivity.
Qed.

Lemma head_whenOk req s :
  whenOk (head req s)
         (fun x => snd x = s /\
                   exists hs, blocks (Data_ req) = fst (fst x) :: hs /\
                              Blocks (Plan (Data_ req)) !! block_ (fst (fst x))
                                = Some (snd (fst x))).
Proof.
  unfold head. intros [[h b] s'].
  destruct (blocks (Data_ req)) as [|h' hs]; [discriminate|].
  destruct (Blocks (Plan (Data_ req)) !! block_ h') as [b'|] eqn:Hb;
    [|discriminate].
  intros [= <- <- <-]. split; [reflexivity|]. exists hs. auto.
Qed.

Lemma idle_spawn a c ch s :
  ch <> a -> idle a s -> idle a (setSpawned (spawned s ++ [mkSup c ch]) s).
Proof.
  intros E [H1 H2]. split; [exact H1|]. cbn. rewrite fmap_app. cbn.
  intros Hin. apply elem_of_app in Hin as [Hin|Hin]; [exact (H2 Hin)|].
  apply list_elem_of_singleton in Hin. congruence.
Qed.

Lemma PlanStartContChecks_keeps req s :
  handlesKept req s -> Next req = None ->
  whenOk (PlanStartContChecks req s) (stateKeeps req s).
Proof.
  intros (L & H1 & H2 & H3) Hn [r s'].
  unfold PlanStartContChecks, bind, WithCancel, goSupervise, ret.
  destruct (ContChecks (Plan (Data_ req))).
  - cbn [Data_ setDContCancel setData dContCheckResult]. rewrite H2.
    intros [= <- <-]. split; [|cbn; congruence]. exists L. cbn.
    split; [exact H1|]. split; [exact H2|].
    intros i b Hb Hc.
    match goal with
    | |- idle _ (setSpawned _ ?x) => apply (idle_spawn _ _ _ x)
    end.
    + apply lookup_lt_Some in Hb. lia.
    + exact (H3 i b Hb Hc).
  - intros [= <- <-]. split; [|cbn; congruence]. exists L. auto.
Qed.

Lemma ExecuteBlock_keeps req s :
  handlesKept req s -> Next req = None ->
  whenOk (ExecuteBlock env req s) (stateKeeps req s).
Proof.
  intros Hk Hn. unfold ExecuteBlock.
  destruct (blocks (Data_ req)) as [|h0 hs0] eqn:Hb.
  - apply whenOk_ret. apply kept_by; try assumption;
      [apply sameHandles_setNext|apply keeps_refl|cbn; congruence].
  - eapply whenOk_bind; [apply head_whenOk|].
    intros [h b] s1 [E _]. cbn in E. subst s1.
    unfold bind, storeWrite, ret.
    assert (Hs : sameHandles req
                   (updBlock (block_ h) (Block_withState (setStatus Running))
                             req))
      by (apply sameHandles_updBlock; auto).
    destruct (storeErr env (writes s)); intros x [= <-].
    + apply kept_by;
        [assumption|exact Hs|apply storeWrite_keeps|cbn; congruence].
    + apply kept_by;
        [assumption
        |eapply sameHandles_trans; [exact Hs|apply sameHandles_setNext]
        |apply storeWrite_keeps|cbn; congruence].
Qed.

Lemma BlockPreChecks_keeps req s :
  handlesKept req s -> Next req = None ->
  whenOk (BlockPreChecks env req s) (stateKeeps req s).
Proof.
  intros Hk Hn. unfold BlockPreChecks.
  eapply whenOk_bind; [apply head_whenOk|].
  intros [h b] s1 [E _]. cbn in E. subst s1.
  destruct (BContChecks b) as [cc|] eqn:Hcc.
  - eapply whenOk_bind; [apply unstuck_whenOk, runPreChecks_framed|].
    intros [[[pf err] pre] cont] s1 [Hf Hc]. cbn [fst snd] in Hf, Hc.
    assert (Hs1 : sameHandles req
                    (updBlock (block_ h)
                       (fun b0 => Block_withContChecks cont
                                    (Block_withPreChecks pre b0)) req)).
    { apply sameHandles_updBlock. intros b0. cbn. intros ->.
      destruct Hc as [? [=]]. eauto. }
    destruct err; apply whenOk_ret.
    + apply kept_by;
        [assumption
        |eapply sameHandles_trans;
         [exact Hs1|apply sameHandles_updBlock; auto]
        |apply framed_keeps; assumption|cbn; congruence].
    + apply kept_by;
        [assumption
        |eapply sameHandles_trans; [exact Hs1|apply sameHandles_setNext]
        |apply framed_keeps; assumption|cbn; congruence].
  - apply whenOk_ret. apply kept_by; try assumption;
      [apply sameHandles_setNext|apply keeps_refl|cbn; congruence].
Qed.

Lemma BlockStartContChecks_keeps req s :
  handlesKept req s -> Next req = None ->
  whenOk (BlockStartContChecks req s) (stateKeeps req s).
Proof.
  intros (L & H1 & H2 & H3) Hn [r s'].
  unfold BlockStartContChecks, bind, WithCancel, goSupervise, ret.
  pose proof (head_whenOk req s) as Hh.
  destruct (head req s) as [[[h b] s1]| | | |]; try discriminate.
  destruct (Hh _ eq_refl) as [E (hs & Hb & Hb')]. cbn [fst snd] in *. subst s1.
  rewrite H1 in Hb. apply handles_head in Hb. subst h. cbn in Hb'.
  destruct (BContChecks b) eqn:Hcc.
  - cbn. intros [= <- <-]. split; [|cbn; congruence]. exists L. cbn.
    split; [exact H1|]. split; [exact H2|].
    intros i b' Hi Hc.
    match goal with
    | |- idle _ (setSpawned _ ?x) => apply (idle_spawn _ _ _ x)
    end; [|exact (H3 i b' Hi Hc)].
    intros E. assert (i = 0)%nat by lia. subst i. congruence.
  - intros [= <- <-]. split; [|cbn; congruence]. exists L. auto.
Qed.

Lemma contChecks_keeps d s :
  whenOk (contChecks env d s) (fun x => keeps s (snd x)).
Proof.
  intros [r s'] H a Hi. eapply contChecks_idle; eassumption.
Qed.

Lemma submitLoop_keeps bi (todo : list Sequence) :
  forall i fails req s,
    handlesKept req s -> Next req = None ->
    whenOk (submitLoop env bi i todo fails req s) (stateKeeps req s).
Proof.
  induction todo as [|q rest IH]; intros i fails req s Hk Hn;
    cbn [submitLoop].
  - apply whenOk_ret. apply kept_by;
      [assumption|apply sameHandles_setNext|apply keeps_refl
      |cbn; congruence].
  - eapply whenOk_bind; [apply head_whenOk|].
    intros [h b] s1 [E _]. cbn in E. subst s1.
    assert (Hfail : forall s',
               keeps s s' ->
               stateKeeps req s
                 (updBlock bi (Block_withState (setStatus Failed)) req, s')).
    { intros s' Hs. apply kept_by;
        [assumption|apply sameHandles_updBlock; auto|exact Hs
        |cbn; congruence]. }
    destruct (_ && _).
    + apply whenOk_ret. apply Hfail, keeps_refl.
    + eapply whenOk_bind; [apply contChecks_keeps|].
      intros [ot cerr] s1 Hk1. cbn [snd] in Hk1.
      destruct cerr; [apply whenOk_ret, Hfail, Hk1|].
      eapply whenOk_bind; [apply unstuck_whenOk, execSeq_framed|].
      intros [err q'] s2 Hf. cbn [snd] in Hf.
      eapply whenOk_weaken; [apply IH|].
      * eapply handlesKept_step; [exact Hk| |].
        -- apply sameHandles_updBlock. auto.
        -- eapply keeps_trans; [exact Hk1|apply framed_keeps, Hf].
      * exact Hn.
      * intros x Hx. exact Hx.
Qed.

Lemma ExecuteSequences_keeps req s :
  handlesKept req s -> Next req = None ->
  whenOk (ExecuteSequences env req s) (stateKeeps req s).
Proof.
  intros Hk Hn. unfold ExecuteSequences.
  eapply whenOk_bind; [apply head_whenOk|].
  intros [h b] s1 [E _]. cbn in E. subst s1.
  destruct (Concurrency b <? 1); [intros x; discriminate|].
  apply submitLoop_keeps; assumption.
Qed.

(** With the handles [Start] made, the head handle has no cancel
    function. *)
Lemma kept_head_cancel req s h hs :
  handlesKept req s -> blocks (Data_ req) = h :: hs ->
  contCancel h = None /\ block_ h = 0%nat.
Proof.
  intros (L & H1 & _) Hb. rewrite H1 in Hb. apply handles_head in Hb.
  subst h. split; reflexivity.
Qed.

Lemma BlockPostChecks_keeps req s :
  handlesKept req s -> Next req = None ->
  whenOk (BlockPostChecks env req s) (stateKeeps req s).
Proof.
  intros Hk Hn [r s']. unfold BlockPostChecks, bind, ret.
  pose proof (head_whenOk req s) as Hh.
  destruct (head req s) as [[[h b] s1]| | | |]; try discriminate.
  destruct (Hh _ eq_refl) as [E (hs & Hb & Hb')]. cbn [fst snd] in *.
  subst s1. destruct (kept_head_cancel req s h hs Hk Hb) as [Hc _].
  destruct (BContChecks b).
  - rewrite Hc. cbn. discriminate.
  - destruct (BPostChecks b) as [pc|]; [|discriminate].
    pose proof (runChecks_framed env (Actions pc) s) as Hf.
    destruct (runChecks env (Actions pc) s) as [[[err l] s2]| | | |];
      try discriminate.
    destruct Hf as [Hf _]. cbn [snd] in Hf.
    assert (Hs1 : sameHandles req
                    (updBlock (block_ h)
                       (Block_withPostChecks
                          (Some (Checks_withActions l pc))) req))
      by (apply sameHandles_updBlock; auto).
    destruct err; intros [= <- <-].
    + apply kept_by;
        [assumption
        |eapply sameHandles_trans;
         [exact Hs1|apply sameHandles_updBlock; auto]
        |apply framed_keeps; assumption|cbn; congruence].
    + apply kept_by;
        [assumption
        |eapply sameHandles_trans; [exact Hs1|apply sameHandles_setNext]
        |apply framed_keeps; assumption|cbn; congruence].
Qed.

(** With the handles [Start] made, [BlockEnd] calls a nil function. *)
Lemma BlockEnd_panics req s h hs b :
  handlesKept req s -> blocks (Data_ req) = h :: hs ->
  Blocks (Plan (Data_ req)) !! block_ h = Some b ->
  BlockEnd env req s = Panic nilDeref.
Proof.
  intros Hk Hh Hb. unfold BlockEnd, bind.
  rewrite (head_eq req h hs b s Hh Hb).
  destruct (kept_head_cancel req s h hs Hk Hh) as [-> _]. reflexivity.
Qed.

Lemma BlockEnd_keeps req s :
  handlesKept req s -> Next req = None ->
  whenOk (BlockEnd env req s) (stateKeeps req s).
Proof.
  intros Hk Hn [r s']. unfold BlockEnd, bind.
  pose proof (head_whenOk req s) as Hh.
  destruct (head req s) as [[[h b] s1]| | | |]; try discriminate.
  destruct (Hh _ eq_refl) as [E (hs & Hb & Hb')]. cbn [fst snd] in *.
  destruct (kept_head_cancel req s h hs Hk Hb) as [-> _]. discriminate.
Qed.

Lemma PlanPostChecks_keeps req s :
  handlesKept req s -> Next req = None ->
  whenOk (PlanPostChecks env req s) (stateKeeps req s).
Proof.
  intros Hk Hn. unfold PlanPostChecks.
  eapply whenOk_bind with (P := fun x => keeps s (snd x)).
  - destruct (ContChecks (Plan (Data_ req))).
    + intros [stop s2]. unfold bind, ret.
      destruct (callCancel env _ s) as [[[] s1]| | | |] eqn:Hc;
        try discriminate.
      destruct (chRecv env _ s1) as [[v s3]| | | |] eqn:Hr;
        try discriminate.
      intros [= <- <-] a Hi. cbn.
      eapply chRecv_idle; [exact Hr|].
      eapply callCancel_idle; eassumption.
    + apply whenOk_ret. apply keeps_refl.
  - intros stop s1 Hk1. cbn [snd] in Hk1. destruct stop.
    + apply whenOk_ret. apply kept_by;
        [assumption|apply sameHandles_refl|exact Hk1|congruence].
    + destruct (PostChecks (Plan (Data_ req))) as [pc|];
        [|intros x; discriminate].
      eapply whenOk_bind; [apply unstuck_whenOk, runChecks_framed|].
      intros [err l] s2 [Hf _]. cbn [snd] in Hf.
      apply whenOk_ret. apply kept_by;
        [assumption|apply sameHandles_setPlan; reflexivity
        |eapply keeps_trans; [exact Hk1|apply framed_keeps, Hf]
        |cbn; congruence].
Qed.

Lemma makeHandles_spec (L : nat) (bs : list Block) :
  forall i acc s,
    length (chans s) = (L + i)%nat ->
    makeHandles i bs acc s =
    Ok (acc ++ ((fun j => mkBlockH j None (Some (L + j)%nat))
                  <$> seq i (length bs)),
        setChans (chans s ++ replicate (length bs) (mkChan [] 1 false)) s).
Proof.
  induction bs as [|b bs IH]; intros i acc s Hl; cbn [makeHandles].
  - cbn. rewrite !app_nil_r. destruct s; reflexivity.
  - unfold bind, make. rewrite IH.
    + cbn. rewrite Hl, <- !app_assoc. reflexivity.
    + cbn. rewrite length_app. cbn. lia.
Qed.

Lemma Start_keeps req s :
  blocks (Data_ req) = [] -> spawned s = [] ->
  whenOk (Start env req s) (stateKeeps req s).
Proof.
  intros Hb Hsp [r s']. unfold Start, bind.
  rewrite (makeHandles_spec (length (chans s))) by lia.
  rewrite Hb. cbn [app].
  unfold make, now, storeWrite, fatal, ret.
  cbn [chans setChans writes setClock clock setWrites].
  destruct (storeErr env (writes s)); [discriminate|].
  intros [= <- <-]. split; [|cbn; congruence].
  exists (length (chans s)). cbn. split; [reflexivity|].
  split; [rewrite length_app, length_replicate; reflexivity|].
  intros i b Hi _. split; cbn.
  - apply lookup_lt_Some in Hi.
    rewrite <- app_assoc, lookup_app_r by lia.
    rewrite lookup_app_l by (rewrite length_replicate; lia).
    apply lookup_replicate_2. lia.
  - rewrite Hsp. cbn. apply not_elem_of_nil.
Qed.

Lemma exec_keeps st req s :
  st <> sStart -> handlesKept req s -> Next req = None ->
  whenOk (exec env st req s) (stateKeeps req s).
Proof.
  intros Hst Hk Hn. destruct st; cbn [exec]; try contradiction.
  - apply PlanPreChecks_keeps; assumption.
  - apply PlanStartContChecks_keeps; assumption.
  - apply ExecuteBlock_keeps; assumption.
  - apply BlockPreChecks_keeps; assumption.
  - apply BlockStartContChecks_keeps; assumption.
  - apply ExecuteSequences_keeps; assumption.
  - apply BlockPostChecks_keeps; assumption.
  - apply BlockEnd_keeps; assumption.
  - apply PlanPostChecks_keeps; assumption.
Qed.

Lemma reaches_onTrack x y : reaches env x y -> onTrack x -> onTrack y.
Proof.
  induction 1 as [x|req s st req1 s1 x He Hn Hx _ IH]; [auto|].
  intros Ht. apply IH. right. unfold onTrack in Ht. cbn [fst snd] in *.
  destruct Ht as [(Hs & Hb & Hsp)|(Hs & Hk)].
  - rewrite Hn in Hs. injection Hs as ->. cbn [exec] in Hx.
    destruct (Start_keeps (setNext None req) s Hb Hsp _ Hx) as [H1 H2].
    auto.
  - assert (st <> sStart) by congruence.
    destruct (exec_keeps st (setNext None req) s H Hk eq_refl _ Hx)
      as [H1 H2].
    auto.
Qed.

End RunProofs.

Section RunClaims.
Import sm sm_spec.

(** C9. In every run of the machine from [Start] on a process without
    supervisors, when [BlockEnd] is entered for a block without continuous
    checks, the handle of the block has no cancel function, so [BlockEnd]
    calls a nil function and panics instead of completing the block; and
    its result channel is as [Start] made it, open and empty, with no
    supervisor to publish on it or close it, so a receive on it blocks for
    ever. *)
Theorem block_end_calls_nil_cancel (env : Env) (p : workflow.Plan)
        (s0 : Sys) (req : Request) (s : Sys) (h : block) (hs : list block)
        (b : Block)
        (Hfresh : spawned s0 = [])
        (Hrun : reaches env (startRequest p, s0) (req, s))
        (Hnext : Next req = Some sBlockEnd)
        (Hh : blocks (Data_ req) = h :: hs)
        (Hb : Blocks (Plan (Data_ req)) !! block_ h = Some b)
        (Hcont : BContChecks b = None) :
  contCancel h = None /\
  BlockEnd env (setNext None req) s = Panic nilDeref /\
  exists a, contCheckResult h = Some a /\
            chans s !! a = Some (mkChan [] 1 false) /\
            (a ∉ supCh <$> spawned s) /\
            chRecv env (Some a) s = Blocked.
Proof.
  assert (Ht : onTrack (req, s)).
  { eapply reaches_onTrack; [exact Hrun|]. left. cbn. auto. }
  destruct Ht as [(Hs & _)|(_ & Hk)]; [cbn in Hs; congruence|].
  cbn [fst snd] in Hk.
  destruct (kept_head_cancel req s h hs Hk Hh) as [Hc H0].
  split; [exact Hc|]. split.
  - apply (BlockEnd_panics env (setNext None req) s h hs b Hk Hh Hb).
  - destruct Hk as (L & H1 & _ & H3).
    rewrite H1 in Hh. apply handles_head in Hh. subst h. cbn in Hb.
    exists (L + 0)%nat. split; [reflexivity|].
    pose proof (H3 0%nat b Hb Hcont) as Hi.
    destruct Hi as [Hi1 Hi2]. repeat split; try assumption.
    apply chRecv_idle_blocked. split; assumption.
Qed.

Lemma block_end_calls_nil_cancel_witness :
  reaches testEnv (startRequest plainPlan, Sys0) atBlockEnd /\
  Next (fst atBlockEnd) = Some sBlockEnd /\
  BlockEnd testEnv (setNext None (fst atBlockEnd)) (snd atBlockEnd)
    = Panic nilDeref.
Proof.
  assert (Hrun : reaches testEnv (startRequest plainPlan, Sys0) atBlockEnd).
  { apply (steps_reaches testEnv 8). vm_compute. reflexivity. }
  split; [exact Hrun|]. split; [reflexivity|].
  refine (proj1 (proj2 (block_end_calls_nil_cancel
                          testEnv plainPlan Sys0 (fst atBlockEnd)
                          (snd atBlockEnd) (mkBlockH 0 None (Some 0%nat)) []
                          _ eq_refl Hrun eq_refl eq_refl _ _)));
    vm_compute; reflexivity.
Defined.
End RunClaims.

(** * Further properties *)

(** ** The finalisation machine *)

Section FinalMore.
Import final final_spec.

(** X1. [examineChecks] returns a nil error exactly when every check that
    is present is [Completed]; then the reason is [FRUnknown]. With an error
    the reason is that of the place of the first check that is not
    [Completed], never [FRUnknown]: earlier places win over later ones. *)
Theorem examineChecks_nil_iff (c0 c1 c2 : option Checks) :
  (snd (examineChecks [c0; c1; c2]) = None <->
   Forall (fun c => forall k, c = Some k -> Status_ (CState k) = Completed)
          [c0; c1; c2]) /\
  (snd (examineChecks [c0; c1; c2]) = None ->
   fst (examineChecks [c0; c1; c2]) = FRUnknown) /\
  (snd (examineChecks [c0; c1; c2]) <> None ->
   fst (examineChecks [c0; c1; c2]) =
     if bool_decide (is_Some (badCheck c0)) then FRPreCheck
     else if bool_decide (is_Some (badCheck c1)) then FRContCheck
     else FRPostCheck).
Proof.
  pose proof (examineChecks_spec
                (mkPlan "" c0 c1 c2 [] zeroState FRUnknown)) as H.
  cbn [PreChecks ContChecks PostChecks] in H. rewrite H. clear H.
  unfold firstBadCheck, badCheck. cbn [PreChecks ContChecks PostChecks].
  assert (Hc : forall c : option Checks,
             (forall k, c = Some k -> Status_ (CState k) = Completed) <->
             match c with
             | Some check =>
                 if Status_ (CState check) =? Completed then None
                 else Some (Status_ (CState check))
             | None => None
             end = None).
  { intros [k|]; [|split; [reflexivity|intros _ ? [=]]].
    destruct (Z.eqb_spec (Status_ (CState k)) Completed) as [E|E].
    - split; [reflexivity|]. intros _ ? [= <-]. exact E.
    - split; [|discriminate]. intros Hk. destruct (E (Hk k eq_refl)). }
  rewrite !Forall_cons, Forall_nil, !Hc.
  repeat match goal with
         | |- context [match ?c with Some _ => _ | None => _ end] =>
             lazymatch c with
             | c0 => destruct c0 | c1 => destruct c1 | c2 => destruct c2
             end
         | |- context [if ?a =? ?b then _ else _] => destruct (a =? b)
         end;
    cbn; repeat split; intros; try reflexivity; try discriminate;
    try tauto; try congruence;
    repeat match goal with
           | H : _ /\ _ |- _ => destruct H
           end; try discriminate; try congruence.
Qed.

(** X2. Finalising a plan writes its status and its reason and nothing
    else: the name, the checks, the blocks and the start and end times of
    the plan come out as they went in. *)
Theorem finalize_keeps_the_tree (p : Plan) :
  exists r, finalize p = Some r /\
    Name (plan r) = Name p /\
    PreChecks (plan r) = PreChecks p /\
    ContChecks (plan r) = ContChecks p /\
    PostChecks (plan r) = PostChecks p /\
    Blocks (plan r) = Blocks p /\
    Start_ (PState (plan r)) = Start_ (PState p) /\
    End_ (PState (plan r)) = End_ (PState p).
Proof.
  exists (outcome p). split; [apply finalize_outcome|]. unfold outcome.
  destruct (firstBadCheck p) as [[[r t] s]|];
    [|destruct (firstBadBlock (Blocks p))]; cbn; repeat split.
Qed.

Lemma outcome_again (p : Plan) :
  outcome (plan (outcome p)) = outcome p.
Proof.
  unfold outcome at 2.
  destruct (firstBadCheck p) as [[[r t] s]|] eqn:Ec.
  - unfold outcome, firstBadCheck in *. cbn. rewrite Ec. reflexivity.
  - destruct (firstBadBlock (Blocks p)) as [s|] eqn:Eb;
      unfold outcome, firstBadCheck in *; cbn; rewrite Ec, Eb; reflexivity.
Qed.

(** X3. Finalising is idempotent: finalising the plan a finalisation left
    gives the same plan, the same error and the same next state. *)
Theorem finalize_idempotent (p : Plan) :
  exists r, finalize p = Some r /\ finalize (plan r) = Some r.
Proof.
  exists (outcome p). split; [apply finalize_outcome|].
  rewrite finalize_outcome, outcome_again. reflexivity.
Qed.

(** X4. A plan that enters with reason [FRUnknown] leaves with reason
    [FRBlock] exactly when every check that is present is [Completed] and
    some block is not: a check that is not [Completed] always wins over the
    blocks. *)
Theorem block_reason_iff (p : Plan) (Hfresh : Reason p = FRUnknown) :
  exists r, finalize p = Some r /\
    (Reason (plan r) = FRBlock <->
     firstBadCheck p = None /\
     Exists (fun b => Status_ (BState b) <> Completed) (Blocks p)).
Proof.
  exists (outcome p). split; [apply finalize_outcome|]. unfold outcome.
  destruct (firstBadCheck p) as [[[r t] s]|] eqn:Ec.
  - cbn. split; [|intros [[=] _]].
    destruct (firstBadCheck_reason _ _ _ _ Ec) as [[-> | [-> | ->]] _];
      discriminate.
  - destruct (firstBadBlock (Blocks p)) as [s|] eqn:Eb; cbn.
    + split; [|reflexivity]. intros _. split; [reflexivity|].
      apply Exists_exists.
      assert (~ Forall (fun b => Status_ (BState b) = Completed) (Blocks p))
        as Hn by (rewrite <- firstBadBlock_None; congruence).
      apply not_Forall_Exists in Hn; [|intros b; apply Z.eq_dec].
      apply Exists_exists in Hn. exact Hn.
    + rewrite Hfresh. split; [discriminate|]. intros [_ Hex].
      apply firstBadBlock_None in Eb. apply Exists_exists in Hex.
      destruct Hex as (b & Hin & Hb). rewrite Forall_forall in Eb.
      destruct (Hb (Eb b Hin)).
Qed.

Lemma block_reason_iff_witness :
  exists r, finalize failedBlockPlan = Some r /\ Reason (plan r) = FRBlock.
Proof.
  destruct (block_reason_iff failedBlockPlan eq_refl) as [r [Hr Hiff]].
  exists r. split; [exact Hr|]. apply Hiff. split; [reflexivity|].
  apply Exists_cons_hd. discriminate.
Defined.

(** X5. On a check that is not [Completed], [planChecks] names [end] as the
    next state together with the error; were that state run, it would mark
    the plan [Completed] again, with the failure reason and the error still
    in place. The failed status of the plan rests on the runner stopping at
    the error. *)
Theorem end_after_failed_checks (req : Request)
        (Hbad : firstBadCheck (plan req) <> None) :
  Next (planChecks req) = Some f_end /\
  Status_ (PState (plan (planChecks req))) = Failed /\
  Status_ (PState (plan (end_ (planChecks req)))) = Completed /\
  Reason (plan (end_ (planChecks req))) <> FRUnknown /\
  Err (end_ (planChecks req)) <> None.
Proof.
  destruct req as [p e n]. rewrite planChecks_spec. cbn [plan] in Hbad.
  destruct (firstBadCheck p) as [[[r t] s]|] eqn:Ec; [|congruence].
  cbn. repeat split; try discriminate.
  destruct (firstBadCheck_reason _ _ _ _ Ec) as [[-> | [-> | ->]] _];
    discriminate.
Qed.

Lemma end_after_failed_checks_witness :
  Status_ (PState (plan (end_ (planChecks
            (mkRequest failedCheckPlan None None))))) = Completed /\
  Reason (plan (end_ (planChecks
            (mkRequest failedCheckPlan None None)))) <> FRUnknown.
Proof.
  assert (H : firstBadCheck (plan (mkRequest failedCheckPlan None None))
              <> None) by discriminate.
  destruct (end_after_failed_checks _ H) as (_ & _ & H1 & H2 & _).
  split; assumption.
Defined.

End FinalMore.

(** ** runAction, runChecks and execSeq *)

Section HelpersMore.
Import sm sm_spec.
Variable env : Env.

Lemma runAction_unfold (a : Action) (s : Sys) (p : plugins.Plugin) :
  registry env (Plugin a) = Some p ->
  runAction env a s =
  match Retry env
          (rounds (Action_withState (setStatus Running)
                     (Action_withState (setStart (clock s)) a)))
          (attemptOp env p)
          (Action_withState (setStatus Running)
             (Action_withState (setStart (clock s)) a))
          (setWrites (S (writes s)) (setClock (S (clock s)) s)) with
  | Ok ((err, a1), s1) =>
      Ok ((err,
           Action_withState (setEnd (clock s1))
             (Action_withState
                (setStatus match err with
                           | Some _ => Failed
                           | None => Completed
                           end) a1)),
          setWrites (S (writes s1)) (setClock (S (clock s1)) s1))
  | Panic msg => Panic msg
  | Fatal msg => Fatal msg
  | Blocked => Blocked
  | Diverge => Diverge
  end.
Proof.
  intros Hreg. unfold runAction, bind, now, storeWrite, panic, ret. cbv beta.
  change (Plugin (Action_withState (setStatus Running)
                    (Action_withState (setStart (clock s)) a)))
    with (Plugin a).
  rewrite Hreg.
  destruct (Retry env _ _ _ _) as [[[[e|] a1] s1]| | | |]; reflexivity.
Qed.

(** The loop, with what it counts: every round that makes an attempt reads
    the clock, invokes the plugin and writes the action, once each. *)
Lemma Retry_counts (p : plugins.Plugin) (fuel : nat) :
  forall (a : Action) (s : Sys) e a' s',
    Retry env fuel (attemptOp env p) a s = Ok ((e, a'), s') ->
    exists k,
      length (Attempts a') = (length (Attempts a) + k)%nat /\
      calls s' = (calls s + k)%nat /\
      writes s' = (writes s + k)%nat /\
      clock s' = (clock s + k)%nat.
Proof.
  induction fuel as [|fuel IH]; intros a s e a' s'; [discriminate|].
  cbn [Retry]. unfold bind, get, put, ret. cbn [fst snd].
  destruct (ctxDone env (looks s)).
  { intros [= <- <- <-]. exists 0%nat. cbn. repeat split; lia. }
  destruct (Z_gt_le_dec (Z.of_nat (length (Attempts a))) (Retries a)) as [G|G].
  - rewrite attemptOp_guard by exact G. cbn.
    intros [= <- <- <-]. exists 0%nat. cbn. repeat split; lia.
  - rewrite attemptOp_run by exact G.
    set (att := attemptOf p _ _). set (a1 := Action_withAttempts _ a).
    set (s1 := setWrites _ _).
    assert (H1 : length (Attempts a1) = (length (Attempts a) + 1)%nat)
      by (subst a1; cbn; rewrite length_app; reflexivity).
    assert (Hs : calls s1 = (calls s + 1)%nat /\
                 writes s1 = (writes s + 1)%nat /\
                 clock s1 = (clock s + 1)%nat)
      by (subst s1; cbn; repeat split; lia).
    destruct Hs as (Hc & Hw & Hk).
    destruct (AErr att) as [e1|];
      [destruct (errors_Is ErrPermanent e1)|];
      try (intros [= <- <- <-]; exists 1%nat; repeat split; assumption).
    intros HR. destruct (IH _ _ _ _ _ HR) as (k & K1 & K2 & K3 & K4).
    exists (S k). repeat split; lia.
Qed.

Lemma Retry_stops_at_once (p : plugins.Plugin) (fuel : nat) (a : Action)
      (s : Sys) :
  Z.of_nat (length (Attempts a)) <= Retries a ->
  ctxDone env (looks s) = false ->
  (forall e, AErr (attemptOf p (clock s)
                     (plugins.Execute p (Req a) (calls s))) = Some e ->
             errors_Is ErrPermanent e = true) ->
  Retry env (S fuel) (attemptOp env p) a s =
  Ok ((AErr (attemptOf p (clock s) (plugins.Execute p (Req a) (calls s))),
       Action_withAttempts
         (Attempts a ++
            [attemptOf p (clock s) (plugins.Execute p (Req a) (calls s))])
         a),
      setWrites (S (writes s))
        (setCalls (S (calls s))
           (setClock (S (clock s)) (setLooks (S (looks s)) s)))).
Proof.
  intros Hlen Hctx Hperm. cbn [Retry]. unfold bind, get, put, ret.
  cbn [fst snd]. rewrite Hctx.
  pose proof (attemptOp_run env p a (setLooks (S (looks s)) s) Hlen) as Hrun.
  cbn zeta in Hrun. rewrite Hrun. clear Hrun.
  cbn [clock calls writes looks setLooks].
  destruct (AErr (attemptOf p (clock s)
                    (plugins.Execute p (Req a) (calls s)))) as [e|] eqn:E;
    [|reflexivity].
  rewrite (Hperm e eq_refl). reflexivity.
Qed.

End HelpersMore.

Section RunActionMore.
Import sm sm_spec more_spec.

(** X6. With its plugin registered [runAction] always returns, and leaves
    the action in a terminal status: [Completed] exactly when the error it
    returns is nil, [Failed] otherwise; name, plugin, request and retries
    are untouched and no earlier attempt is dropped. *)
Theorem runAction_terminal (env : Env) (a : Action) (s : Sys)
        (p : plugins.Plugin) (Hreg : registry env (Plugin a) = Some p) :
  exists e a' s',
    runAction env a s = Ok ((e, a'), s') /\
    (e = None <-> Status_ (AState a') = Completed) /\
    (e <> None <-> Status_ (AState a') = Failed) /\
    AName a' = AName a /\ Plugin a' = Plugin a /\ Req a' = Req a /\
    Retries a' = Retries a /\
    (length (Attempts a) <= length (Attempts a'))%nat.
Proof.
  pose proof (runAction_spec env a s) as H. rewrite Hreg in H.
  destruct H as (e & a' & s' & HR & Hr & Hp & Hq & Hn & _ & Hl & Hs & _).
  exists e, a', s'. split; [exact HR|]. rewrite Hs.
  destruct e; repeat split; try assumption; try discriminate;
    try congruence; intros; exfalso; auto.
Qed.

Lemma runAction_terminal_witness :
  exists e a' s',
    runAction testEnv (testAction "ok" 0) Sys0 = Ok ((e, a'), s') /\
    (e = None <-> Status_ (AState a') = Completed).
Proof.
  destruct (runAction_terminal testEnv (testAction "ok" 0) Sys0 testPlugin
                               eq_refl)
    as (e & a' & s' & H1 & H2 & _).
  exists e, a', s'. split; assumption.
Defined.

(** X7. When the first invocation returns a nil error and a response of the
    declared type, [runAction] records that one attempt, invokes the plugin
    once, writes the action three times (on entry, after the attempt, on
    return) and leaves the action [Completed] with a nil error. *)
Theorem first_attempt_succeeds (env : Env) (p : plugins.Plugin) (a : Action)
        (s : Sys) (resp : any)
        (Hreg : registry env (Plugin a) = Some p)
        (Hlen : Z.of_nat (length (Attempts a)) <= Retries a)
        (Hctx : ctxDone env (looks s) = false)
        (Hex : plugins.Execute p (Req a) (calls s) = (resp, None))
        (Hty : TypeOf resp = TypeOf (plugins.Response p)) :
  exists a' s',
    runAction env a s = Ok ((None, a'), s') /\
    Attempts a' = Attempts a ++ [mkAttempt resp None (S (clock s)) 0%nat] /\
    Status_ (AState a') = Completed /\
    calls s' = S (calls s) /\
    writes s' = (writes s + 3)%nat.
Proof.
  rewrite (runAction_unfold env a s p Hreg). unfold rounds.
  rewrite Retry_stops_at_once.
  - cbn [Req Action_withState calls clock writes setWrites setClock].
    rewrite Hex. unfold attemptOf, isType. cbn [fst snd].
    rewrite bool_decide_eq_true_2 by exact Hty.
    do 2 eexists. split; [reflexivity|]. cbn. repeat split. lia.
  - exact Hlen.
  - exact Hctx.
  - cbn [Req Action_withState calls clock writes setWrites setClock].
    rewrite Hex. unfold attemptOf, isType. cbn [fst snd].
    rewrite bool_decide_eq_true_2 by exact Hty. discriminate.
Qed.

Lemma first_attempt_succeeds_witness :
  exists a' s',
    runAction testEnv (testAction "ok" 2) Sys0 = Ok ((None, a'), s') /\
    Attempts a' =
      [mkAttempt (Some (Dyn "plugins.Resp" "ok")) None 1%nat 0%nat] /\
    Status_ (AState a') = Completed /\ calls s' = 1%nat.
Proof.
  destruct (first_attempt_succeeds
              testEnv testPlugin (testAction "ok" 2) Sys0
              (Some (Dyn "plugins.Resp" "ok")) eq_refl)
    as (a' & s' & H1 & H2 & H3 & H4 & _);
    [cbn; lia|reflexivity|reflexivity|reflexivity|].
  exists a', s'. repeat split; assumption.
Defined.

(** X8. When the plugin returns an error that wraps [ErrPermanent], the
    attempt is recorded with that error and the response as returned, no
    second invocation follows whatever the retries left, and the action is
    [Failed] with that error. *)
Theorem permanent_error_is_not_retried (env : Env) (p : plugins.Plugin)
        (a : Action) (s : Sys) (resp : any) (e : error)
        (Hreg : registry env (Plugin a) = Some p)
        (Hlen : Z.of_nat (length (Attempts a)) <= Retries a)
        (Hctx : ctxDone env (looks s) = false)
        (Hex : plugins.Execute p (Req a) (calls s) = (resp, Some e))
        (Hperm : errors_Is ErrPermanent e = true) :
  exists a' s',
    runAction env a s = Ok ((Some e, a'), s') /\
    Attempts a' =
      Attempts a ++ [mkAttempt resp (Some e) (S (clock s)) 0%nat] /\
    Status_ (AState a') = Failed /\
    calls s' = S (calls s).
Proof.
  rewrite (runAction_unfold env a s p Hreg). unfold rounds.
  rewrite Retry_stops_at_once.
  - cbn [Req Action_withState calls clock writes setWrites setClock].
    rewrite Hex. unfold attemptOf. cbn [fst snd].
    do 2 eexists. split; [reflexivity|]. cbn. repeat split.
  - exact Hlen.
  - exact Hctx.
  - cbn [Req Action_withState calls clock writes setWrites setClock].
    rewrite Hex. unfold attemptOf. cbn. intros ? [= <-]. exact Hperm.
Qed.

Lemma permanent_error_is_not_retried_witness :
  exists a' s',
    runAction stubbornEnv (stubbornAction 5) Sys0 =
      Ok ((Some (wrapError "no way: " ErrPermanent), a'), s') /\
    Attempts a' =
      [mkAttempt None (Some (wrapError "no way: " ErrPermanent)) 1%nat
                 0%nat] /\
    Status_ (AState a') = Failed /\
    calls s' = 1%nat.
Proof.
  apply (permanent_error_is_not_retried
           stubbornEnv stubbornPlugin (stubbornAction 5) Sys0 None
           (wrapError "no way: " ErrPermanent));
    [reflexivity|cbn; lia|reflexivity|reflexivity|reflexivity].
Defined.

End RunActionMore.

Section RetryMore.
Import sm sm_spec.

Lemma Retry_exhaust (env : Env) (p : plugins.Plugin)
      (Hctx : forall n, ctxDone env n = false) (fuel : nat) :
  forall (a : Action) (s : Sys),
    (forall n, exists r e, plugins.Execute p (Req a) n = (r, Some e) /\
                           errors_Is ErrPermanent e = false) ->
    (rounds a <= fuel)%nat ->
    Z.of_nat (length (Attempts a)) <= Retries a + 1 ->
    exists a' s',
      Retry env fuel (attemptOp env p) a s = Ok ((Some ErrPermanent, a'), s')
      /\ Z.of_nat (length (Attempts a')) = Retries a + 1
      /\ exists new, Attempts a' = Attempts a ++ new /\
                     Forall (fun t => AErr t <> None) new.
Proof.
  induction fuel as [|fuel IH]; intros a s Hfail Hf Hb; unfold rounds in *;
    [lia|].
  cbn [Retry]. unfold bind, get, put, ret. cbn [fst snd]. rewrite Hctx.
  destruct (Z_gt_le_dec (Z.of_nat (length (Attempts a))) (Retries a)) as [G|G].
  - rewrite attemptOp_guard by exact G. cbn.
    do 2 eexists. split; [reflexivity|]. split; [lia|].
    exists []. rewrite app_nil_r. split; [reflexivity|constructor].
  - rewrite attemptOp_run by exact G.
    cbn [clock calls setLooks].
    destruct (Hfail (calls s)) as (r & e & Hex & Hnp). rewrite Hex.
    unfold attemptOf. cbn [fst snd AErr]. rewrite Hnp.
    match goal with
    | |- context [Retry env fuel _ ?x ?y] =>
        destruct (IH x y) as (a' & s' & HR & Hl & new & Hnew & Hall)
    end.
    + exact Hfail.
    + cbn [Retries Attempts Action_withAttempts]. rewrite length_app.
      cbn [length]. lia.
    + cbn [Retries Attempts Action_withAttempts]. rewrite length_app.
      cbn [length]. lia.
    + rewrite HR. do 2 eexists. split; [reflexivity|].
      split; [exact Hl|].
      exists (mkAttempt r (Some e) (clock s) 0%nat :: new).
      cbn [Attempts Action_withAttempts] in Hnew.
      rewrite Hnew, <- app_assoc. split; [reflexivity|].
      constructor; [discriminate|exact Hall].
Qed.

(** X9. When every invocation fails with an error that is not permanent and
    the context is never done, an action that has not run yet is attempted
    [Retries + 1] times, no more and no less, every attempt recording an
    error; the action is [Failed] and the error returned is the permanent
    stop of the guard. *)
Theorem retries_exhaust (env : Env) (p : plugins.Plugin) (a : Action)
        (s : Sys)
        (Hreg : registry env (Plugin a) = Some p)
        (Hnew : Attempts a = [])
        (Hret : 0 <= Retries a)
        (Hctx : forall n, ctxDone env n = false)
        (Hfail : forall n, exists r e,
              plugins.Execute p (Req a) n = (r, Some e) /\
              errors_Is ErrPermanent e = false) :
  exists e a' s',
    runAction env a s = Ok ((Some e, a'), s') /\
    errors_Is ErrPermanent e = true /\
    Z.of_nat (length (Attempts a')) = Retries a + 1 /\
    Forall (fun t => AErr t <> None) (Attempts a') /\
    Z.of_nat (calls s') = Z.of_nat (calls s) + Retries a + 1 /\
    Status_ (AState a') = Failed.
Proof.
  rewrite (runAction_unfold env a s p Hreg).
  match goal with
  | |- context [Retry env (rounds ?x) _ ?x ?y] =>
      destruct (Retry_exhaust env p Hctx (rounds x) x y)
        as (a1 & s1 & HR & Hl & new & Hn & Hall);
      [exact Hfail|lia|cbn; rewrite Hnew; cbn; lia|];
      pose proof (Retry_counts env p _ _ _ _ _ _ HR) as (k & K1 & K2 & _)
  end.
  rewrite HR. cbn [Attempts Action_withState Retries] in *.
  rewrite Hnew in *. cbn [app length] in *.
  exists ErrPermanent. do 2 eexists. split; [reflexivity|].
  cbn [Attempts Action_withState AState Status_ setStatus setEnd calls
       setWrites setClock Retries errors_Is] in *.
  subst new. repeat split; try assumption. lia.
Qed.

Lemma retries_exhaust_witness :
  exists e a' s',
    runAction testEnv (testAction "error" 2) Sys0 = Ok ((Some e, a'), s') /\
    Z.of_nat (length (Attempts a')) = 3 /\
    Z.of_nat (calls s') = 3 /\
    Status_ (AState a') = Failed.
Proof.
  destruct (retries_exhaust testEnv testPlugin (testAction "error" 2) Sys0
                            eq_refl eq_refl)
    as (e & a' & s' & H1 & _ & H3 & _ & H5 & H6).
  - cbn. lia.
  - reflexivity.
  - intros n. do 2 eexists. split; reflexivity.
  - exists e, a', s'. repeat split; assumption.
Defined.

(** X10. For an action within its budget [runAction] records one attempt
    and writes the action once per invocation of the plugin, besides the
    two writes on entry and on return, and invokes the plugin at most as
    many times as the budget leaves room for attempts. *)
Theorem runAction_accounting (env : Env) (a : Action) (s : Sys)
        (p : plugins.Plugin)
        (Hreg : registry env (Plugin a) = Some p)
        (Hb : withinBudget a) :
  exists e a' s' k,
    runAction env a s = Ok ((e, a'), s') /\
    length (Attempts a') = (length (Attempts a) + k)%nat /\
    calls s' = (calls s + k)%nat /\
    writes s' = (writes s + k + 2)%nat /\
    Z.of_nat k <= Retries a + 1 - Z.of_nat (length (Attempts a)).
Proof.
  pose proof (runAction_spec env a s) as H. rewrite Hreg in H.
  destruct H as (e & a' & s' & HR & Hr & _ & _ & _ & Hw & _).
  specialize (Hw Hb). unfold withinBudget in Hw.
  pose proof HR as HR'. rewrite (runAction_unfold env a s p Hreg) in HR'.
  destruct (Retry env _ _ _ _) as [[[e1 a1] s1]| | | |] eqn:E;
    try discriminate.
  destruct (Retry_counts env p _ _ _ _ _ _ E) as (k & K1 & K2 & K3 & _).
  injection HR' as <- <- <-.
  exists e1. do 2 eexists. exists k. split; [exact HR|].
  cbn [Attempts Action_withState Retries calls writes setWrites setClock]
    in *.
  repeat split; try assumption; lia.
Qed.

Lemma runAction_accounting_witness :
  exists e a' s' k,
    runAction testEnv (testAction "error" 1) Sys0 = Ok ((e, a'), s') /\
    calls s' = k /\ writes s' = (k + 2)%nat /\ Z.of_nat k <= 2.
Proof.
  assert (Hb : withinBudget (testAction "error" 1))
    by (unfold withinBudget; cbn; lia).
  destruct (runAction_accounting testEnv (testAction "error" 1) Sys0
                                 testPlugin eq_refl Hb)
    as (e & a' & s' & k & H1 & _ & H3 & H4 & H5).
  exists e, a', s', k. repeat split; assumption.
Defined.

End RetryMore.

(** ** runChecks *)

Section ChecksMore.
Import sm sm_spec more_spec.

Lemma markRunning_same (env : Env) (l : list Action) :
  forall s, unstuck (markRunning env l s)
              (fun r => Forall2 sameButState l (fst r)).
Proof.
  induction l as [|a l IH]; intros s; cbn [markRunning].
  - cbn. constructor.
  - unfold bind, now, storeWrite, fatal, ret. cbn [fst snd].
    destruct (storeErr env _); [exact I|].
    match goal with |- context [markRunning env l ?x] => specialize (IH x) end.
    destruct (markRunning env l _) as [[l' s']| | | |]; cbn in *; auto.
    constructor; [repeat split|exact IH].
Qed.

Lemma runAll_ran (env : Env) (l : list Action) :
  forall s, unstuck (runAll env l s)
              (fun r => Forall2 ranFrom l (snd (fst r)) /\
                        (fst (fst r) = None <->
                         Forall completed (snd (fst r)))).
Proof.
  induction l as [|a l IH]; intros s; cbn [runAll].
  - cbn. split; [constructor|]. split; [constructor|reflexivity].
  - unfold bind, ret.
    pose proof (runAction_spec env a s) as Ha.
    destruct (registry env (Plugin a)) as [p|]; [|rewrite Ha; exact I].
    destruct Ha as (e & a' & s1 & -> & Hr & Hp & Hq & Hn & Hw & _ & Hs & _).
    specialize (IH s1).
    destruct (runAll env l s1) as [[[es l'] s2]| | | |]; cbn in *; auto.
    destruct IH as [IH1 IH2]. split.
    + constructor; [|exact IH1]. repeat split; try assumption.
      unfold terminal. rewrite Hs. destruct e; auto.
    + unfold completed in *. rewrite Forall_cons, Hs, <- IH2.
      destruct e; split; try discriminate; try tauto.
      * intros [[=] _].
Qed.

Lemma ranFrom_after_same a b c :
  sameButState a b -> ranFrom b c -> ranFrom a c.
Proof.
  intros (A1 & A2 & A3 & A4 & A5) (B1 & B2 & B3 & B4 & B5 & B6).
  repeat split; try congruence; try assumption.
  intros Hb. apply B6. unfold withinBudget in *. rewrite A1, A5. exact Hb.
Qed.

Lemma Forall2_ranFrom_after_same l1 l2 l3 :
  Forall2 sameButState l1 l2 -> Forall2 ranFrom l2 l3 ->
  Forall2 ranFrom l1 l3.
Proof.
  intros H. revert l3.
  induction H as [|a b l1 l2 Hab _ IH]; intros l3 H3; inversion H3; subst;
    constructor; [eapply ranFrom_after_same; eassumption|].
  apply IH. assumption.
Qed.

Lemma runChecks_ran (env : Env) (l : list Action) (s : Sys) :
  unstuck (runChecks env l s)
          (fun r => Forall2 ranFrom l (snd (fst r)) /\
                    (fst (fst r) = None <->
                     Forall completed (snd (fst r)))).
Proof.
  unfold runChecks.
  eapply unstuck_bind; [apply markRunning_same|].
  intros l1 s1 H1. cbn [fst] in H1.
  eapply unstuck_weaken; [apply runAll_ran|].
  intros [[e l2] s2] [H2 H3]. cbn [fst snd] in *.
  split; [|exact H3]. eapply Forall2_ranFrom_after_same; eassumption.
Qed.

(** X11. [runChecks] never blocks and waits for all its actions: when it
    returns, every action has been run to a terminal status, those after a
    failed one too, and the error is nil exactly when every action is
    [Completed]. *)
Theorem runChecks_waits_for_all (env : Env) (l : list Action) (s : Sys) :
  unstuck (runChecks env l s)
          (fun r => length (snd (fst r)) = length l /\
                    Forall terminal (snd (fst r)) /\
                    (fst (fst r) = None <->
                     Forall completed (snd (fst r)))).
Proof.
  eapply unstuck_weaken; [apply runChecks_ran|].
  intros [[e l'] s'] [H1 H2]. cbn [fst snd] in *.
  split; [symmetry; eapply Forall2_length; exact H1|].
  split; [|exact H2].
  clear H2. induction H1 as [|a b l1 l2 Hab _ IH]; constructor;
    [apply Hab|exact IH].
Qed.

(** X12. Every tick of a supervisor starts from actions without attempts:
    whatever the attempts left by earlier runs, after [resetActions] the
    actions [runChecks] returns are within their budgets when no action has
    negative retries. *)
Theorem reset_restores_budget (env : Env) (l : list Action) (s : Sys)
        (Hret : Forall (fun a => 0 <= Retries a) l) :
  unstuck (runChecks env (resetActions l) s)
          (fun r => length (snd (fst r)) = length l /\
                    Forall withinBudget (snd (fst r))).
Proof.
  eapply unstuck_weaken; [apply runChecks_ran|].
  intros [[e l'] s'] [H1 _]. cbn [fst snd] in *.
  split.
  - rewrite <- (Forall2_length _ _ _ H1). unfold resetActions.
    apply length_map.
  - clear e s s'. revert l' H1.
    induction Hret as [|a l Ha _ IH]; intros l' H1; cbn in H1;
      inversion H1; subst; constructor.
    + match goal with
      | H : ranFrom _ _ |- _ =>
          destruct H as (_ & _ & _ & _ & _ & Hw); apply Hw
      end.
      unfold withinBudget. cbn. lia.
    + apply IH. assumption.
Qed.

Lemma reset_restores_budget_witness :
  unstuck (runChecks testEnv
             (resetActions
                [Action_withAttempts
                   [mkAttempt None None 0%nat 0%nat;
                    mkAttempt None None 0%nat 0%nat;
                    mkAttempt None None 0%nat 0%nat]
                   (testAction "ok" 0)])
             Sys0)
          (fun r => length (snd (fst r)) = 1%nat /\
                    Forall withinBudget (snd (fst r))).
Proof.
  apply (reset_restores_budget testEnv
           [Action_withAttempts
              [mkAttempt None None 0%nat 0%nat;
               mkAttempt None None 0%nat 0%nat;
               mkAttempt None None 0%nat 0%nat]
              (testAction "ok" 0)] Sys0).
  constructor; [cbn; lia|constructor].
Defined.

End ChecksMore.

Section ChecksErrors.
Import sm sm_spec more_spec.

Lemma markRunning_fatal (env : Env) (l : list Action) :
  forall (k : nat) (s : Sys) (e : error),
    (k < length l)%nat ->
    storeErr env (writes s + k) = Some e ->
    markRunning env l s = Fatal "failed to write Action".
Proof.
  induction l as [|a l IH]; intros k s e Hk He; cbn in Hk; [lia|].
  cbn [markRunning]. unfold bind, now, storeWrite, fatal, ret.
  cbn [writes setClock].
  destruct (storeErr env (writes s)) eqn:Hw; [reflexivity|].
  destruct k as [|k]; [rewrite Nat.add_0_r in He; congruence|].
  match goal with
  | |- context [markRunning env l ?x] => rewrite (IH k x e)
  end; [reflexivity|lia|].
  cbn. rewrite <- He. f_equal. lia.
Qed.

Lemma runAll_stray (env : Env) (l : list Action) :
  Exists (fun a => registry env (Plugin a) = None) l ->
  forall s, match runAll env l s with
            | Panic _ | Fatal _ => True
            | _ => False
            end.
Proof.
  induction 1 as [a l Ha|a l _ IH]; intros s; cbn [runAll]; unfold bind.
  - pose proof (runAction_spec env a s) as H. rewrite Ha in H.
    rewrite H. exact I.
  - pose proof (runAction_spec env a s) as H.
    destruct (registry env (Plugin a)).
    + destruct H as (e & a' & s1 & -> & _).
      specialize (IH s1).
      destruct (runAll env l s1) as [[[es l'] s2]| | | |];
        try contradiction; exact I.
    + rewrite H. exact I.
Qed.

(** X13. When one of the first [len(actions)] storage writes of [runChecks]
    fails, the process exits with [log.Fatalf] in the first loop, whatever
    the action it was writing: no action is run. *)
Theorem runChecks_write_failure_is_fatal (env : Env) (l : list Action)
        (s : Sys) (k : nat) (e : error)
        (Hk : (k < length l)%nat)
        (Hw : storeErr env (writes s + k) = Some e) :
  runChecks env l s = Fatal "failed to write Action".
Proof.
  unfold runChecks, bind.
  rewrite (markRunning_fatal env l k s e Hk Hw). reflexivity.
Qed.

Lemma runChecks_write_failure_is_fatal_witness :
  runChecks thirdWriteFails
            [testAction "a" 0; testAction "b" 0; testAction "c" 0;
             testAction "d" 0] Sys0
  = Fatal "failed to write Action".
Proof.
  apply (runChecks_write_failure_is_fatal
           thirdWriteFails
           [testAction "a" 0; testAction "b" 0; testAction "c" 0;
            testAction "d" 0] Sys0 2 (errorString "disk"));
    [cbn; lia|reflexivity].
Defined.

(** X14. [runChecks] over actions one of which names a plugin that is not
    registered never returns: the nil plugin is dereferenced (or a write of
    the first loop has failed before). *)
Theorem runChecks_unregistered_plugin (env : Env) (l : list Action) (s : Sys)
        (Hstray : Exists (fun a => registry env (Plugin a) = None) l) :
  match runChecks env l s with
  | Panic _ | Fatal _ => True
  | _ => False
  end.
Proof.
  unfold runChecks, bind.
  pose proof (markRunning_same env l s) as Hm.
  destruct (markRunning env l s) as [[l1 s1]| | | |]; cbn in Hm; auto.
  apply runAll_stray. clear s s1.
  induction Hm as [|a b l l1 Hab _ IH]; inversion Hstray; subst.
  - left. destruct Hab as (_ & -> & _). assumption.
  - right. apply IH. assumption.
Qed.

Lemma runChecks_unregistered_plugin_witness :
  match runChecks testEnv [testAction "ok" 0; strayAction] Sys0 with
  | Panic _ | Fatal _ => True
  | _ => False
  end.
Proof.
  apply (runChecks_unregistered_plugin
           testEnv [testAction "ok" 0; strayAction] Sys0).
  right. left. reflexivity.
Defined.

End ChecksErrors.

(** ** execSeq and runPreChecks *)

Section SeqMore.
Import sm sm_spec more_spec.

Lemma execActions_shape (env : Env) (l : list Action) :
  forall s,
    unstuck (execActions env l s)
      (fun r =>
         match fst (fst r) with
         | None =>
             length (snd (fst r)) = length l /\
             Forall completed (snd (fst r))
         | Some _ =>
             exists done a' rest,
               snd (fst r) = done ++ a' :: rest /\
               Forall completed done /\
               Status_ (AState a') = Failed /\
               drop (S (length done)) l = rest
         end).
Proof.
  induction l as [|a l IH]; intros s; cbn [execActions].
  - cbn. split; [reflexivity|constructor].
  - unfold bind, ret.
    pose proof (runAction_spec env a s) as Ha.
    destruct (registry env (Plugin a)) as [p|]; [|rewrite Ha; exact I].
    destruct Ha as (e & a' & s1 & -> & _ & _ & _ & _ & _ & _ & Hs & _).
    destruct e as [e|].
    + cbn. exists [], a', l. repeat split; [constructor|exact Hs].
    + specialize (IH s1).
      destruct (execActions env l s1) as [[[e2 l'] s2]| | | |]; cbn in *;
        auto.
      destruct e2 as [e2|].
      * destruct IH as (done & b & rest & -> & Hd & Hb & Hr).
        exists (a' :: done), b, rest. repeat split; try assumption.
        constructor; assumption.
      * destruct IH as [Hl Hc]. split; [congruence|].
        constructor; assumption.
Qed.

Lemma execSeq_status (env : Env) (q : Sequence) (s : Sys) :
  unstuck (execSeq env q s)
    (fun r => Status_ (SState (snd (fst r))) =
              match fst (fst r) with
              | None => Completed
              | Some _ => Failed
              end).
Proof.
  unfold execSeq, bind, ret, storeWrite. cbn [fst snd].
  match goal with
  | |- context [execActions env ?l ?x] =>
      pose proof (execActions_framed env l x) as H;
      destruct (execActions env l x) as [[[e l'] s1]| | | |]
  end; cbn in *; auto.
  destruct e; reflexivity.
Qed.

(** X15. [execSeq] stops at the first action that fails: when it returns an
    error, the actions before the failed one are [Completed], the failed one
    is [Failed], those after it are as they were given (not run, not even
    marked), and the sequence is [Failed]; when it returns nil, every action
    is [Completed] and so is the sequence. *)
Theorem execSeq_stops_at_first_failure (env : Env) (q : Sequence) (s : Sys) :
  unstuck (execSeq env q s)
    (fun r =>
       SName (snd (fst r)) = SName q /\
       match fst (fst r) with
       | None =>
           Status_ (SState (snd (fst r))) = Completed /\
           length (SActions (snd (fst r))) = length (SActions q) /\
           Forall completed (SActions (snd (fst r)))
       | Some _ =>
           Status_ (SState (snd (fst r))) = Failed /\
           exists done a',
             SActions (snd (fst r)) =
               done ++ a' :: drop (S (length done)) (SActions q) /\
             Forall completed done /\
             Status_ (AState a') = Failed
       end).
Proof.
  unfold execSeq, bind, ret, storeWrite. cbn [fst snd].
  match goal with
  | |- context [execActions env ?l ?x] =>
      pose proof (execActions_shape env l x) as H;
      destruct (execActions env l x) as [[[e l'] s1]| | | |]
  end; cbn in *; auto.
  destruct e as [e|]; cbn.
  - destruct H as (done & a' & rest & -> & Hd & Ha & <-).
    split; [reflexivity|].
    split; [reflexivity|]. exists done, a'. repeat split; assumption.
  - destruct H as [Hl Hc]. repeat split; assumption.
Qed.

End SeqMore.

Section PreChecksMore.
Import sm sm_spec more_spec.

Lemma allCompleted_None : allCompleted None.
Proof. intros k [=]. Qed.

Lemma allCompleted_Some (c : Checks) :
  allCompleted (Some c) <-> Forall completed (Actions c).
Proof.
  split; [intros H; apply H; reflexivity|intros H k [= <-]; exact H].
Qed.

Ltac run_checks env :=
  match goal with
  | |- context [runChecks env ?l ?x] =>
      let H := fresh "Hran" in
      let e := fresh "e" in
      let l' := fresh "l" in
      let s' := fresh "s" in
      pose proof (runChecks_ran env l x) as H;
      destruct (runChecks env l x) as [[[e l'] s']| | | |];
      cbn [unstuck fst snd] in H; try exact I; try contradiction;
      destruct H as [_ H]
  end.

(** X16. [runPreChecks] runs the pre-checks and the continuous checks that
    are present, all of them, and never blocks. The error is nil exactly
    when every action of both is [Completed]; [preFail] is set exactly when
    an action of the pre-checks is not, and then the error is not nil. With
    neither present nothing is run and nothing is written. *)
Theorem runPreChecks_verdict (env : Env) (pre cont : option Checks) (s : Sys) :
  unstuck (runPreChecks env pre cont s)
    (fun r =>
       let preFail := fst (fst (fst (fst r))) in
       let err := snd (fst (fst (fst r))) in
       let pre' := snd (fst (fst r)) in
       let cont' := snd (fst r) in
       (pre' = None <-> pre = None) /\
       (cont' = None <-> cont = None) /\
       (err = None <-> allCompleted pre' /\ allCompleted cont') /\
       (preFail = true <-> ~ allCompleted pre') /\
       (preFail = true -> err <> None) /\
       (pre = None -> cont = None -> snd r = s)).
Proof.
  assert (Hnn : forall P : Prop, P -> ~ ~ P) by tauto.
  destruct pre as [pc|], cont as [cc|]; unfold runPreChecks, bind, ret.
  - run_checks env. run_checks env. cbn [fst snd].
    destruct e as [e|], e0 as [e0|]; cbv zeta; cbn -[allCompleted completed];
      rewrite ?allCompleted_Some; cbn [Actions Checks_withActions];
      repeat split; try discriminate; try tauto;
      try (intros [A B]; try apply Hran in A; try apply Hran0 in B;
           discriminate);
      try (intros _ A; apply Hran in A; discriminate);
      try (intros A; exfalso; apply A; apply Hran; reflexivity);
      try (apply Hran; reflexivity); try (apply Hran0; reflexivity).
  - run_checks env. cbn [fst snd].
    destruct e as [e|]; cbv zeta; cbn -[allCompleted completed];
      rewrite ?allCompleted_Some; cbn [Actions Checks_withActions];
      repeat split; try discriminate; try tauto;
      try apply allCompleted_None;
      try (intros [A B]; apply Hran in A; discriminate);
      try (intros _ A; apply Hran in A; discriminate);
      try (intros A; exfalso; apply A; apply Hran; reflexivity);
      try (apply Hran; reflexivity).
  - run_checks env. cbn [fst snd].
    destruct e as [e|]; cbv zeta; cbn -[allCompleted completed];
      rewrite ?allCompleted_Some; cbn [Actions Checks_withActions];
      repeat split; try discriminate; try tauto;
      try apply allCompleted_None;
      try (intros [A B]; apply Hran in B; discriminate);
      try (intros A; exfalso; apply A; apply allCompleted_None);
      try (apply Hran; reflexivity).
  - cbn. repeat split; try discriminate; try tauto;
      try apply allCompleted_None.
    intros A; exfalso; apply A; apply allCompleted_None.
Qed.

End PreChecksMore.

(** ** Data.contChecks *)

Section PollMore.
Import sm sm_spec more_spec.
Variable env : Env.

Lemma settle1_polls sup s : polls (settle1 env s sup) = polls s.
Proof.
  unfold settle1. destruct (chans s !! supCh sup) as [c|]; [|reflexivity].
  destruct (closed c); [reflexivity|].
  destruct (verdict env s sup) as [[e|]|]; reflexivity.
Qed.

Lemma settle_polls s : polls (settle env s) = polls s.
Proof.
  unfold settle. generalize (spawned s). intros l. revert s.
  induction l as [|sup l IH]; intros s; cbn; [reflexivity|].
  rewrite IH. apply settle1_polls.
Qed.

Lemma selected_ready (ot : ObjectType) (ch : option nat) (s : Sys) :
  isReady s ch = true ->
  exists a v s',
    ch = Some a /\ selected ot ch s = Ok ((ot, v), s') /\
    polls s' = polls s /\ chlog s' = evRecv a v :: chlog s.
Proof.
  unfold isReady, selected, recvNow. destruct ch as [a|]; [|discriminate].
  cbn [lookupChan]. destruct (chans s !! a) as [c|]; [|discriminate].
  cbn [fmap option_fmap option_map].
  destruct (take c) as [[v c']|].
  - intros _. exists a, v. eexists. repeat split.
  - intros H. apply bool_decide_eq_true_1 in H. destruct H as [x [=]].
Qed.

(** X17. [Data.contChecks] never waits: every call returns, after one poll
    and at most one receive. What it returns is [OTUnknown] with a nil
    error and no receive, [OTPlan] with the value received from the channel
    of the plan, or, only when there is a current block, [OTBlock] with the
    value received from the channel of that block. *)
Theorem contChecks_never_waits (d : Data) (s : Sys) :
  exists ot v s',
    contChecks env d s = Ok ((ot, v), s') /\
    polls s' = S (polls s) /\
    ((ot = OTUnknown /\ v = None /\ chlog s' = chlog (settle env s)) \/
     (ot = OTPlan /\
      exists a, dContCheckResult d = Some a /\
                chlog s' = evRecv a v :: chlog (settle env s)) \/
     (ot = OTBlock /\
      exists h hs a, blocks d = h :: hs /\ contCheckResult h = Some a /\
                     chlog s' = evRecv a v :: chlog (settle env s))).
Proof.
  unfold contChecks.
  set (s1 := setPolls (S (polls (settle env s))) (settle env s)).
  assert (Hp : polls s1 = S (polls s)) by (cbn; rewrite settle_polls; auto).
  assert (Hl : chlog s1 = chlog (settle env s)) by reflexivity.
  assert (Hplan :
            isReady s1 (dContCheckResult d) = true ->
            exists ot v s',
              selected OTPlan (dContCheckResult d) s1 = Ok ((ot, v), s') /\
              polls s' = S (polls s) /\
              ((ot = OTUnknown /\ v = None /\
                chlog s' = chlog (settle env s)) \/
               (ot = OTPlan /\
                exists a, dContCheckResult d = Some a /\
                          chlog s' = evRecv a v :: chlog (settle env s)) \/
               (ot = OTBlock /\
                exists h hs a,
                  blocks d = h :: hs /\ contCheckResult h = Some a /\
                  chlog s' = evRecv a v :: chlog (settle env s)))).
  { intros Hr.
    destruct (selected_ready OTPlan _ _ Hr) as (a & v & s' & E & H1 & H2 & H3).
    exists OTPlan, v, s'. split; [exact H1|]. split; [congruence|].
    right. left. split; [reflexivity|]. exists a. split; congruence. }
  destruct (blocks d) as [|h hs] eqn:Hb.
  - destruct (isReady s1 (dContCheckResult d)) eqn:Hr; [auto|].
    exists OTUnknown, None, s1. repeat split; auto.
  - assert (Hblock :
              isReady s1 (contCheckResult h) = true ->
              exists ot v s',
                selected OTBlock (contCheckResult h) s1 = Ok ((ot, v), s') /\
                polls s' = S (polls s) /\
                ((ot = OTUnknown /\ v = None /\
                  chlog s' = chlog (settle env s)) \/
                 (ot = OTPlan /\
                  exists a, dContCheckResult d = Some a /\
                            chlog s' = evRecv a v :: chlog (settle env s)) \/
                 (ot = OTBlock /\
                  exists h0 hs0 a,
                    h :: hs = h0 :: hs0 /\ contCheckResult h0 = Some a /\
                    chlog s' = evRecv a v :: chlog (settle env s)))).
    { intros Hr.
      destruct (selected_ready OTBlock _ _ Hr)
        as (a & v & s' & E & H1 & H2 & H3).
      exists OTBlock, v, s'. split; [exact H1|]. split; [congruence|].
      right. right. split; [reflexivity|]. exists h, hs, a.
      repeat split; congruence. }
    destruct (isReady s1 (dContCheckResult d)) eqn:Hr,
             (isReady s1 (contCheckResult h)) eqn:Hr'; cbn [andb].
    + destruct (pick env _); auto.
    + auto.
    + auto.
    + exists OTUnknown, None, s1. repeat split; auto.
Qed.

End PollMore.

(** ** The transitions of the machine *)

Section TableProofs.
Import sm sm_spec more_spec table_spec.
Variable env : Env.

Lemma whenOk_bind_any {A B} (m : M A) (k : A -> M B) (s : Sys)
      (Q : B * Sys -> Prop) :
  (forall a s', whenOk (k a s') Q) -> whenOk (bind m k s) Q.
Proof.
  intros H. eapply whenOk_bind with (P := fun _ => True); [intros x _; exact I|].
  intros a s' _. apply H.
Qed.

Lemma whenOk_onReturn {A} (r : result A) (P : A -> Prop) :
  whenOk r P -> onReturn r P.
Proof. intros H. destruct r; cbn; auto. Qed.

Lemma moved_refl targets req : moved targets req req.
Proof. repeat split; auto. Qed.

Lemma moved_next targets n req r :
  n ∈ targets -> moved targets req r -> moved targets req (setNext (Some n) r).
Proof.
  intros Hn (H1 & _ & H3 & H4). repeat split; try assumption.
  right. exists n. split; [reflexivity|exact Hn].
Qed.

Lemma moved_updBlock targets i f req r :
  moved targets req r -> moved targets req (updBlock i f r).
Proof.
  intros (H1 & H2 & H3 & H4). repeat split; try assumption.
  cbn. rewrite length_alter. exact H4.
Qed.

Lemma moved_setPlan targets p req r :
  Name p = Name (Plan (Data_ r)) ->
  length (Blocks p) = length (Blocks (Plan (Data_ r))) ->
  moved targets req r -> moved targets req (setPlan p r).
Proof.
  intros E1 E2 (H1 & H2 & H3 & H4). repeat split; try assumption; cbn;
    congruence.
Qed.

Lemma moved_setBlocks targets l req r :
  moved targets req r -> moved targets req (setBlocks l r).
Proof. intros (H1 & H2 & H3 & H4). repeat split; assumption. Qed.

Lemma moved_setDContCancel targets f req r :
  moved targets req r -> moved targets req (setDContCancel f r).
Proof. intros (H1 & H2 & H3 & H4). repeat split; assumption. Qed.

Lemma moved_setDContCheckResult targets f req r :
  moved targets req r -> moved targets req (setDContCheckResult f r).
Proof. intros (H1 & H2 & H3 & H4). repeat split; assumption. Qed.

End TableProofs.

Section TableStates.
Import sm sm_spec more_spec table_spec.
Variable env : Env.

Ltac moved_step :=
  match goal with
  | |- whenOk (ret _ _) _ => apply whenOk_ret
  | |- whenOk (bind _ _ _) _ => apply whenOk_bind_any; intros ? ?
  | |- whenOk (panic _ _) _ => intros ?; discriminate
  | |- whenOk (fatal _ _) _ => intros ?; discriminate
  | x : (_ * _)%type |- _ => destruct x
  | |- whenOk (match ?x with _ => _ end _) _ => destruct x
  | |- whenOk (if ?x then _ else _) _ => destruct x
  | |- whenOk (match ?x with _ => _ end) _ => destruct x
  end.

Ltac moved_done :=
  cbn [fst snd];
  repeat first
    [ apply moved_refl
    | apply moved_next; [cbn; repeat constructor|]
    | apply moved_updBlock
    | apply moved_setBlocks
    | apply moved_setDContCancel
    | apply moved_setDContCheckResult
    | apply moved_setPlan; [reflexivity|reflexivity|] ].

Lemma Start_moved req s :
  whenOk (Start env req s) (fun x => moved (successors sStart) req (fst x)).
Proof.
  unfold Start. repeat moved_step; moved_done.
Qed.

Lemma PlanPreChecks_moved req s :
  whenOk (PlanPreChecks env req s)
         (fun x => moved (successors sPlanPreChecks) req (fst x)).
Proof.
  unfold PlanPreChecks. repeat moved_step; moved_done.
Qed.

Lemma PlanStartContChecks_moved req s :
  whenOk (PlanStartContChecks req s)
         (fun x => moved (successors sPlanStartContChecks) req (fst x)).
Proof.
  unfold PlanStartContChecks. repeat moved_step; moved_done.
Qed.

Lemma ExecuteBlock_moved req s :
  whenOk (ExecuteBlock env req s)
         (fun x => moved (successors sExecuteBlock) req (fst x)).
Proof.
  unfold ExecuteBlock. repeat moved_step; moved_done.
Qed.

Lemma BlockPreChecks_moved req s :
  whenOk (BlockPreChecks env req s)
         (fun x => moved (successors sBlockPreChecks) req (fst x)).
Proof.
  unfold BlockPreChecks. repeat moved_step; moved_done.
Qed.

Lemma BlockStartContChecks_moved req s :
  whenOk (BlockStartContChecks req s)
         (fun x => moved (successors sBlockStartContChecks) req (fst x)).
Proof.
  unfold BlockStartContChecks. repeat moved_step; moved_done.
Qed.

Lemma submitLoop_moved bi (todo : list Sequence) :
  forall i fails req0 req s,
    moved (successors sExecuteSequences) req0 req ->
    whenOk (submitLoop env bi i todo fails req s)
           (fun x => moved (successors sExecuteSequences) req0 (fst x)).
Proof.
  induction todo as [|q rest IH]; intros i fails req0 req s Hm;
    cbn [submitLoop].
  - apply whenOk_ret. cbn [fst]. apply moved_next; [repeat constructor|].
    exact Hm.
  - apply whenOk_bind_any. intros [h b] s1.
    destruct (_ && _).
    + apply whenOk_ret. cbn [fst]. apply moved_updBlock, Hm.
    + apply whenOk_bind_any. intros [ot cerr] s2.
      destruct cerr.
      * apply whenOk_ret. cbn [fst]. apply moved_updBlock, Hm.
      * apply whenOk_bind_any. intros [err q'] s3.
        apply IH. apply moved_updBlock, Hm.
Qed.

Lemma ExecuteSequences_moved req s :
  whenOk (ExecuteSequences env req s)
         (fun x => moved (successors sExecuteSequences) req (fst x)).
Proof.
  unfold ExecuteSequences. apply whenOk_bind_any. intros [h b] s1.
  destruct (Concurrency b <? 1); [intros x; discriminate|].
  apply submitLoop_moved, moved_refl.
Qed.

Lemma BlockPostChecks_moved req s :
  whenOk (BlockPostChecks env req s)
         (fun x => moved (successors sBlockPostChecks) req (fst x)).
Proof.
  unfold BlockPostChecks. repeat moved_step; moved_done.
Qed.

Lemma BlockEnd_moved req s :
  whenOk (BlockEnd env req s)
         (fun x => moved (successors sBlockEnd) req (fst x)).
Proof.
  unfold BlockEnd. repeat moved_step; moved_done;
    match goal with
    | |- moved _ _ (match ?x with _ => _ end) => destruct x
    end; moved_done.
Qed.

Lemma PlanPostChecks_moved req s :
  whenOk (PlanPostChecks env req s)
         (fun x => moved (successors sPlanPostChecks) req (fst x)).
Proof.
  unfold PlanPostChecks. repeat moved_step; moved_done.
Qed.

Lemma exec_moved st req s :
  whenOk (exec env st req s) (fun x => moved (successors st) req (fst x)).
Proof.
  destruct st; cbn [exec].
  - apply Start_moved.
  - apply PlanPreChecks_moved.
  - apply PlanStartContChecks_moved.
  - apply ExecuteBlock_moved.
  - apply BlockPreChecks_moved.
  - apply BlockStartContChecks_moved.
  - apply ExecuteSequences_moved.
  - apply BlockPostChecks_moved.
  - apply BlockEnd_moved.
  - apply PlanPostChecks_moved.
Qed.

End TableStates.

Section TableClaims.
Import sm sm_spec more_spec table_spec.

(** X18. The transitions of the machine. Whatever the state and the
    request, when the state returns, [Err] is as it was on entry, the plan
    has the name and the number of blocks it had, and [Next] is either
    empty, as the runner left it, or names a successor of the state in the
    table: [Start] goes to [PlanPreChecks], that to [PlanStartContChecks],
    that to [ExecuteBlock], which goes to [PlanPostChecks] or
    [BlockPreChecks]; the states of a block follow each other up to
    [BlockEnd], which goes back to [ExecuteBlock]; [PlanPostChecks] names
    no state. *)
Theorem states_follow_the_table (env : Env) (st : state) (req : Request)
        (s : Sys) :
  onReturn (exec env st (setNext None req) s)
    (fun x =>
       Err (fst x) = Err req /\
       (Next (fst x) = None \/
        exists n, Next (fst x) = Some n /\ n ∈ successors st) /\
       Name (Plan (Data_ (fst x))) = Name (Plan (Data_ req)) /\
       length (Blocks (Plan (Data_ (fst x)))) =
         length (Blocks (Plan (Data_ req)))).
Proof.
  apply whenOk_onReturn.
  eapply whenOk_weaken; [apply exec_moved|].
  intros [r s'] H. exact H.
Qed.

(** X19. The machine never reports through [Err]: whatever happens to the
    plan, when the runner returns, [Err] is what it was on entry; so a
    request entered with a nil [Err] comes back because a state left [Next]
    empty. The plan comes back with its name and as many blocks as it
    had. *)
Theorem machine_never_sets_err (env : Env) (fuel : nat) (req : Request)
        (s : Sys) :
  onReturn (Run env fuel req s)
    (fun x =>
       Err (fst x) = Err req /\
       (Err req = None -> Next (fst x) = None) /\
       Name (Plan (Data_ (fst x))) = Name (Plan (Data_ req)) /\
       length (Blocks (Plan (Data_ (fst x)))) =
         length (Blocks (Plan (Data_ req)))).
Proof.
  apply whenOk_onReturn. revert req s.
  induction fuel as [|fuel IH]; intros req s; cbn [Run].
  - destruct (Next req) eqn:Hn; [intros x; discriminate|].
    apply whenOk_ret. cbn. auto.
  - destruct (Next req) as [st|] eqn:Hn; [|apply whenOk_ret; cbn; auto].
    eapply whenOk_bind; [apply exec_moved|].
    intros r s1 (H1 & _ & H3 & H4). cbn [fst] in *. cbn in H1, H3, H4.
    destruct (Err r) eqn:He.
    + apply whenOk_ret. cbn [fst]. repeat split; try congruence.
    + eapply whenOk_weaken; [apply IH|].
      intros [r2 s2] (A1 & A2 & A3 & A4). cbn [fst] in *.
      repeat split; try congruence. intros _. apply A2. exact He.
Qed.

Lemma reaches_moved (env : Env) x y :
  reaches env x y ->
  Err (fst y) = Err (fst x) /\
  length (Blocks (Plan (Data_ (fst y)))) =
    length (Blocks (Plan (Data_ (fst x)))).
Proof.
  induction 1 as [x|req s st req1 s1 x He Hn Hx _ IH]; [auto|].
  destruct (exec_moved env st (setNext None req) s _ Hx)
    as (H1 & _ & _ & H4).
  cbn [fst] in *. cbn in H1, H4. destruct IH as [A1 A2].
  split; congruence.
Qed.

Lemma ExecuteBlock_to_post (env : Env) req s r s' :
  ExecuteBlock env req s = Ok (r, s') -> Next req = None ->
  Next r = Some sPlanPostChecks -> blocks (Data_ r) = [].
Proof.
  unfold ExecuteBlock. destruct (blocks (Data_ req)) as [|h hs] eqn:Hb.
  - intros [= <- <-] _ _. exact Hb.
  - unfold bind, storeWrite, ret.
    destruct (head req s) as [[[h' b] s1]| | | |]; try discriminate.
    destruct (storeErr env _); intros [= <- <-] Hn; cbn; congruence.
Qed.

Lemma reaches_post (env : Env) x y :
  reaches env x y ->
  (Next (fst x) = Some sPlanPostChecks -> blocks (Data_ (fst x)) = []) ->
  Next (fst y) = Some sPlanPostChecks -> blocks (Data_ (fst y)) = [].
Proof.
  induction 1 as [x|req s st req1 s1 x He Hn Hx _ IH]; [auto|].
  intros _. apply IH. cbn [fst]. intros Hp.
  destruct (exec_moved env st (setNext None req) s _ Hx)
    as (_ & [H2|(n & H2 & Hin)] & _); cbn [fst] in *.
  - cbn in H2. congruence.
  - assert (n = sPlanPostChecks) by congruence. subst n.
    destruct st; cbn in Hin;
      repeat match goal with
             | H : _ ∈ _ :: _ |- _ => apply elem_of_cons in H as [H|H]
             | H : _ ∈ [] |- _ => apply elem_of_nil in H; contradiction
             end; try discriminate.
    eapply ExecuteBlock_to_post; [exact Hx|reflexivity|exact Hp].
Qed.

Lemma handles_length L n : length (handles L n) = n.
Proof. unfold handles. rewrite length_fmap, length_seq. reflexivity. Qed.

Lemma handles_no_cancel L n :
  Forall (fun h => contCancel h = None) (handles L n).
Proof.
  unfold handles. apply Forall_fmap, Forall_forall. intros i _. reflexivity.
Qed.

Lemma run_handles_length (env : Env) (p : workflow.Plan) (s0 : Sys)
      (req : Request) (s : Sys) :
  spawned s0 = [] -> reaches env (startRequest p, s0) (req, s) ->
  Next req <> Some sStart ->
  length (blocks (Data_ req)) = length (Blocks p).
Proof.
  intros Hfresh Hrun Hnext.
  assert (Ht : onTrack (req, s)).
  { eapply reaches_onTrack; [exact Hrun|]. left. cbn. auto. }
  destruct Ht as [(Hs & _)|(_ & (L & H1 & _))]; [cbn in Hs; congruence|].
  cbn [fst] in H1. rewrite H1.
  destruct (reaches_moved env _ _ Hrun) as [_ Hl]. cbn in Hl.
  rewrite handles_length; exact Hl.
Qed.

(** X20. No handle is ever removed. In every run of the machine from
    [Start] on a process without supervisors, once [Start] has returned the
    request holds one handle per block of the plan, none with a cancel
    function: [BlockEnd], the one state that removes a handle, never gets
    that far. *)
Theorem handles_never_popped (env : Env) (p : workflow.Plan) (s0 : Sys)
        (req : Request) (s : Sys)
        (Hfresh : spawned s0 = [])
        (Hrun : reaches env (startRequest p, s0) (req, s))
        (Hnext : Next req <> Some sStart) :
  length (blocks (Data_ req)) = length (Blocks p) /\
  Forall (fun h => contCancel h = None) (blocks (Data_ req)).
Proof.
  assert (Ht : onTrack (req, s)).
  { eapply reaches_onTrack; [exact Hrun|]. left. cbn. auto. }
  destruct Ht as [(Hs & _)|(_ & (L & H1 & _))]; [cbn in Hs; congruence|].
  cbn [fst] in H1. rewrite H1.
  destruct (reaches_moved env _ _ Hrun) as [_ Hl]. cbn in Hl.
  split; [rewrite handles_length; exact Hl|apply handles_no_cancel].
Qed.

Lemma handles_never_popped_witness :
  reaches testEnv (startRequest plainPlan, Sys0) atBlockEnd /\
  length (blocks (Data_ (fst atBlockEnd))) = 1%nat.
Proof.
  assert (Hrun : reaches testEnv (startRequest plainPlan, Sys0) atBlockEnd).
  { apply (steps_reaches testEnv 8). vm_compute. reflexivity. }
  split; [exact Hrun|].
  refine (proj1 (handles_never_popped testEnv plainPlan Sys0 (fst atBlockEnd)
                   (snd atBlockEnd) eq_refl Hrun _)).
  vm_compute. discriminate.
Defined.

(** X21. [PlanPostChecks] is entered only for a plan without blocks: in
    every run of the machine from [Start] on a process without supervisors,
    when [Next] names [PlanPostChecks] the plan has no block. A plan with
    a block never has its post-checks run. *)
Theorem plan_postchecks_only_without_blocks (env : Env) (p : workflow.Plan)
        (s0 : Sys) (req : Request) (s : Sys)
        (Hfresh : spawned s0 = [])
        (Hrun : reaches env (startRequest p, s0) (req, s))
        (Hnext : Next req = Some sPlanPostChecks) :
  Blocks p = [].
Proof.
  assert (Hb : blocks (Data_ req) = []).
  { apply (reaches_post env _ _ Hrun); [cbn; discriminate|exact Hnext]. }
  assert (Hl : length (blocks (Data_ req)) = length (Blocks p)).
  { apply (run_handles_length env p s0 req s Hfresh Hrun). congruence. }
  rewrite Hb in Hl. cbn in Hl. symmetry in Hl.
  apply length_zero_iff_nil in Hl. exact Hl.
Qed.

Lemma plan_postchecks_only_without_blocks_witness :
  reaches testEnv (startRequest watchedPlan, Sys0) atPlanPostChecks /\
  Next (fst atPlanPostChecks) = Some sPlanPostChecks /\
  Blocks watchedPlan = [].
Proof.
  assert (Hrun : reaches testEnv (startRequest watchedPlan, Sys0)
                         atPlanPostChecks).
  { apply (steps_reaches testEnv 4). vm_compute. reflexivity. }
  split; [exact Hrun|]. split; [reflexivity|].
  apply (plan_postchecks_only_without_blocks
           testEnv watchedPlan Sys0 (fst atPlanPostChecks)
           (snd atPlanPostChecks) eq_refl Hrun eq_refl).
Defined.

End TableClaims.

(** ** Start, ExecuteSequences and the supervisor of the plan *)

Section StartMore.
Import sm sm_spec more_spec table_spec.

(** X22. [Start] appends one handle per block of the plan, in the order of
    the blocks, each with a new channel of capacity 1 of its own and no
    cancel function, makes one more channel for the plan, marks the plan
    [Started] at the instant it reads, writes the plan once and goes to
    [PlanPreChecks]; when that write fails the process exits. No supervisor
    is started and no context made. *)
Theorem Start_makes_the_handles (env : Env) (req : Request) (s : Sys) :
  match storeErr env (writes s) with
  | Some _ => Start env req s = Fatal "failed to write Plan"
  | None =>
      exists r s',
        Start env req s = Ok (r, s') /\
        blocks (Data_ r) =
          blocks (Data_ req) ++
          handles (length (chans s)) (length (Blocks (Plan (Data_ req)))) /\
        dContCheckResult (Data_ r) =
          Some (length (chans s) + length (Blocks (Plan (Data_ req))))%nat /\
        dContCancel (Data_ r) = dContCancel (Data_ req) /\
        Plan (Data_ r) =
          Plan_withState (setStart (clock s))
            (Plan_withState (setStatus Started) (Plan (Data_ req))) /\
        Next r = Some sPlanPreChecks /\
        chans s' =
          chans s ++
          replicate (S (length (Blocks (Plan (Data_ req)))))
                    (mkChan [] 1 false) /\
        writes s' = S (writes s) /\
        spawned s' = spawned s /\ ctxs s' = ctxs s
  end.
Proof.
  unfold Start, bind.
  rewrite (makeHandles_spec (length (chans s))) by lia.
  unfold make, now, storeWrite, fatal, ret.
  cbn [chans setChans writes setClock clock setWrites].
  destruct (storeErr env (writes s)); [reflexivity|].
  eexists _, _. split; [reflexivity|]. cbn.
  rewrite length_app, length_replicate.
  repeat split.
  rewrite <- app_assoc. f_equal.
  induction (length (Blocks (Plan (Data_ req)))) as [|k IH]; cbn;
    [reflexivity|]. f_equal. exact IH.
Qed.

End StartMore.

Section SequencesMore.
Import sm sm_spec more_spec table_spec.
Variable env : Env.

Lemma isReady_idle a s : idle a s -> isReady s (Some a) = false.
Proof.
  intros [H1 _]. unfold isReady, lookupChan. rewrite H1. reflexivity.
Qed.

Lemma isReady_quiet (s : Sys) (ch : option nat) :
  (forall a, ch = Some a -> idle a s) -> isReady s ch = false.
Proof.
  destruct ch as [a|]; [|reflexivity].
  intros H. apply isReady_idle, H. reflexivity.
Qed.

Lemma contChecks_quiet (d : Data) (s : Sys) :
  quiet d s ->
  exists s', contChecks env d s = Ok ((OTUnknown, None), s') /\ keeps s s'.
Proof.
  intros [Hp Hb]. unfold contChecks.
  set (s1 := setPolls (S (polls (settle env s))) (settle env s)).
  assert (Hk : keeps s s1).
  { intros a Hi. apply idle_setPolls, settle_idle, Hi. }
  assert (Hrp : isReady s1 (dContCheckResult d) = false).
  { apply isReady_quiet. intros a E. apply Hk, Hp, E. }
  rewrite Hrp. destruct (blocks d) as [|h hs] eqn:Hd.
  - exists s1. split; [reflexivity|exact Hk].
  - assert (Hrb : isReady s1 (contCheckResult h) = false).
    { apply isReady_quiet. intros a E. eapply Hk, Hb; [reflexivity|exact E]. }
    rewrite Hrb. exists s1. split; [reflexivity|exact Hk].
Qed.

Lemma quiet_keeps d s s' : keeps s s' -> quiet d s -> quiet d s'.
Proof.
  intros Hk [Hp Hb]. split.
  - intros a E. apply Hk, Hp, E.
  - intros h hs a E1 E2. eapply Hk, Hb; eassumption.
Qed.

Lemma execSeq_ended (q : Sequence) (s : Sys) :
  unstuck (execSeq env q s)
          (fun r => ended (snd (fst r)) /\ framed s (snd r)).
Proof.
  pose proof (execSeq_status env q s) as H1.
  pose proof (execSeq_framed env q s) as H2.
  destruct (execSeq env q s) as [[[e q'] s']| | | |]; cbn in *; auto.
  split; [|exact H2]. unfold ended. rewrite H1.
  destruct e; [right|left]; reflexivity.
Qed.

Lemma submitLoop_unlimited (bi : nat) (todo : list Sequence) :
  forall (i : nat) (fails : list bool) (req : Request) (s : Sys)
         (h : block) (hs : list block) (b : Block),
    blocks (Data_ req) = h :: hs ->
    block_ h = bi ->
    Blocks (Plan (Data_ req)) !! bi = Some b ->
    ToleratedFailures b < 0 ->
    quiet (Data_ req) s ->
    length (Sequences b) = (i + length todo)%nat ->
    Forall ended (firstn i (Sequences b)) ->
    unstuck (submitLoop env bi i todo fails req s)
      (fun x =>
         Next (fst x) = Some sBlockPostChecks /\
         exists b',
           Blocks (Plan (Data_ (fst x))) !! bi = Some b' /\
           BState b' = BState b /\
           length (Sequences b') = length (Sequences b) /\
           Forall ended (Sequences b')).
Proof.
  induction todo as [|q rest IH];
    intros i fails req s h hs b Hh Hbi Hb Htol Hq Hlen Hdone;
    cbn [submitLoop].
  - cbn. split; [reflexivity|]. exists b. repeat split; try assumption.
    cbn in Hlen. rewrite Nat.add_0_r in Hlen.
    rewrite <- Hlen, firstn_all in Hdone. exact Hdone.
  - unfold bind. subst bi. rewrite (head_eq req h hs b s Hh Hb).
    replace (ToleratedFailures b >=? 0) with false by (symmetry; lia).
    cbn [andb].
    destruct (contChecks_quiet (Data_ req) s Hq) as (s1 & -> & Hk1).
    pose proof (execSeq_ended q s1) as Hx.
    destruct (execSeq env q s1) as [[[err q'] s2]| | | |]; cbn in Hx; auto.
    destruct Hx as [Hq' Hf].
    set (b1 := Block_withSequences (<[i := q']> (Sequences b)) b).
    eapply unstuck_weaken.
    + eapply (IH (S i) _ _ s2 h hs b1).
      * exact Hh.
      * reflexivity.
      * cbn. rewrite list_lookup_alter_eq, Hb. reflexivity.
      * exact Htol.
      * eapply quiet_keeps; [|exact Hq].
        eapply keeps_trans; [exact Hk1|apply framed_keeps, Hf].
      * cbn. rewrite length_insert. cbn in Hlen. lia.
      * cbn. cbn in Hlen.
        rewrite (take_S_r _ _ q').
        -- apply Forall_app. split; [|constructor; [exact Hq'|constructor]].
           rewrite take_insert_ge by lia. exact Hdone.
        -- apply list_lookup_insert_eq. lia.
    + intros [r s3] (H1 & b' & H2 & H3 & H4 & H5). cbn [fst] in *.
      split; [exact H1|]. exists b'. repeat split; try assumption.
      rewrite H4. cbn. apply length_insert.
Qed.

(** X23. A negative [ToleratedFailures] means any number of failures: as
    long as no continuous check can be heard of, [ExecuteSequences] on such
    a block never blocks and, when it returns, every sequence has been run
    to its end, [Completed] or [Failed], the status of the block is as it
    was and [Next] names [BlockPostChecks], however many sequences
    failed. *)
Theorem unlimited_failures_never_fail_the_block
        (req : Request) (s : Sys) (h : block) (hs : list block) (b : Block)
        (Hh : blocks (Data_ req) = h :: hs)
        (Hb : Blocks (Plan (Data_ req)) !! block_ h = Some b)
        (Htol : ToleratedFailures b < 0)
        (Hconc : 1 <= Concurrency b)
        (Hquiet : quiet (Data_ req) s) :
  unstuck (ExecuteSequences env req s)
    (fun x =>
       Next (fst x) = Some sBlockPostChecks /\
       exists b',
         Blocks (Plan (Data_ (fst x))) !! block_ h = Some b' /\
         BState b' = BState b /\
         length (Sequences b') = length (Sequences b) /\
         Forall ended (Sequences b')).
Proof.
  unfold ExecuteSequences, bind. rewrite (head_eq req h hs b s Hh Hb).
  replace (Concurrency b <? 1) with false by (symmetry; lia).
  eapply (submitLoop_unlimited (block_ h) (Sequences b) 0 [] req s h hs b);
    try assumption; try reflexivity.
  constructor.
Qed.

End SequencesMore.

Section SequencesWitness.
Import sm sm_spec more_spec table_spec.

Lemma unlimited_failures_never_fail_the_block_witness :
  unstuck (ExecuteSequences testEnv
             (requestOn (planOf [unlimitedBlock]) (mkBlockH 0 None None))
             Sys0)
    (fun x =>
       Next (fst x) = Some sBlockPostChecks /\
       exists b',
         Blocks (Plan (Data_ (fst x))) !! 0%nat = Some b' /\
         BState b' = BState unlimitedBlock /\
         length (Sequences b') = 3%nat /\
         Forall ended (Sequences b')).
Proof.
  apply (unlimited_failures_never_fail_the_block
           testEnv
           (requestOn (planOf [unlimitedBlock]) (mkBlockH 0 None None))
           Sys0 (mkBlockH 0 None None) [] unlimitedBlock).
  - reflexivity.
  - reflexivity.
  - reflexivity.
  - cbn. lia.
  - split; [intros a [=]|intros h hs a [= <- _] [=]].
Defined.

End SequencesWitness.

Section HandshakeProofs.
Import sm sm_spec more_spec table_spec.
Variable env : Env.

Lemma settle1_frame sup s :
  ctxs (settle1 env s sup) = ctxs s /\
  clock (settle1 env s sup) = clock s /\
  spawned (settle1 env s sup) = spawned s.
Proof.
  unfold settle1. destruct (chans s !! supCh sup) as [c|]; [|auto].
  destruct (closed c); [auto|].
  destruct (verdict env s sup) as [[e|]|]; auto.
Qed.

Lemma settle1_chan_ne a sup s :
  supCh sup <> a -> chans (settle1 env s sup) !! a = chans s !! a.
Proof.
  intros E. unfold settle1.
  destruct (chans s !! supCh sup) as [c|] eqn:Hc; [|reflexivity].
  destruct (closed c); [reflexivity|].
  destruct (verdict env s sup) as [[e|]|]; cbn; try reflexivity;
    apply list_lookup_insert_ne; exact E.
Qed.

Lemma fold_settle_frame a l :
  forall s,
    Forall (fun sup => supCh sup <> a) l ->
    ctxs (fold_left (settle1 env) l s) = ctxs s /\
    clock (fold_left (settle1 env) l s) = clock s /\
    spawned (fold_left (settle1 env) l s) = spawned s /\
    chans (fold_left (settle1 env) l s) !! a = chans s !! a.
Proof.
  induction l as [|sup l IH]; intros s Hl; cbn; [auto|].
  apply Forall_cons in Hl as [Hx Hl].
  destruct (IH (settle1 env s sup)) as (H1 & H2 & H3 & H4); [assumption|].
  destruct (settle1_frame sup s) as (A1 & A2 & A3).
  rewrite H1, H2, H3, H4, A1, A2, A3. repeat split.
  apply settle1_chan_ne. assumption.
Qed.

(** What [settle] does to the channel [a] of the supervisor started last,
    when no other supervisor publishes on [a]. *)
Lemma settle_last a c l s :
  spawned s = l ++ [mkSup c a] ->
  Forall (fun sup => supCh sup <> a) l ->
  ctxs (settle env s) = ctxs s /\
  clock (settle env s) = clock s /\
  spawned (settle env s) = spawned s /\
  chans (settle env s) !! a =
    match chans s !! a with
    | Some ch =>
        if closed ch then Some ch
        else match verdict env s (mkSup c a) with
             | Some v => Some (deliver v ch)
             | None => Some ch
             end
    | None => None
    end.
Proof.
  intros Hsp Hl. unfold settle. rewrite Hsp, fold_left_app. cbn [fold_left].
  destruct (fold_settle_frame a l s Hl) as (H1 & H2 & H3 & H4).
  set (s1 := fold_left (settle1 env) l s) in *.
  destruct (settle1_frame (mkSup c a) s1) as (A1 & A2 & A3).
  rewrite A1, A2, A3, H1, H2, H3. repeat split; [exact Hsp|].
  assert (Hv : verdict env s1 (mkSup c a) = verdict env s (mkSup c a)).
  { unfold verdict, cancelled. rewrite H1, H2. reflexivity. }
  unfold settle1. cbn [supCh]. rewrite H4.
  destruct (chans s !! a) as [ch|] eqn:Hc; try rewrite Hc in H4; [|exact H4].
  destruct (closed ch) eqn:Hcl; [exact H4|].
  assert (Hlt : (a < length (chans s1))%nat).
  { apply (lookup_lt_Some _ _ ch). exact H4. }
  rewrite Hv. destruct (verdict env s (mkSup c a)) as [[e|]|]; cbn;
    try exact H4; apply list_lookup_insert_eq; exact Hlt.
Qed.

(** The cancel of the context of a supervisor that is still looping,
    followed by a receive on its channel. *)
Lemma cancel_then_receive a c l s1 :
  spawned s1 = l ++ [mkSup c a] ->
  Forall (fun sup => supCh sup <> a) l ->
  chans s1 !! a = Some (mkChan [] 1 false) ->
  ctxs s1 !! c = Some false ->
  exists v s3,
    bind (callCancel env (Some c)) (fun _ => chRecv env (Some a)) s1
      = Ok (v, s3) /\
    cancelled s3 c = true /\
    chans s3 !! a = Some (mkChan [] 1 true) /\
    ctxs s3 = <[c := true]> (ctxs s1) /\
    v = match trip env a with
        | Some (t, e) => if (t <=? clock s1)%nat then Some e else None
        | None => None
        end.
Proof.
  intros Hsp Hl Hch Hctx. unfold bind, callCancel.
  destruct (settle_last a c l s1 Hsp Hl) as (A1 & A2 & A3 & A4).
  rewrite Hch in A4. cbn [closed] in A4.
  remember (settle env s1) as s2 eqn:Es2. clear Es2.
  set (s3 := setCtxs (<[c := true]> (ctxs s2)) s2).
  assert (Hsp3 : spawned s3 = l ++ [mkSup c a]) by (cbn; congruence).
  destruct (settle_last a c l s3 Hsp3 Hl) as (B1 & B2 & B3 & B4).
  assert (Hcan : cancelled s3 c = true).
  { unfold cancelled. cbn. rewrite A1.
    rewrite list_lookup_insert_eq; [reflexivity|].
    apply (lookup_lt_Some _ _ false). exact Hctx. }
  assert (Hnot : cancelled s1 c = false).
  { unfold cancelled. rewrite Hctx. reflexivity. }
  unfold chRecv. fold s3.
  remember (settle env s3) as s4 eqn:Es4. clear Es4.
  change (chans s3) with (chans s2) in B4.
  assert (Hv3 : forall t e,
             trip env a = Some (t, e) -> (t <=? clock s1)%nat = false ->
             verdict env s3 (mkSup c a) = Some None).
  { intros t e Ht Hle. unfold verdict. cbn [supCh supCtx]. rewrite Ht.
    change (clock s3) with (clock s2). rewrite A2, Hle, Hcan. reflexivity. }
  unfold verdict in A4. cbn [supCh supCtx] in A4. rewrite Hnot in A4.
  unfold recvNow, lookupChan.
  destruct (trip env a) as [[t e]|] eqn:Ht.
  - destruct (t <=? clock s1)%nat eqn:Hle.
    + rewrite A4 in B4. cbn [closed deliver] in B4. rewrite B4. cbn.
      eexists _, _. split; [reflexivity|]. cbn.
      split; [unfold cancelled; cbn; rewrite B1; exact Hcan|].
      split; [apply list_lookup_insert_eq;
              apply (lookup_lt_Some _ _ _ B4)|].
      split; [rewrite B1; cbn; rewrite A1; reflexivity|reflexivity].
    + rewrite A4 in B4. cbn [closed] in B4.
      rewrite (Hv3 t e eq_refl Hle) in B4. cbn [deliver] in B4.
      rewrite B4. cbn.
      eexists _, _. split; [reflexivity|]. cbn.
      split; [unfold cancelled; cbn; rewrite B1; exact Hcan|].
      split; [apply list_lookup_insert_eq;
              apply (lookup_lt_Some _ _ _ B4)|].
      split; [rewrite B1; cbn; rewrite A1; reflexivity|reflexivity].
  - rewrite A4 in B4. cbn [closed] in B4.
    assert (Hv : verdict env s3 (mkSup c a) = Some None).
    { unfold verdict. cbn [supCh supCtx]. rewrite Ht, Hcan. reflexivity. }
    rewrite Hv in B4. cbn [deliver] in B4. rewrite B4. cbn.
    eexists _, _. split; [reflexivity|]. cbn.
    split; [unfold cancelled; cbn; rewrite B1; exact Hcan|].
    split; [apply list_lookup_insert_eq;
            apply (lookup_lt_Some _ _ _ B4)|].
    split; [rewrite B1; cbn; rewrite A1; reflexivity|reflexivity].
Qed.

End HandshakeProofs.

Section HandshakeClaims.
Import sm sm_spec more_spec table_spec.

(** X24. The supervisor of the plan is stopped. When the plan has
    continuous checks and its channel is as [Start] made it,
    [PlanStartContChecks] keeps the cancel function in the request it
    returns, and [PlanPostChecks], entered with that request, never blocks:
    the cancel it calls is that of the supervisor, and the receive gets the
    error of a tick that had failed by then, or the close. When it returns
    the context is cancelled and the channel is closed and empty. *)
Theorem plan_supervisor_is_stopped (env : Env) (req : Request) (s : Sys)
        (a : nat) (cc : Checks)
        (Hcc : ContChecks (Plan (Data_ req)) = Some cc)
        (Hch : dContCheckResult (Data_ req) = Some a)
        (Hidle : idle a s) :
  exists r1 s1,
    PlanStartContChecks req s = Ok (r1, s1) /\
    Next r1 = Some sExecuteBlock /\
    dContCancel (Data_ r1) = Some (length (ctxs s)) /\
    spawned s1 = spawned s ++ [mkSup (length (ctxs s)) a] /\
    unstuck (PlanPostChecks env (setNext None r1) s1)
      (fun x =>
         cancelled (snd x) (length (ctxs s)) = true /\
         chans (snd x) !! a = Some (mkChan [] 1 true)).
Proof.
  unfold PlanStartContChecks. rewrite Hcc.
  unfold bind, WithCancel, goSupervise, ret.
  cbn [Data_ setDContCancel setData dContCheckResult]. rewrite Hch.
  eexists _, _. split; [reflexivity|]. split; [reflexivity|].
  split; [reflexivity|]. split; [reflexivity|].
  set (c := length (ctxs s)).
  set (s1 := setSpawned (spawned s ++ [mkSup c a])
                        (setCtxs (ctxs s ++ [false]) s)).
  destruct Hidle as [Hi1 Hi2].
  destruct (cancel_then_receive env a c (spawned s) s1) as
    (v & s3 & E & Hcan & Hcl & Hctx & _).
  { reflexivity. }
  { apply Forall_forall. intros sup Hin Heq. apply Hi2.
    apply list_elem_of_fmap. exists sup. split; [symmetry; exact Heq|].
    exact Hin. }
  { exact Hi1. }
  { cbn. apply list_lookup_middle. reflexivity. }
  unfold PlanPostChecks.
  cbn [Data_ setNext setDContCancel setData Plan dContCancel
       dContCheckResult].
  rewrite Hcc, Hch.
  match goal with |- unstuck (bind _ _ ?x) _ => change x with s1 end.
  unfold bind in *.
  destruct (callCancel env (Some c) s1) as [[[] s2]| | | |];
    try discriminate.
  rewrite E. unfold ret.
  destruct (bool_decide (is_Some v)); [cbn; split; assumption|].
  destruct (PostChecks (Plan (Data_ req))) as [pc|]; [|exact I].
  pose proof (runChecks_framed env (Actions pc) s3) as Hf.
  destruct (runChecks env (Actions pc) s3) as [[[e l] s4]| | | |];
    cbn in Hf; auto.
  destruct Hf as [[(F1 & F2 & _) _] _]. cbn [unstuck snd].
  unfold cancelled in *. rewrite F1, F2. split; assumption.
Qed.

Lemma plan_supervisor_is_stopped_witness :
  exists r1 s1 r2 s2,
    PlanStartContChecks (planRequest watchedPlan) oneChannel = Ok (r1, s1) /\
    PlanPostChecks testEnv (setNext None r1) s1 = Ok (r2, s2) /\
    cancelled s2 0 = true /\
    chans s2 !! 0%nat = Some (mkChan [] 1 true).
Proof.
  destruct (plan_supervisor_is_stopped
              testEnv (planRequest watchedPlan) oneChannel 0%nat
              (testChecks "ok") eq_refl eq_refl)
    as (r1 & s1 & H1 & _ & _ & _ & H2).
  - split; [reflexivity|]. cbn. apply not_elem_of_nil.
  - destruct (PlanPostChecks testEnv (setNext None r1) s1)
      as [[r2 s2]| | | |] eqn:E.
    + exists r1, s1, r2, s2. destruct H2 as [Hc Hch].
      split; [exact H1|]. split; [exact E|]. split; [exact Hc|exact Hch].
    + exfalso. vm_compute in H1. injection H1 as <- <-.
      vm_compute in E. discriminate E.
    + exfalso. vm_compute in H1. injection H1 as <- <-.
      vm_compute in E. discriminate E.
    + exfalso. vm_compute in H1. injection H1 as <- <-.
      vm_compute in E. discriminate E.
    + exfalso. vm_compute in H1. injection H1 as <- <-.
      vm_compute in E. discriminate E.
Defined.

End HandshakeClaims.

Section BlockStates.
Import sm sm_spec more_spec table_spec.

(** X25. [BlockStartContChecks] loses the cancel function it makes. When
    it returns, the data of the request are what they were on entry, the
    handles with them; for a block with continuous checks one context has
    been made and one supervisor started on the channel of the block, and
    no request holds the function that cancels that context. *)
Theorem BlockStartContChecks_drops_the_cancel (req : Request) (s : Sys) :
  onReturn (BlockStartContChecks req s)
    (fun x =>
       Data_ (fst x) = Data_ req /\
       Next (fst x) = Some sExecuteSequences /\
       exists h hs b,
         blocks (Data_ req) = h :: hs /\
         Blocks (Plan (Data_ req)) !! block_ h = Some b /\
         match BContChecks b with
         | None => snd x = s
         | Some _ =>
             ctxs (snd x) = ctxs s ++ [false] /\
             spawned (snd x) =
               spawned s ++
               match contCheckResult h with
               | Some a => [mkSup (length (ctxs s)) a]
               | None => []
               end /\
             chans (snd x) = chans s
         end).
Proof.
  unfold BlockStartContChecks, bind.
  pose proof (head_whenOk req s) as Hh.
  destruct (head req s) as [[[h b] s1]| | | |]; try exact I.
  destruct (Hh _ eq_refl) as [E (hs & Hb & Hb')]. cbn [fst snd] in *.
  subst s1. destruct (BContChecks b) eqn:Hcc.
  - unfold WithCancel, goSupervise, ret. cbn [contCheckResult].
    destruct (contCheckResult h) as [a|] eqn:Ha; cbn.
    + split; [reflexivity|]. split; [reflexivity|].
      exists h, hs, b. rewrite Hcc, Ha. repeat split; assumption.
    + split; [reflexivity|]. split; [reflexivity|].
      exists h, hs, b. rewrite Hcc, Ha. rewrite app_nil_r.
      repeat split; assumption.
  - cbn. split; [reflexivity|]. split; [reflexivity|].
    exists h, hs, b. rewrite Hcc. repeat split; assumption.
Qed.

End BlockStates.

(** ** Validation of a submitted plan *)

Section QueueProofs.
Import validation validation_spec.

Lemma drain_all (T : Type) (zero : T) (l : list T) :
  drain zero (length l) (mkQueue l) = (l, mkQueue []).
Proof.
  induction l as [|x l IH]; cbn [drain length]; [reflexivity|].
  unfold pop. cbn [items]. rewrite IH. reflexivity.
Qed.

(** X26. The queue is first in, first out: after a push, as many pops as
    there are items return the items that were waiting, in their order,
    followed by the items pushed, in theirs, and leave the queue empty; a
    pop on an empty queue returns the zero value and leaves it empty. *)
Theorem queue_is_fifo (T : Type) (zero : T) (q : queue T) (new : list T) :
  drain zero (length (items q) + length new) (push q new)
    = (items q ++ new, mkQueue []) /\
  pop zero (mkQueue []) = (zero, mkQueue []).
Proof.
  split; [|reflexivity].
  unfold push. rewrite <- length_app. apply drain_all.
Qed.

End QueueProofs.

Section ValidateProofs.
Import validation validation_spec.
Variable blank : string -> bool.
Variable quote : string -> string.
Variable Registry : registry.

Lemma length_zero_nil {A} (l : list A) :
  (length l =? 0)%nat = true <-> l = [].
Proof.
  destruct l; cbn; split; try reflexivity; discriminate.
Qed.

Lemma Forall_wf_fmap {A} (f : A -> validator) (P : A -> Prop) (l : list A) :
  (forall x, wf blank Registry (f x) <-> P x) ->
  Forall (wf blank Registry) (f <$> l) <-> Forall P l.
Proof.
  intros H. rewrite Forall_fmap. apply Forall_proper; [|reflexivity].
  intros x. apply H.
Qed.

Lemma Action_validate_wf (a : option Action) :
  wfAction blank Registry a <->
  snd (Action_validate blank quote Registry a) = None.
Proof.
  unfold wfAction, Action_validate, pluginOf.
  destruct a as [a|]; [|split; [intros (a' & [=] & _)|discriminate]].
  destruct (AInternal a) as [i|] eqn:Hi; cbn [bool_decide decide_rel].
  { rewrite bool_decide_eq_true_2 by eauto. cbn.
    split; [|discriminate]. intros (a' & [= <-] & E & _). congruence. }
  rewrite bool_decide_eq_false_2 by (intros [x [=]]).
  destruct (Z.eqb_spec (Timeout a) 0) as [E0|E0];
    destruct (Z.ltb_spec (Retries a) 0) as [Er|Er];
    cbn [Timeout Action_withTimeout AName ADescr Plugin Attempts Retries
         register Req Action_withRetries];
    try replace (30 * Second <? 5 * Second) with false by reflexivity;
    try replace (30 * Second <? 0) with false by reflexivity;
    try destruct (Z.ltb_spec (Timeout a) (5 * Second)) as [E5|E5];
    destruct (blank (AName a)) eqn:B1;
    destruct (blank (ADescr a)) eqn:B2;
    destruct (blank (Plugin a)) eqn:B3;
    destruct (Attempts a) as [l|] eqn:B4;
    rewrite ?(bool_decide_eq_true_2 (is_Some (Some _))) by eauto;
    rewrite ?(bool_decide_eq_false_2 (is_Some None)) by (intros [x [=]]);
    try rewrite (proj2 (Z.ltb_lt _ _) Er);
    try rewrite (proj2 (Z.ltb_ge _ _) Er);
    cbn [Timeout Action_withTimeout AName ADescr Plugin Attempts Retries
         register Req Action_withRetries snd];
    try (split; [|discriminate];
         intros (a' & Ea & W1 & W2 & W3 & W4 & W5 & W6 & p' & W7 & W8);
         injection Ea as <-; (congruence || (destruct W2; (congruence || lia))));
    destruct (match register a with
              | Some g => g (Plugin a)
              | None => Registry (Plugin a)
              end) as [p|] eqn:Hplug;
    try destruct (p (Req a)) as [err|] eqn:Hreq;
    cbn [snd];
    try (split; [|discriminate];
         intros (a' & Ea & W1 & W2 & W3 & W4 & W5 & W6 & p' & W7 & W8);
         injection Ea as <-; congruence);
    (split; [reflexivity|]; intros _; exists a;
     repeat split; auto; try (exists p; auto); try (left; assumption);
     try (right; lia)).
Qed.

End ValidateProofs.

Section ValidateTree.
Import validation validation_spec.
Variable blank : string -> bool.
Variable quote : string -> string.
Variable Registry : registry.

Lemma Checks_validate_wf (c : option Checks) :
  wfChecks blank Registry c <->
  snd (Checks_validate c) = None /\
  Forall (wf blank Registry) (fst (Checks_validate c)).
Proof.
  unfold wfChecks, Checks_validate. destruct c as [c|].
  - destruct (Actions c) as [|a l] eqn:Ha; cbn [length Nat.eqb].
    + split; [|intros [[=] _]]. intros H.
      destruct (H c eq_refl) as [E _]. congruence.
    + destruct (CInternal c) as [i|] eqn:Hi.
      * rewrite bool_decide_eq_true_2 by eauto.
        split; [|intros [[=] _]]. intros H.
        destruct (H c eq_refl) as (_ & E & _). congruence.
      * rewrite bool_decide_eq_false_2 by (intros [x [=]]). cbn [fst snd].
        rewrite (Forall_wf_fmap blank Registry vAction
                   (wfAction blank Registry)) by reflexivity.
        split.
        -- intros H. destruct (H c eq_refl) as (_ & _ & E).
           rewrite Ha in E. auto.
        -- intros [_ E] c' [= <-]. rewrite Ha. repeat split; auto;
           try discriminate.
  - cbn. split; [auto|]. intros _ c' [=].
Qed.

Lemma Sequence_validate_wf (s : option Sequence) :
  wfSequence blank Registry s <->
  snd (Sequence_validate blank s) = None /\
  Forall (wf blank Registry) (fst (Sequence_validate blank s)).
Proof.
  unfold wfSequence, Sequence_validate.
  destruct s as [s|];
    [|split; [intros (s' & [=] & _)|intros [[=] _]]].
  destruct (blank (SName s)) eqn:B1;
    [split; [intros (s' & [= <-] & ? & _); congruence|intros [[=] _]]|].
  destruct (blank (SDescr s)) eqn:B2;
    [split; [intros (s' & [= <-] & _ & ? & _); congruence|intros [[=] _]]|].
  destruct (SInternal s) as [i|] eqn:Hi.
  { rewrite bool_decide_eq_true_2 by eauto.
    split; [intros (s' & [= <-] & _ & _ & ? & _); congruence
           |intros [[=] _]]. }
  rewrite bool_decide_eq_false_2 by (intros [x [=]]).
  destruct (SActions s) as [|a l] eqn:Ha; cbn [length Nat.eqb].
  { split; [intros (s' & [= <-] & _ & _ & _ & ? & _); congruence
           |intros [[=] _]]. }
  cbn [fst snd].
  rewrite (Forall_wf_fmap blank Registry vAction
             (wfAction blank Registry)) by reflexivity.
  split.
  - intros (s' & [= <-] & _ & _ & _ & _ & E). rewrite Ha in E. auto.
  - intros [_ E]. exists s. rewrite Ha. repeat split; auto; try discriminate.
Qed.

Lemma Block_validate_wf (b : option Block) :
  wfBlock blank Registry b <->
  snd (Block_validate blank b) = None /\
  Forall (wf blank Registry) (fst (Block_validate blank b)).
Proof.
  unfold wfBlock, Block_validate.
  destruct b as [b|];
    [|split; [intros (b' & [=] & _)|intros [[=] _]]].
  destruct (blank (BName b)) eqn:B1;
    [split; [intros (b' & [= <-] & ? & _); congruence|intros [[=] _]]|].
  destruct (blank (BDescr b)) eqn:B2;
    [split; [intros (b' & [= <-] & _ & ? & _); congruence|intros [[=] _]]|].
  destruct (Z.ltb_spec (Concurrency b) 1) as [Ec|Ec];
    [split; [intros (b' & [= <-] & _ & _ & ? & _); lia|intros [[=] _]]|].
  destruct (BInternal b) as [i|] eqn:Hi.
  { rewrite bool_decide_eq_true_2 by eauto.
    split; [intros (b' & [= <-] & _ & _ & _ & ? & _); congruence
           |intros [[=] _]]. }
  rewrite bool_decide_eq_false_2 by (intros [x [=]]).
  destruct (Sequences b) as [|q l] eqn:Hq; cbn [length Nat.eqb].
  { split; [intros (b' & [= <-] & _ & _ & _ & _ & ? & _); congruence
           |intros [[=] _]]. }
  cbn [fst snd app]. rewrite !Forall_cons.
  rewrite (Forall_wf_fmap blank Registry vSequence
             (wfSequence blank Registry)) by reflexivity.
  cbn [wf].
  split.
  - intros (b' & [= <-] & _ & _ & _ & _ & _ & C1 & C2 & C3 & E).
    rewrite Hq in E. auto.
  - intros (_ & C1 & C2 & C3 & E). exists b. rewrite Hq.
    intuition (try discriminate; auto).
Qed.

Lemma Plan_validate_wf (p : option Plan) :
  wfPlan blank Registry p <->
  snd (Plan_validate blank p) = None /\
  Forall (wf blank Registry) (fst (Plan_validate blank p)).
Proof.
  unfold wfPlan, Plan_validate.
  destruct p as [p|];
    [|split; [intros (p' & [=] & _)|intros [[=] _]]].
  destruct (blank (Name p)) eqn:B1;
    [split; [intros (p' & [= <-] & ? & _); congruence|intros [[=] _]]|].
  destruct (blank (Descr p)) eqn:B2;
    [split; [intros (p' & [= <-] & _ & ? & _); congruence|intros [[=] _]]|].
  destruct (Blocks p) as [|b l] eqn:Hb; cbn [length Nat.eqb].
  { split; [intros (p' & [= <-] & _ & _ & ? & _); congruence
           |intros [[=] _]]. }
  destruct (Internals p) as [i|] eqn:Hi.
  { rewrite bool_decide_eq_true_2 by eauto.
    split; [intros (p' & [= <-] & _ & _ & _ & ? & _); congruence
           |intros [[=] _]]. }
  rewrite bool_decide_eq_false_2 by (intros [x [=]]).
  cbn [fst snd app]. rewrite !Forall_cons.
  rewrite (Forall_wf_fmap blank Registry vBlock
             (wfBlock blank Registry)) by reflexivity.
  cbn [wf].
  split.
  - intros (p' & [= <-] & _ & _ & _ & _ & C1 & C2 & C3 & E).
    rewrite Hb in E. auto.
  - intros (_ & C1 & C2 & C3 & E). exists p. rewrite Hb.
    intuition (try discriminate; auto).
Qed.

(** A validator is in order exactly when its own [validate] returns no
    error and the validators it returns are in order. *)
Lemma validate_wf (v : validator) :
  (wf blank Registry) v <-> snd (validate blank quote Registry v) = None /\ Forall (wf blank Registry) (fst (validate blank quote Registry v)).
Proof.
  destruct v; cbn [wf validate].
  - apply Plan_validate_wf.
  - apply Checks_validate_wf.
  - apply Checks_validate_wf.
  - apply Checks_validate_wf.
  - apply Block_validate_wf.
  - apply Sequence_validate_wf.
  - cbn [fst snd]. rewrite (Action_validate_wf blank quote Registry).
    split; [intros H; split; [exact H|constructor]|intros [H _]; exact H].
Qed.

Lemma total_app l1 l2 : total (l1 ++ l2) = (total l1 + total l2)%nat.
Proof. unfold total. rewrite fmap_app, list_sum_app. reflexivity. Qed.

Lemma total_cons v l : total (v :: l) = (weight v + total l)%nat.
Proof. reflexivity. Qed.

Lemma total_actions (l : list (option Action)) :
  total (vAction <$> l) = length l.
Proof.
  induction l as [|a l IH]; [reflexivity|].
  rewrite fmap_cons, total_cons, IH. reflexivity.
Qed.

Lemma total_fmap {A} (f : A -> validator) (w : A -> nat) (l : list A) :
  (forall x, weight (f x) = w x) ->
  total (f <$> l) = list_sum (w <$> l).
Proof.
  intros H. induction l as [|a l IH]; [reflexivity|].
  rewrite !fmap_cons, total_cons, IH, H. reflexivity.
Qed.

(** The validators [validate] returns weigh one less than the validator
    itself. *)
Lemma validate_weight (v : validator) :
  snd (validate blank quote Registry v) = None -> S (total (fst (validate blank quote Registry v))) = weight v.
Proof.
  destruct v as [p|c|c|c|b|s|a]; cbn [validate weight].
  - unfold Plan_validate. destruct p as [p|]; [|discriminate].
    repeat match goal with
           | |- context [if ?c then _ else _] => destruct c
           end; try discriminate.
    intros _. cbn [fst wPlan].
    change ([vPreChecks (PreChecks p); vPostChecks (PostChecks p);
             vContChecks (ContChecks p)] ++ (vBlock <$> Blocks p))
      with (vPreChecks (PreChecks p) :: vPostChecks (PostChecks p)
            :: vContChecks (ContChecks p) :: (vBlock <$> Blocks p)).
    rewrite !total_cons. cbn [weight].
    rewrite (total_fmap vBlock wBlock) by reflexivity. lia.
  - unfold Checks_validate. destruct c as [c|]; [|reflexivity].
    repeat match goal with
           | |- context [if ?c then _ else _] => destruct c
           end; try discriminate.
    intros _. cbn [fst wChecks]. rewrite total_actions. reflexivity.
  - unfold Checks_validate. destruct c as [c|]; [|reflexivity].
    repeat match goal with
           | |- context [if ?c then _ else _] => destruct c
           end; try discriminate.
    intros _. cbn [fst wChecks]. rewrite total_actions. reflexivity.
  - unfold Checks_validate. destruct c as [c|]; [|reflexivity].
    repeat match goal with
           | |- context [if ?c then _ else _] => destruct c
           end; try discriminate.
    intros _. cbn [fst wChecks]. rewrite total_actions. reflexivity.
  - unfold Block_validate. destruct b as [b|]; [|discriminate].
    repeat match goal with
           | |- context [if ?c then _ else _] => destruct c
           end; try discriminate.
    intros _. cbn [fst wBlock].
    change ([vPreChecks (BPreChecks b); vPostChecks (BPostChecks b);
             vContChecks (BContChecks b)] ++ (vSequence <$> Sequences b))
      with (vPreChecks (BPreChecks b) :: vPostChecks (BPostChecks b)
            :: vContChecks (BContChecks b) :: (vSequence <$> Sequences b)).
    rewrite !total_cons. cbn [weight].
    rewrite (total_fmap vSequence wSequence) by reflexivity. lia.
  - unfold Sequence_validate. destruct s as [s|]; [|discriminate].
    repeat match goal with
           | |- context [if ?c then _ else _] => destruct c
           end; try discriminate.
    intros _. cbn [fst wSequence]. rewrite total_actions. reflexivity.
  - reflexivity.
Qed.

(** One round of the loop on a queue whose first validator passes. *)
Lemma validateLoop_step (fuel : nat) (v : validator) (rest : list validator) :
  snd (validate blank quote Registry v) = None ->
  validateLoop blank quote Registry (S fuel) (mkQueue (Some <$> v :: rest))
  = validateLoop blank quote Registry fuel
      (mkQueue (Some <$> rest ++ fst (validate blank quote Registry v))).
Proof.
  intros Hv. cbn [validateLoop fmap list_fmap pop items].
  destruct (validate blank quote Registry v) as [vals err]. cbn [fst snd] in *. subst err.
  destruct vals as [|x vals]; cbn [length Nat.eqb negb].
  - rewrite app_nil_r. reflexivity.
  - unfold push. cbn [items]. rewrite fmap_app. reflexivity.
Qed.

Lemma validateLoop_error (fuel : nat) (v : validator) (rest : list validator)
      (e : error) :
  snd (validate blank quote Registry v) = Some e ->
  validateLoop blank quote Registry (S fuel) (mkQueue (Some <$> v :: rest))
  = Some (Some e).
Proof.
  intros Hv. cbn [validateLoop fmap list_fmap pop items].
  destruct (validate blank quote Registry v) as [vals err]. cbn [snd] in Hv. subst err.
  reflexivity.
Qed.

Lemma validateLoop_spec (fuel : nat) :
  forall l : list validator,
    (total l < fuel)%nat ->
    exists r,
      validateLoop blank quote Registry fuel (mkQueue (Some <$> l)) = Some r /\
      (r = None <-> Forall (wf blank Registry) l).
Proof.
  induction fuel as [|fuel IH]; intros l Hl; [lia|].
  destruct l as [|v rest].
  - exists None. split; [reflexivity|]. split; [constructor|reflexivity].
  - destruct (snd (validate blank quote Registry v)) as [e|] eqn:Hv.
    + exists (Some e). split; [apply validateLoop_error, Hv|].
      split; [discriminate|]. intros H. apply Forall_cons in H as [H _].
      apply validate_wf in H as [H _]. congruence.
    + rewrite (validateLoop_step fuel v rest Hv).
      pose proof (validate_weight v Hv) as Hw.
      destruct (IH (rest ++ fst (validate blank quote Registry v))) as (r & Hr & Hiff).
      { rewrite total_app. rewrite total_cons in Hl. lia. }
      exists r. split; [exact Hr|]. rewrite Hiff, Forall_app, Forall_cons.
      rewrite (validate_wf v). rewrite Hv. tauto.
Qed.

(** The loop returns the error of the first validator of the queue that
    does not pass, however the validators before it fare below. *)
Lemma validateLoop_first_error (pre : list validator) :
  forall (fuel : nat) (v : validator) (rest : list validator) (e : error),
    Forall (passes blank quote Registry) pre ->
    snd (validate blank quote Registry v) = Some e ->
    (length pre < fuel)%nat ->
    validateLoop blank quote Registry fuel
      (mkQueue (Some <$> pre ++ v :: rest)) = Some (Some e).
Proof.
  induction pre as [|u pre IH]; intros fuel v rest e Hpre Hv Hf.
  - destruct fuel as [|fuel]; [lia|]. apply validateLoop_error, Hv.
  - destruct fuel as [|fuel]; [cbn in Hf; lia|].
    apply Forall_cons in Hpre as [Hu Hpre].
    cbn [app]. rewrite (validateLoop_step fuel u _ Hu).
    rewrite <- app_assoc. cbn [app].
    apply IH; [exact Hpre|exact Hv|cbn in Hf; lia].
Qed.

End ValidateTree.

Section ValidateClaims.
Import validation validation_spec.

Ltac av_step :=
  cbn [fst snd AName ADescr Plugin Timeout Retries Req Attempts AInternal
       register Action_withTimeout Action_withRetries] in *;
  match goal with
  | |- context [30 * Second =? 0] => change (30 * Second =? 0) with false
  | |- context [30 * Second <? 5 * Second] =>
      change (30 * Second <? 5 * Second) with false
  | |- context [0 <? 0] => change (0 <? 0) with false
  | |- context [bool_decide (is_Some (Some ?y))] =>
      rewrite (bool_decide_eq_true_2 (is_Some (Some y))) by eauto
  | |- context [bool_decide (is_Some (@None ?A))] =>
      rewrite (bool_decide_eq_false_2 (is_Some (@None A)))
        by (intros [? [=]])
  | H : ?c = _ |- context [if ?c then _ else _] => rewrite H
  | H : ?x = _ |- context [bool_decide (is_Some ?x)] => rewrite H
  | H : ?x = _ |- context [match ?x with Some _ => _ | None => _ end] =>
      rewrite H
  | |- context [bool_decide (is_Some ?x)] => destruct x eqn:?
  | |- context [if ?c then _ else _] => destruct c eqn:?
  | |- context [match ?x with Some _ => _ | None => _ end] =>
      destruct x eqn:?
  end.

Ltac av_rewrite :=
  cbn [fst snd AName ADescr Plugin Timeout Retries Req Attempts AInternal
       register Action_withTimeout Action_withRetries];
  match goal with
  | |- context [30 * Second =? 0] => change (30 * Second =? 0) with false
  | |- context [30 * Second <? 5 * Second] =>
      change (30 * Second <? 5 * Second) with false
  | |- context [0 <? 0] => change (0 <? 0) with false
  | |- context [bool_decide (is_Some (Some ?y))] =>
      rewrite (bool_decide_eq_true_2 (is_Some (Some y))) by eauto
  | |- context [bool_decide (is_Some (@None ?A))] =>
      rewrite (bool_decide_eq_false_2 (is_Some (@None A)))
        by (intros [? [=]])
  | H : ?c = _ |- context [if ?c then _ else _] => rewrite H
  | H : ?x = _ |- context [bool_decide (is_Some ?x)] => rewrite H
  | H : ?x = _ |- context [match ?x with Some _ => _ | None => _ end] =>
      rewrite H
  end.

Ltac z_facts :=
  repeat match goal with
         | H : (_ <? _) = true |- _ => apply Z.ltb_lt in H
         | H : (_ <? _) = false |- _ => apply Z.ltb_ge in H
         | H : (_ =? _) = true |- _ => apply Z.eqb_eq in H
         | H : (_ =? _) = false |- _ => apply Z.eqb_neq in H
         end.

(** X27. [Action.validate] settles the action it accepts: with a nil error
    the action is left with a timeout of at least five seconds (thirty
    where none was given), retries that are not negative (zero where they
    were), and everything else as it was, [Internal] and [Attempts] still
    nil. Validating again the action a validation left, accepted or not,
    returns what the first validation returned. *)
Theorem Action_validate_settles (blank : string -> bool)
        (quote : string -> string) (Registry : registry)
        (a : option Action) :
  (snd (Action_validate blank quote Registry a) = None ->
   exists a0 a',
     a = Some a0 /\
     fst (Action_validate blank quote Registry a) = Some a' /\
     Timeout a' = (if Timeout a0 =? 0 then 30 * Second else Timeout a0) /\
     5 * Second <= Timeout a' /\
     Retries a' = Z.max 0 (Retries a0) /\
     AName a' = AName a0 /\ ADescr a' = ADescr a0 /\
     Plugin a' = Plugin a0 /\ Req a' = Req a0 /\
     register a' = register a0 /\
     AInternal a' = None /\ Attempts a' = None) /\
  snd (Action_validate blank quote Registry
         (fst (Action_validate blank quote Registry a)))
  = snd (Action_validate blank quote Registry a).
Proof.
  destruct a as [a|]; [|split; [discriminate|reflexivity]].
  split.
  - unfold Action_validate. repeat av_step; try discriminate;
      intros _; eexists a, _; (split; [reflexivity|]);
      (split; [reflexivity|]);
      cbn [fst snd AName ADescr Plugin Timeout Retries Req Attempts
           AInternal register Action_withTimeout Action_withRetries];
      z_facts;
      try rewrite (proj2 (Z.eqb_eq (Timeout a) 0)) by assumption;
      try rewrite (proj2 (Z.eqb_neq (Timeout a) 0)) by assumption;
      repeat split; try reflexivity; try assumption; try lia.
  - destruct (AInternal a) as [i|] eqn:Hi;
      [unfold Action_validate; repeat av_rewrite; reflexivity|].
    destruct (Timeout a =? 0) eqn:E0;
      destruct (Timeout a <? 5 * Second) eqn:E5;
      try (exfalso; z_facts; unfold Second in *; lia);
      destruct (blank (AName a)) eqn:B1;
      try (unfold Action_validate; repeat av_rewrite; reflexivity);
      destruct (blank (ADescr a)) eqn:B2;
      try (unfold Action_validate; repeat av_rewrite; reflexivity);
      destruct (blank (Plugin a)) eqn:B3;
      try (unfold Action_validate; repeat av_rewrite; reflexivity);
      destruct (Attempts a) as [l|] eqn:B4;
      try (unfold Action_validate; repeat av_rewrite; reflexivity);
      destruct (Retries a <? 0) eqn:Er;
      destruct (match register a with
                | Some r => r (Plugin a)
                | None => Registry (Plugin a)
                end) as [p|] eqn:Hp;
      try (unfold Action_validate; repeat av_rewrite; reflexivity);
      destruct (p (Req a)) as [err|] eqn:Hr;
      unfold Action_validate; repeat av_rewrite; reflexivity.
Qed.

(** X28. [Validate] returns, within as many rounds as the plan has objects
    and one more, and its error is nil exactly when the plan is in order:
    it is not nil, is named and described, has at least one block and no
    internals; its check sets, where present, have at least one action and
    no internals; every block is there, named, described, with a
    concurrency of at least 1, no internals and at least one sequence;
    every sequence is there, named, described, with at least one action;
    and every action is there, named, described, with a timeout of zero or
    at least five seconds, no attempts, no internals, and a registered
    plugin that accepts its request. *)
Theorem Validate_nil_iff (blank : string -> bool) (quote : string -> string)
        (Registry : registry) (fuel : nat) (p : option Plan)
        (Hfuel : (wPlan p < fuel)%nat) :
  exists r,
    Validate blank quote Registry fuel p = Some r /\
    (r = None <-> wfPlan blank Registry p).
Proof.
  destruct p as [p|].
  - unfold Validate, push. cbn [items app].
    destruct (validateLoop_spec blank quote Registry fuel [vPlan (Some p)])
      as (r & Hr & Hiff).
    { rewrite total_cons. cbn [weight]. change (total []) with 0%nat. lia. }
    exists r. split; [exact Hr|]. rewrite Hiff.
    split; [intros H; apply Forall_cons in H as [H _]; exact H|].
    intros H. constructor; [exact H|constructor].
  - exists (Some (errorString "cannot have a nil Plan")).
    split; [reflexivity|]. split; [discriminate|].
    intros (p' & [=] & _).
Qed.

Lemma Validate_nil_iff_witness :
  Validate isEmpty quoted oneRegistry 11 (Some goodPlan) = Some None /\
  wfPlan isEmpty oneRegistry (Some goodPlan).
Proof.
  destruct (Validate_nil_iff isEmpty quoted oneRegistry 11 (Some goodPlan))
    as (r & Hr & Hiff); [vm_compute; lia|].
  assert (E : r = None) by (vm_compute in Hr; congruence).
  split; [rewrite Hr, E; reflexivity|apply Hiff, E].
Defined.

(** X29. [Validate] goes breadth first: when the plan and its three check
    sets pass their own validation, the error returned is that of the first
    block that does not pass its own, whatever is wrong with the actions of
    the checks or below the blocks before it. *)
Theorem Validate_reports_breadth_first
        (blank : string -> bool) (quote : string -> string)
        (Registry : registry) (fuel : nat) (p : Plan)
        (before after : list (option Block)) (b : option Block) (e : error)
        (Hplan : snd (Plan_validate blank (Some p)) = None)
        (Hpre : snd (Checks_validate (PreChecks p)) = None)
        (Hpost : snd (Checks_validate (PostChecks p)) = None)
        (Hcont : snd (Checks_validate (ContChecks p)) = None)
        (Hblocks : Blocks p = before ++ b :: after)
        (Hbefore : Forall (fun b' => snd (Block_validate blank b') = None)
                          before)
        (Hb : snd (Block_validate blank b) = Some e)
        (Hfuel : (4 + length before < fuel)%nat) :
  Validate blank quote Registry fuel (Some p) = Some (Some e).
Proof.
  unfold Validate, push. cbn [items app].
  destruct fuel as [|fuel]; [lia|].
  change [Some (vPlan (Some p))] with (Some <$> [vPlan (Some p)]).
  rewrite validateLoop_step by exact Hplan. cbn [app].
  assert (Hv : fst (validate blank quote Registry (vPlan (Some p))) =
               ([vPreChecks (PreChecks p); vPostChecks (PostChecks p);
                 vContChecks (ContChecks p)] ++ (vBlock <$> before))
               ++ vBlock b :: (vBlock <$> after)).
  { cbn [validate]. unfold Plan_validate in *.
    repeat match goal with
           | H : context [if ?c then _ else _] |- _ => destruct c
           end; try discriminate.
    cbn [fst]. rewrite Hblocks, fmap_app, fmap_cons, <- app_assoc.
    reflexivity. }
  rewrite Hv.
  apply validateLoop_first_error.
  - repeat apply Forall_cons_2; try assumption.
    apply Forall_fmap. exact Hbefore.
  - exact Hb.
  - rewrite length_app, length_fmap. cbn. lia.
Qed.

Lemma Validate_reports_breadth_first_witness :
  Validate isEmpty quoted oneRegistry 6 (Some lopsidedPlan)
  = Some (Some (errorString "name is required")) /\
  ~ wfChecks isEmpty oneRegistry (PreChecks lopsidedPlan).
Proof.
  split.
  - apply (Validate_reports_breadth_first
             isEmpty quoted oneRegistry 6 lopsidedPlan
             [Some goodBlock] [] (Some namelessBlock));
      try reflexivity.
    + constructor; [reflexivity|constructor].
    + cbn. lia.
  - intros H. destruct (H hollowChecks eq_refl) as (_ & _ & Hf).
    apply Forall_cons in Hf as [(a & [=] & _) _].
Defined.

End ValidateClaims.

(** ** The check sets of the plan *)

Section CheckStates.
Import sm sm_spec more_spec table_spec checks_spec.
Variable env : Env.

Lemma runPreChecks_states pre cont s :
  whenOk (runPreChecks env pre cont s)
    (fun r => CState <$> snd (fst (fst r)) = CState <$> pre /\
              CState <$> snd (fst r) = CState <$> cont).
Proof.
  intros x.
  destruct pre as [pc|], cont as [cc|]; unfold runPreChecks, bind, ret;
    repeat match goal with
           | |- context [runChecks env ?l ?x] =>
               destruct (runChecks env l x) as [[[? ?] ?]| | | |];
               try discriminate
           end;
    repeat match goal with
           | |- context [match ?e with Some _ => _ | None => _ end] =>
               destruct e
           end;
    cbn; try destruct (bool_decide _); intros [= <-]; split; reflexivity.
Qed.

Lemma checkStates_updBlock i f req :
  checkStates (Plan (Data_ (updBlock i f req)))
  = checkStates (Plan (Data_ req)).
Proof. reflexivity. Qed.

Ltac checks_step :=
  match goal with
  | |- whenOk (ret _ _) _ => apply whenOk_ret
  | |- whenOk (bind _ _ _) _ => apply whenOk_bind_any; intros ? ?
  | |- whenOk (panic _ _) _ => intros ?; discriminate
  | |- whenOk (fatal _ _) _ => intros ?; discriminate
  | x : (_ * _)%type |- _ => destruct x
  | |- whenOk (match ?x with _ => _ end _) _ => destruct x
  | |- whenOk (if ?x then _ else _) _ => destruct x
  | |- whenOk (match ?x with _ => _ end) _ => destruct x
  end.

Lemma submitLoop_checks bi (todo : list Sequence) :
  forall i fails req0 req s,
    checkStates (Plan (Data_ req)) = checkStates (Plan (Data_ req0)) ->
    whenOk (submitLoop env bi i todo fails req s)
      (fun x => checkStates (Plan (Data_ (fst x)))
                = checkStates (Plan (Data_ req0))).
Proof.
  induction todo as [|q rest IH]; intros i fails req0 req s Hm;
    cbn [submitLoop].
  - apply whenOk_ret. exact Hm.
  - apply whenOk_bind_any. intros [h b] s1.
    destruct (_ && _); [apply whenOk_ret; exact Hm|].
    apply whenOk_bind_any. intros [ot cerr] s2.
    destruct cerr; [apply whenOk_ret; exact Hm|].
    apply whenOk_bind_any. intros [err q'] s3.
    apply IH. exact Hm.
Qed.

Lemma exec_checks st req s :
  whenOk (exec env st req s)
    (fun x => checkStates (Plan (Data_ (fst x)))
              = checkStates (Plan (Data_ req))).
Proof.
  destruct st; cbn [exec].
  - unfold Start. repeat checks_step; reflexivity.
  - unfold PlanPreChecks.
    eapply whenOk_bind; [apply runPreChecks_states|].
    intros [[[pf err] pre] cont] s1 [H1 H2]. cbn [fst snd] in *.
    destruct err; apply whenOk_ret; cbn [fst]; unfold checkStates; cbn;
      rewrite H1, H2; reflexivity.
  - unfold PlanStartContChecks. repeat checks_step; reflexivity.
  - unfold ExecuteBlock. repeat checks_step; reflexivity.
  - unfold BlockPreChecks. repeat checks_step; reflexivity.
  - unfold BlockStartContChecks. repeat checks_step; reflexivity.
  - unfold ExecuteSequences. apply whenOk_bind_any. intros [h b] s1.
    destruct (Concurrency b <? 1); [intros x; discriminate|].
    apply submitLoop_checks. reflexivity.
  - unfold BlockPostChecks. repeat checks_step; reflexivity.
  - unfold BlockEnd. repeat checks_step;
      match goal with
      | |- context [match ?x with Some _ => _ | None => _ end] => destruct x
      end; reflexivity.
  - unfold PlanPostChecks, checkStates. repeat checks_step; reflexivity.
Qed.

End CheckStates.

Section CheckStatesClaims.
Import sm sm_spec more_spec table_spec checks_spec.

(** X30. The machine never marks a check set. Whatever the run, when the
    runner returns, the state of the pre-checks, of the continuous checks
    and of the post-checks of the plan (status, start and end) is what it
    was on entry: the states write the status of the actions of a check
    set, never that of the set. *)
Theorem check_sets_never_marked (env : Env) (fuel : nat) (req : Request)
        (s : Sys) :
  onReturn (Run env fuel req s)
    (fun x => checkStates (Plan (Data_ (fst x)))
              = checkStates (Plan (Data_ req))).
Proof.
  apply whenOk_onReturn. revert req s.
  induction fuel as [|fuel IH]; intros req s; cbn [Run].
  - destruct (Next req); [intros x; discriminate|].
    apply whenOk_ret. reflexivity.
  - destruct (Next req) as [st|]; [|apply whenOk_ret; reflexivity].
    eapply whenOk_bind; [apply exec_checks|].
    intros r s1 H. cbn [fst] in H. change (Plan (Data_ (setNext None req)))
      with (Plan (Data_ req)) in H.
    destruct (Err r).
    + apply whenOk_ret. exact H.
    + eapply whenOk_weaken; [apply IH|].
      intros [r2 s2] H2. cbn [fst] in *. congruence.
Qed.

End CheckStatesClaims.

(** ** The status of the current block *)

Section BlockStatusProofs.
Import sm sm_spec more_spec table_spec block_spec.
Variable env : Env.

Lemma headStatus_setNext n req : headStatus (setNext n req) = headStatus req.
Proof. reflexivity. Qed.

Lemma headStatus_updBlock i f req :
  (forall b, BState (f b) = BState b) ->
  headStatus (updBlock i f req) = headStatus req.
Proof.
  intros Hf. unfold headStatus. cbn [Data_ blocks updBlock setPlan setData].
  destruct (blocks (Data_ req)) as [|h hs]; [reflexivity|].
  unfold blockStatus. cbn [Data_ Plan updBlock setPlan setData Blocks
                           Plan_withBlocks].
  destruct (decide (i = block_ h)) as [->|Hne].
  - rewrite list_lookup_alter_eq.
    destruct (Blocks (Plan (Data_ req)) !! block_ h) as [b|]; cbn;
      [rewrite Hf|]; reflexivity.
  - rewrite list_lookup_alter_ne by exact Hne. reflexivity.
Qed.

Lemma headStatus_head req s h b :
  head req s = Ok ((h, b), s) ->
  headStatus req = Some (Status_ (BState b)) /\
  exists hs, blocks (Data_ req) = h :: hs /\
             Blocks (Plan (Data_ req)) !! block_ h = Some b.
Proof.
  intros H. destruct (head_whenOk req s _ H) as [_ (hs & Hb & Hl)].
  cbn [fst snd] in *. split; [|eauto].
  unfold headStatus, blockStatus. rewrite Hb, Hl. reflexivity.
Qed.

Ltac block_step :=
  match goal with
  | |- whenOk (ret _ _) _ => apply whenOk_ret
  | |- whenOk (bind _ _ _) _ => apply whenOk_bind_any; intros ? ?
  | |- whenOk (panic _ _) _ => intros ?; discriminate
  | |- whenOk (fatal _ _) _ => intros ?; discriminate
  | x : (_ * _)%type |- _ => destruct x
  | |- whenOk (match ?x with _ => _ end _) _ => destruct x
  | |- whenOk (if ?x then _ else _) _ => destruct x
  | |- whenOk (match ?x with _ => _ end) _ => destruct x
  end.

Ltac block_done H :=
  cbn [fst];
  first
    [ left; reflexivity
    | right;
      repeat first
        [ rewrite headStatus_setNext
        | rewrite headStatus_updBlock by (intros; reflexivity) ];
      exact H ].

(** A state of a block either leaves [Next] as it was or leaves the block
    [Running]. *)
Lemma BlockPreChecks_running req s :
  headStatus req = Some Running ->
  whenOk (BlockPreChecks env req s)
    (fun x => Next (fst x) = Next req \/ headStatus (fst x) = Some Running).
Proof.
  intros H. unfold BlockPreChecks. repeat block_step; block_done H.
Qed.

Lemma BlockStartContChecks_running req s :
  headStatus req = Some Running ->
  whenOk (BlockStartContChecks req s)
    (fun x => Next (fst x) = Next req \/ headStatus (fst x) = Some Running).
Proof.
  intros H. unfold BlockStartContChecks. repeat block_step; block_done H.
Qed.

Lemma submitLoop_running bi (todo : list Sequence) :
  forall i fails req s,
    headStatus req = Some Running ->
    whenOk (submitLoop env bi i todo fails req s)
      (fun x => Next (fst x) = Next req \/ headStatus (fst x) = Some Running).
Proof.
  induction todo as [|q rest IH]; intros i fails req s H; cbn [submitLoop].
  - apply whenOk_ret. block_done H.
  - apply whenOk_bind_any. intros [h b] s1.
    destruct (_ && _); [apply whenOk_ret; block_done H|].
    apply whenOk_bind_any. intros [ot cerr] s2.
    destruct cerr; [apply whenOk_ret; block_done H|].
    apply whenOk_bind_any. intros [err q'] s3.
    eapply whenOk_weaken; [apply IH|].
    + rewrite headStatus_updBlock by (intros; reflexivity). exact H.
    + intros x Hx. exact Hx.
Qed.

Lemma ExecuteSequences_running req s :
  headStatus req = Some Running ->
  whenOk (ExecuteSequences env req s)
    (fun x => Next (fst x) = Next req \/ headStatus (fst x) = Some Running).
Proof.
  intros H. unfold ExecuteSequences. apply whenOk_bind_any. intros [h b] s1.
  destruct (Concurrency b <? 1); [intros x; discriminate|].
  apply submitLoop_running, H.
Qed.

Lemma BlockPostChecks_running req s :
  headStatus req = Some Running ->
  whenOk (BlockPostChecks env req s)
    (fun x => Next (fst x) = Next req \/ headStatus (fst x) = Some Running).
Proof.
  intros H. unfold BlockPostChecks. repeat block_step; block_done H.
Qed.

(** [ExecuteBlock] names [BlockPreChecks] with the block marked
    [Running]. *)
Lemma ExecuteBlock_running req s :
  whenOk (ExecuteBlock env req s)
    (fun x => Next (fst x) = Some sBlockPreChecks ->
              headStatus (fst x) = Some Running).
Proof.
  unfold ExecuteBlock.
  destruct (blocks (Data_ req)) as [|h0 hs0] eqn:Hb.
  - apply whenOk_ret. cbn. discriminate.
  - intros [r s']. unfold bind, storeWrite, ret.
    destruct (head req s) as [[[h b] s1]| | | |] eqn:Hh; try discriminate.
    assert (s1 = s) as ->.
    { destruct (head_whenOk req s _ Hh) as [E _]. exact E. }
    destruct (headStatus_head req s h b Hh) as [_ (hs & Hbl & Hl)].
    destruct (storeErr env (writes s)); intros [= <- <-]; cbn [fst].
    + cbn. intros Hn. assert (Hnone : Next req = Some sBlockPreChecks)
        by exact Hn.
      unfold headStatus. cbn [Data_ blocks updBlock setPlan setData].
      rewrite Hbl. rewrite blockStatus_updBlock with (b := b) by exact Hl.
      reflexivity.
    + intros _. rewrite headStatus_setNext.
      unfold headStatus. cbn [Data_ blocks updBlock setPlan setData].
      rewrite Hbl. rewrite blockStatus_updBlock with (b := b) by exact Hl.
      reflexivity.
Qed.

(** Every state of a block but [BlockEnd]: the machine stops or the block
    is still [Running]. *)
Lemma block_state_running st req s :
  st ∈ blockStates -> st <> sBlockEnd ->
  headStatus req = Some Running ->
  whenOk (exec env st req s)
    (fun x => Next (fst x) = Next req \/ headStatus (fst x) = Some Running).
Proof.
  intros Hst Hne H. unfold blockStates in Hst.
  repeat match goal with
         | H : _ ∈ _ :: _ |- _ => apply elem_of_cons in H as [->|H]
         | H : _ ∈ [] |- _ => apply elem_of_nil in H; contradiction
         end; cbn [exec]; try contradiction.
  - apply BlockPreChecks_running, H.
  - apply BlockStartContChecks_running, H.
  - apply ExecuteSequences_running, H.
  - apply BlockPostChecks_running, H.
Qed.

(** While [Next] names a state of a block, the block is [Running]. *)
Lemma reaches_running x y :
  reaches env x y ->
  (forall st, Next (fst x) = Some st -> st ∈ blockStates ->
              headStatus (fst x) = Some Running) ->
  forall st, Next (fst y) = Some st -> st ∈ blockStates ->
             headStatus (fst y) = Some Running.
Proof.
  induction 1 as [x|req s st req1 s1 x He Hn Hx _ IH]; [auto|].
  intros Hinv. apply IH. cbn [fst] in *. intros n Hn1 Hin.
  destruct (exec_moved env st (setNext None req) s _ Hx)
    as (_ & [H2|(n' & H2 & Hsucc)] & _); cbn [fst] in *.
  { cbn in H2. congruence. }
  assert (n' = n) by congruence. subst n'.
  assert (Hcases : (st = sExecuteBlock /\ n = sBlockPreChecks) \/
                   (st ∈ blockStates /\ st <> sBlockEnd)).
  { unfold blockStates in *.
    destruct st; cbn [successors] in Hsucc;
      repeat match goal with
             | H : _ ∈ _ :: _ |- _ => apply elem_of_cons in H as [H|H]
             | H : _ ∈ [] |- _ => apply elem_of_nil in H; contradiction
             end; subst; try discriminate;
      first [ left; split; reflexivity
            | right; split; [repeat constructor|discriminate] ]. }
  destruct Hcases as [[-> ->]|[Hst Hend]].
  - exact (ExecuteBlock_running (setNext None req) s _ Hx Hn1).
  - assert (Hrun : headStatus (setNext None req) = Some Running).
    { rewrite headStatus_setNext. apply (Hinv st Hn Hst). }
    destruct (block_state_running st (setNext None req) s Hst Hend Hrun _ Hx)
      as [E|E]; cbn [fst] in E; [cbn in E; congruence|exact E].
Qed.

End BlockStatusProofs.

Section BlockStatusClaims.
Import sm sm_spec more_spec table_spec block_spec.

(** C2. In every run of the machine from [Start], while [Next] names a
    state of a block, [BlockEnd] among them, the current block is
    [Running], as [ExecuteBlock] marked it: a state that marks the block
    [Failed] leaves [Next] empty, and the machine stops there. So
    [BlockEnd] is never entered for a block that was marked [Failed], and
    the [Completed] it writes on a nil value never replaces a [Failed]. *)
Theorem block_end_never_masks_failure
        (env : Env) (p : workflow.Plan) (s0 : Sys) (req : Request) (s : Sys)
        (st : state)
        (Hrun : reaches env (startRequest p, s0) (req, s))
        (Hnext : Next req = Some st)
        (Hst : st ∈ blockStates) :
  headStatus req = Some Running /\
  headStatus req <> Some Failed /\
  (st <> sBlockEnd ->
   onReturn (exec env st (setNext None req) s)
     (fun x => Next (fst x) = None \/ headStatus (fst x) = Some Running)).
Proof.
  assert (H : headStatus req = Some Running).
  { apply (reaches_running env _ _ Hrun) with (st := st);
      [|exact Hnext|exact Hst].
    cbn. intros st0 [= <-] Hin. unfold blockStates in Hin.
    repeat match goal with
           | H : _ ∈ _ :: _ |- _ => apply elem_of_cons in H as [H|H]
           | H : _ ∈ [] |- _ => apply elem_of_nil in H; contradiction
           end; discriminate. }
  split; [exact H|]. split; [rewrite H; discriminate|].
  intros Hne. apply whenOk_onReturn.
  eapply whenOk_weaken;
    [apply (block_state_running env st (setNext None req) s Hst Hne);
     rewrite headStatus_setNext; exact H|].
  intros x Hx. exact Hx.
Qed.

Lemma block_end_never_masks_failure_witness :
  reaches testEnv (startRequest plainPlan, Sys0) atBlockEnd /\
  Next (fst atBlockEnd) = Some sBlockEnd /\
  headStatus (fst atBlockEnd) = Some Running.
Proof.
  assert (Hrun : reaches testEnv (startRequest plainPlan, Sys0) atBlockEnd).
  { apply (steps_reaches testEnv 8). vm_compute. reflexivity. }
  split; [exact Hrun|]. split; [reflexivity|].
  refine (proj1 (block_end_never_masks_failure
                   testEnv plainPlan Sys0 (fst atBlockEnd) (snd atBlockEnd)
                   sBlockEnd Hrun eq_refl _)).
  unfold blockStates. repeat constructor.
Defined.

End BlockStatusClaims.

(** ** The reason a plan enters the finalisation machine with *)

Section ReasonProofs.
Import sm sm_spec more_spec table_spec defaults.
Variable env : Env.

Ltac reason_step :=
  match goal with
  | |- whenOk (ret _ _) _ => apply whenOk_ret
  | |- whenOk (bind _ _ _) _ => apply whenOk_bind_any; intros ? ?
  | |- whenOk (panic _ _) _ => intros ?; discriminate
  | |- whenOk (fatal _ _) _ => intros ?; discriminate
  | x : (_ * _)%type |- _ => destruct x
  | |- whenOk (match ?x with _ => _ end _) _ => destruct x
  | |- whenOk (if ?x then _ else _) _ => destruct x
  | |- whenOk (match ?x with _ => _ end) _ => destruct x
  end.

Lemma submitLoop_reason bi (todo : list Sequence) :
  forall i fails req0 req s,
    workflow.Reason (Plan (Data_ req)) = workflow.Reason (Plan (Data_ req0)) ->
    whenOk (submitLoop env bi i todo fails req s)
      (fun x => workflow.Reason (Plan (Data_ (fst x)))
                = workflow.Reason (Plan (Data_ req0))).
Proof.
  induction todo as [|q rest IH]; intros i fails req0 req s Hm;
    cbn [submitLoop].
  - apply whenOk_ret. exact Hm.
  - apply whenOk_bind_any. intros [h b] s1.
    destruct (_ && _); [apply whenOk_ret; exact Hm|].
    apply whenOk_bind_any. intros [ot cerr] s2.
    destruct cerr; [apply whenOk_ret; exact Hm|].
    apply whenOk_bind_any. intros [err q'] s3.
    apply IH. exact Hm.
Qed.

(** No state of the execution machine writes the reason of the plan. *)
Lemma exec_reason st req s :
  whenOk (exec env st req s)
    (fun x => workflow.Reason (Plan (Data_ (fst x)))
              = workflow.Reason (Plan (Data_ req))).
Proof.
  destruct st; cbn [exec].
  - unfold Start. repeat reason_step; reflexivity.
  - unfold PlanPreChecks. repeat reason_step; reflexivity.
  - unfold PlanStartContChecks. repeat reason_step; reflexivity.
  - unfold ExecuteBlock. repeat reason_step; reflexivity.
  - unfold BlockPreChecks. repeat reason_step; reflexivity.
  - unfold BlockStartContChecks. repeat reason_step; reflexivity.
  - unfold ExecuteSequences. apply whenOk_bind_any. intros [h b] s1.
    destruct (Concurrency b <? 1); [intros x; discriminate|].
    apply submitLoop_reason. reflexivity.
  - unfold BlockPostChecks. repeat reason_step; reflexivity.
  - unfold BlockEnd. repeat reason_step;
      match goal with
      | |- context [match ?x with Some _ => _ | None => _ end] => destruct x
      end; reflexivity.
  - unfold PlanPostChecks. repeat reason_step; reflexivity.
Qed.

Lemma reaches_reason x y :
  reaches env x y ->
  workflow.Reason (Plan (Data_ (fst y)))
  = workflow.Reason (Plan (Data_ (fst x))).
Proof.
  induction 1 as [x|req s st req1 s1 x He Hn Hx _ IH]; [reflexivity|].
  rewrite IH. exact (exec_reason st (setNext None req) s _ Hx).
Qed.

(** A plan has the reason [FRUnknown] from its defaults. *)
Lemma defaults_reason (p : workflow.Plan) :
  workflow.Reason (Plan_defaults p) = FRUnknown.
Proof. reflexivity. Qed.

(** The plan the execution machine hands over has the reason [FRUnknown]:
    it has it from its defaults and no state writes it. *)
Lemma entering_reason (p : workflow.Plan) (s0 : Sys) (req : Request)
      (s : Sys) :
  reaches env (startRequest (Plan_defaults p), s0) (req, s) ->
  workflow.Reason (Plan (Data_ req)) = FRUnknown.
Proof. intros H. apply reaches_reason in H. exact H. Qed.

(** Finalising the plan the execution machine hands over: the reason is
    [FRUnknown] exactly when the plan ends [Completed]. *)
Lemma finalize_after_run (p : workflow.Plan) (s0 : Sys) (req : Request)
      (s : Sys) :
  reaches env (startRequest (Plan_defaults p), s0) (req, s) ->
  exists r, final.finalize (Plan (Data_ req)) = Some r /\
    (workflow.Reason (final.plan r) = FRUnknown <->
     Status_ (PState (final.plan r)) = Completed).
Proof.
  intros H. exists (final_spec.outcome (Plan (Data_ req))).
  split; [apply finalize_outcome|].
  apply outcome_reason_iff. exact (entering_reason p s0 req s H).
Qed.

End ReasonProofs.

Section ReasonClaims.
Import sm sm_spec more_spec table_spec defaults delivered_spec.

(** The plan the execution machine hands over for [watchedPlan], whose
    continuous checks were never marked, is finalised [Failed] with the
    reason [FRContCheck]. *)
Lemma finalize_status_and_reason_witness :
  reaches testEnv (startRequest (Plan_defaults watchedPlan), Sys0) delivered /\
  Next (fst delivered) = None /\
  exists r, final.finalize (Plan (Data_ (fst delivered))) = Some r /\
            Status_ (PState (final.plan r)) = Failed /\
            workflow.Reason (final.plan r) = FRContCheck /\
            (workflow.Reason (final.plan r) = FRUnknown <->
             Status_ (PState (final.plan r)) = Completed).
Proof.
  assert (Hrun : reaches testEnv
                   (startRequest (Plan_defaults watchedPlan), Sys0) delivered).
  { apply (steps_reaches testEnv 6). vm_compute. reflexivity. }
  split; [exact Hrun|]. split; [reflexivity|].
  destruct (finalize_status_and_reason
              (Plan (Data_ (fst delivered)))
              (entering_reason testEnv watchedPlan Sys0
                 (fst delivered) (snd delivered) Hrun))
    as [r [Hr [Hc [_ Hiff]]]].
  exists r. split; [exact Hr|].
  destruct (Hc FRContCheck "ContChecks" NotStarted eq_refl) as [Hs [Hre _]].
  repeat split; try assumption; apply Hiff.
Defined.

End ReasonClaims.
